(** * The ask routes: query orchestration and the pending-search protocol

    A shallow embedding of [packages/backend/src/routes/ask.ts]:
    the in-memory registry [pendingSearches], the three handlers that read
    or write an entry, the detached synthesis task with its clean-up timer,
    and the [POST /ask] handler with its credential refresh, its two
    synchronous fetches and the registration of a pending search.

    JavaScript objects are shared by reference: the background task keeps
    the [pendingSearch] object it was started with, while the registry may
    drop or rebind the request id.  The model therefore has a heap of
    entries and a registry from request ids to heap addresses. *)

From Stdlib Require Import ZArith Lia.

From Stdlib Require QArith.QArith_base.

From stdpp Require Import gmap strings list fin_maps pretty.

#[local] Set Warnings "-clear-no-such-hyp".

Local Open Scope string_scope.

Local Open Scope Z_scope.

(** ** Data model

    The type declarations of [types/search.ts] and of the libraries are not
    among the sources at hand; the records below have the fields that the
    routes file writes and reads. *)

(** An optional string that is truthy: present and not empty. *)
Definition nonempty (o : option string) : option string :=
  match o with
  | Some s => if decide (s = "") then None else Some s
  | None => None
  end.

Definition truthy (o : option string) : bool :=
  bool_decide (is_Some (nonempty o)).

(** The four source kinds that [POST /ask] pushes onto [sourcesNeeded]. *)
Inductive Source := gmail | calendar | linkedin | whatsapp.

#[global] Instance Source_eq_dec : EqDecision Source.
Proof. solve_decision. Defined.

Definition source_name (s : Source) : string :=
  match s with
  | gmail => "gmail"
  | calendar => "calendar"
  | linkedin => "linkedin"
  | whatsapp => "whatsapp"
  end.

(** Modelled from the spec: the status type of [types/search.ts], which is
    not part of the sources at hand.  The handlers write ['pending'],
    ['partial'], ['complete'] and ['failed'] and answer ['processing']. *)
Inductive Status := pending | partial | processing | complete | failed.

#[global] Instance Status_eq_dec : EqDecision Status.
Proof. solve_decision. Defined.

Record SearchHit := {
  hit_id : string;
  hit_source : string;
  hit_content : string;
  hit_metadata : list (string * string);
  hit_relevance : QArith_base.Q;
}.

Record DOMInstruction := {
  instr_request_id : string;
  instr_source : Source;
  instr_keywords : list string;
}.

(** What [synthesizeAnswer] resolves to; only its [answer] text is read. *)
Record Answer := { answer_text : string }.

Record DateRange := { range_start : option string; range_end : option string }.

(** The classifier's verdict, as far as the routes read it. *)
Record QueryAnalysis := {
  needsGmail : bool;
  needsCalendar : bool;
  needsLinkedIn : bool;
  needsWhatsApp : bool;
  linkedInKeywords : option (list string);
  whatsAppKeywords : option (list string);
  calendarDateRange : option DateRange;
}.

Inductive Intent := intent_summary | intent_count | intent_other.

Record GmailQueryPlan := { gmailQuery : string; intent : Intent }.

(** A [results] object.  It is an ordinary JavaScript object used as a map,
    so the key ["__proto__"] is special: assigning an array to it replaces
    the prototype instead of creating an own property, and reading it gives
    the prototype back.  [proto = None] is the initial [Object.prototype]. *)
Record JsResults := {
  own : gmap string (list SearchHit);
  proto : option (list SearchHit);
}.

Definition proto_key : string := "__proto__".

(** [obj[k] = v] for an array [v]. *)
Definition js_set (k : string) (v : list SearchHit) (r : JsResults) : JsResults :=
  if decide (k = proto_key)
  then {| own := own r; proto := Some v |}
  else {| own := <[k := v]> (own r); proto := proto r |}.

(** [obj[k]], for the keys the routes read: a key that was assigned, or one
    of the four source names (no prototype in the chain, be it
    [Object.prototype] or an array of hits, has a member of such a name). *)
Definition js_get (k : string) (r : JsResults) : option (list SearchHit) :=
  if decide (k = proto_key) then proto r else own r !! k.

(** [Object.keys(obj)] as a set. *)
Definition js_keys (r : JsResults) : gset string := dom (own r).

Record PendingSearch := {
  request_id : string;
  user_id : string;
  query : string;
  requires_extension : bool;
  sources_needed : list Source;
  instructions : list DOMInstruction;
  results : JsResults;
  status : Status;
  created_at : Z;
  conversation_id : option string;
  answer : option Answer;
  metadata : QueryAnalysis * option GmailQueryPlan;
}.

Definition with_results (r : JsResults) (p : PendingSearch) : PendingSearch :=
  {| request_id := request_id p; user_id := user_id p; query := query p;
     requires_extension := requires_extension p;
     sources_needed := sources_needed p; instructions := instructions p;
     results := r; status := status p; created_at := created_at p;
     conversation_id := conversation_id p; answer := answer p;
     metadata := metadata p |}.

Definition with_status (st : Status) (p : PendingSearch) : PendingSearch :=
  {| request_id := request_id p; user_id := user_id p; query := query p;
     requires_extension := requires_extension p;
     sources_needed := sources_needed p; instructions := instructions p;
     results := results p; status := st; created_at := created_at p;
     conversation_id := conversation_id p; answer := answer p;
     metadata := metadata p |}.

Definition with_answer (a : Answer) (p : PendingSearch) : PendingSearch :=
  {| request_id := request_id p; user_id := user_id p; query := query p;
     requires_extension := requires_extension p;
     sources_needed := sources_needed p; instructions := instructions p;
     results := results p; status := status p; created_at := created_at p;
     conversation_id := conversation_id p; answer := Some a;
     metadata := metadata p |}.

(** ** The process state *)

(** A background synthesis in flight: the closure holds the entry itself and
    the request id of the submission that started it. *)
Record Task := { task_search : nat; task_request_id : string }.

(** A [setTimeout] that has not fired yet. *)
Record Timer := { timer_due : Z; timer_request_id : string }.

Record State := {
  heap : list PendingSearch;
  pendingSearches : gmap string nat;
  tasks : list Task;
  timers : list Timer;
}.

Definition init : State :=
  {| heap := []; pendingSearches := ∅; tasks := []; timers := [] |}.

(** [pendingSearches.get(requestId)] *)
Definition find_search (s : State) (requestId : string) : option PendingSearch :=
  l ← pendingSearches s !! requestId; heap s !! l.

(** ** Replies *)

Record ErrorBody := {
  error : string;
  code : option string;
  error_request_id : option string;
}.

Inductive Response :=
| ReplyError (http : Z) (body : ErrorBody)
| ReplyPoll (st : Status) (requestId : string) (needed : list Source)
            (ans : option Answer)
| ReplySubmit (st : Status) (requestId : string)
| ReplyPending (requestId : string) (needed : list Source)
               (instrs : list DOMInstruction)
| ReplyComplete (requestId : string) (ans : Answer) (searched : list Source)
                (conversationId : option string).

Definition plain_error (msg : string) : ErrorBody :=
  {| error := msg; code := None; error_request_id := None |}.

Definition not_found : Response := ReplyError 404 (plain_error "Search not found").

Definition not_authorized : Response := ReplyError 403 (plain_error "Not authorized").

(** ** GET /ask/:requestId and GET /ask/:requestId/status *)

Definition poll_response (requestId : string) (p : PendingSearch) : Response :=
  ReplyPoll (status p) requestId (sources_needed p)
    (if decide (status p = complete) then answer p else None).

Definition get_ask (s : State) (userId requestId : string) : Response :=
  match find_search s requestId with
  | None => not_found
  | Some pendingSearch =>
      if decide (user_id pendingSearch ≠ userId) then not_authorized
      else poll_response requestId pendingSearch
  end.

Definition get_ask_status (s : State) (userId requestId : string) : Response :=
  match find_search s requestId with
  | None => not_found
  | Some pendingSearch =>
      if decide (user_id pendingSearch ≠ userId) then not_authorized
      else poll_response requestId pendingSearch
  end.

(** ** POST /ask/:requestId/dom-results *)

Definition normalizeSnippets (source : string) (snippets : list string)
  : list SearchHit :=
  imap (fun index snippet =>
          {| hit_id := source +:+ "-" +:+ pretty index;
             hit_source := source;
             hit_content := snippet;
             hit_metadata := [];
             hit_relevance := QArith_base.Qmake 9 10 |}) snippets.

(** [sources_needed.every(src => results[src] && results[src].length >= 0)] *)
Definition allSourcesComplete (p : PendingSearch) : bool :=
  forallb (fun src =>
             match js_get (source_name src) (results p) with
             | Some hits => bool_decide (0 ≤ Z.of_nat (length hits))
             | None => false
             end) (sources_needed p).

Definition store (l : nat) (p : PendingSearch) (s : State) : State :=
  {| heap := <[l := p]> (heap s); pendingSearches := pendingSearches s;
     tasks := tasks s; timers := timers s |}.

Definition spawn (t : Task) (s : State) : State :=
  {| heap := heap s; pendingSearches := pendingSearches s;
     tasks := tasks s ++ [t]; timers := timers s |}.

Definition dom_results (s : State) (userId requestId source : string)
    (snippets : list string) : State * Response :=
  match pendingSearches s !! requestId with
  | None => (s, not_found)
  | Some l =>
      match heap s !! l with
      | None => (s, not_found)
      | Some pendingSearch =>
          if decide (user_id pendingSearch ≠ userId) then (s, not_authorized)
          else
            let normalizedResults := normalizeSnippets source snippets in
            let written :=
              with_results (js_set source normalizedResults (results pendingSearch))
                           pendingSearch in
            if allSourcesComplete written then
              (spawn {| task_search := l; task_request_id := requestId |}
                     (store l written s),
               ReplySubmit processing requestId)
            else
              (store l (with_status partial written) s,
               ReplySubmit partial requestId)
      end
  end.

(** ** The detached synthesis *)

(** What the awaited calls of one background task do: the conversation
    lookup and update happen only for an entry with a [conversation_id];
    [None] for the synthesizer means that it threw.  [mergeResults] and
    [createUserClient], which the task runs before its first [await], are
    taken not to throw, so that the task never ends inside the call that
    started it. *)
Record TaskEnv := {
  task_lookup_throws : bool;
  task_synthesizeAnswer : option Answer;
  task_update_throws : bool;
}.

Definition task_outcome (p : PendingSearch) (env : TaskEnv) : option Answer :=
  if truthy (conversation_id p) && task_lookup_throws env then None
  else
    match task_synthesizeAnswer env with
    | None => None
    | Some a =>
        if truthy (conversation_id p) && task_update_throws env
        then None else Some a
    end.

Definition drop_task (i : nat) (s : State) : State :=
  {| heap := heap s; pendingSearches := pendingSearches s;
     tasks := delete i (tasks s); timers := timers s |}.

Definition setTimeout (t : Timer) (s : State) : State :=
  {| heap := heap s; pendingSearches := pendingSearches s;
     tasks := tasks s; timers := timers s ++ [t] |}.

(** The [i]-th task in flight runs to its end at time [now]. *)
Definition task_settles (now : Z) (s : State) (i : nat) (env : TaskEnv) : State :=
  match tasks s !! i with
  | None => s
  | Some t =>
      match heap s !! task_search t with
      | None => drop_task i s
      | Some pendingSearch =>
          match task_outcome pendingSearch env with
          | Some a =>
              setTimeout {| timer_due := now + 30000;
                            timer_request_id := task_request_id t |}
                (store (task_search t)
                       (with_status complete (with_answer a pendingSearch))
                       (drop_task i s))
          | None =>
              store (task_search t) (with_status failed pendingSearch)
                    (drop_task i s)
          end
      end
  end.

(** The [i]-th timer fires, which the event loop allows once it is due. *)
Definition timer_fires (now : Z) (s : State) (i : nat) : State :=
  match timers s !! i with
  | None => s
  | Some t =>
      if bool_decide (timer_due t ≤ now) then
        {| heap := heap s;
           pendingSearches := delete (timer_request_id t) (pendingSearches s);
           tasks := tasks s; timers := delete i (timers s) |}
      else s
  end.

(** ** The collaborators of POST /ask

    Everything the handler awaits is outside the routes file.  One request
    runs against an [AskEnv] that says what each collaborator returns; the
    calls the handler makes are recorded, in order, in a trace. *)

(** A thrown value, as far as the handler inspects it: the four places in
    which it looks for a 401.  A field that is absent, or that is no number,
    is [None]: [=== 401] is false for it. *)
Record JsError := {
  err_code : option Z;
  err_status : option Z;
  err_response_status : option Z;
  err_response_data_error_code : option Z;
}.

Definition plain_js_error : JsError :=
  {| err_code := None; err_status := None; err_response_status := None;
     err_response_data_error_code := None |}.

Inductive Outcome (A : Type) :=
| Returns (a : A)
| Throws (e : JsError).

Arguments Returns {A} a.

Arguments Throws {A} e.

(** [new Date(token_expires_at)]: a time in milliseconds, or the invalid
    date that an unparsable string gives. *)
Inductive Timestamp := InvalidDate | Instant (ms : Z).

Record Tokens := { access_token : string; refresh_token : string }.

Record Connection := {
  stored_access_token : string;
  stored_refresh_token : string;
  token_expires_at : option Timestamp;
}.

Record Message := {
  role : string;
  content : string;
  message_metadata : option (QueryAnalysis * option GmailQueryPlan);
}.

Record Conversation := {
  conversation_key : string;
  updated_at : Z;
  messages : list Message;
}.

Record FeatureFlags := { enableAsyncMode : bool }.

(** The object [filterAnalysisByFlags] returns, spread over the raw analysis:
    a field it carries replaces the raw one. *)
Record AnalysisPatch := {
  patch_needsGmail : option bool;
  patch_needsCalendar : option bool;
  patch_needsLinkedIn : option bool;
  patch_needsWhatsApp : option bool;
  patch_linkedInKeywords : option (option (list string));
  patch_whatsAppKeywords : option (option (list string));
  patch_calendarDateRange : option (option DateRange);
}.

Definition spread (raw : QueryAnalysis) (p : AnalysisPatch) : QueryAnalysis :=
  {| needsGmail := default (needsGmail raw) (patch_needsGmail p);
     needsCalendar := default (needsCalendar raw) (patch_needsCalendar p);
     needsLinkedIn := default (needsLinkedIn raw) (patch_needsLinkedIn p);
     needsWhatsApp := default (needsWhatsApp raw) (patch_needsWhatsApp p);
     linkedInKeywords := default (linkedInKeywords raw) (patch_linkedInKeywords p);
     whatsAppKeywords := default (whatsAppKeywords raw) (patch_whatsAppKeywords p);
     calendarDateRange := default (calendarDateRange raw) (patch_calendarDateRange p) |}.

Record GmailMessage := { gmail_message_id : string; gmail_snippet : string }.

Record CalendarEvent := { calendar_event_id : string; calendar_summary : string }.

Inductive Call :=
| LogInfo (msg : string)
| LogError (msg : string)
| DeleteExpiredConversations (userId : string) (before : Z)
| SelectConversation (conversationId : string)
| InsertConversation (userId : string)
| InsertUsageEvent (userId : string)
| SelectConnection (userId : string)
| DecryptTokens (stored : Tokens)
| RefreshAccessToken (refreshToken : string)
| UpdateConnection (userId : string) (accessToken : string)
| GetFeatureFlags (userId : string)
| AnalyzeQuery (q : string)
| PlanGmailQuery (q : string)
| SearchGmail (accessToken : string) (q : string) (maxResults : Z)
| GetCalendarEvents (accessToken : string) (startDate endDate : option string)
| SynthesizeAnswer (q : string) (hits : list SearchHit)
| UpdateConversation (conversationId : string).

Definition is_refresh (c : Call) : bool :=
  match c with RefreshAccessToken _ => true | _ => false end.

Definition is_update_connection (c : Call) : bool :=
  match c with UpdateConnection _ _ => true | _ => false end.

Definition is_search_gmail (c : Call) : bool :=
  match c with SearchGmail _ _ _ => true | _ => false end.

Definition is_get_calendar (c : Call) : bool :=
  match c with GetCalendarEvents _ _ _ => true | _ => false end.

Definition is_synthesize (c : Call) : bool :=
  match c with SynthesizeAnswer _ _ => true | _ => false end.

(** The calls of one kind in a trace, in order, and how many they are. *)
Fixpoint calls (f : Call → bool) (t : list Call) : list Call :=
  match t with
  | [] => []
  | c :: rest => if f c then c :: calls f rest else calls f rest
  end.

Definition count (f : Call → bool) (t : list Call) : nat := length (calls f t).

(** What the collaborators answer during one request.  [None] or [Throws]
    stands for a call that throws, or for a supabase result without data.
    A collaborator called more than once per request ([refreshAccessToken],
    [searchGmail], [getCalendarEvents], the update of the stored token, which
    is [encrypt] followed by the supabase update) answers by the number of
    calls made to it before, and by its arguments.  The three [now_] fields
    are the readings of the clock before the outer [try]. *)
Record AskEnv := {
  zod_uuid : string → bool;
  randomUUID : string;
  now_conversations : Z;
  now_conversation_check : Z;
  now_token_check : Z;
  selectConversation : option Conversation;
  insertConversation : option string;
  insertUsageEvent_error : bool;
  selectConnection : option Connection;
  decryptTokens : Tokens → option Tokens;
  refreshAccessToken : nat → string → Outcome string;
  supabaseAdmin : bool;
  updateConnection_throws : nat → option JsError;
  getFeatureFlags : Outcome FeatureFlags;
  analyzeQuery : Outcome QueryAnalysis;
  filterAnalysisByFlags : QueryAnalysis → FeatureFlags → AnalysisPatch;
  planGmailQuery : Outcome GmailQueryPlan;
  searchGmail : nat → string → string → Z → Outcome (list GmailMessage);
  getCalendarEvents :
    nat → string → option string → option string → Outcome (list CalendarEvent);
  normalizeGmailResults : list GmailMessage → list SearchHit;
  normalizeCalendarResults : list CalendarEvent → list SearchHit;
  mergeResults : list SearchHit → list SearchHit;
  synthesizeAnswer : string → list SearchHit → list Message → Outcome Answer;
  updateConversation_throws : option JsError;
}.

(** ** The handler's mutable locals and its monad

    [accessToken], [results], [sourcesNeeded], [domInstructions] and
    [gmailPlan] are [let]/[const] bindings that the nested [try] blocks
    mutate; what was written before a [throw] stays written. *)
Record Locals := {
  trace : list Call;
  accessToken : string;
  sync_results : list SearchHit;
  sourcesNeeded : list Source;
  domInstructions : list DOMInstruction;
  gmailPlan : option GmailQueryPlan;
}.

Definition M (A : Type) : Type := Locals → Outcome A * Locals.

Definition ret {A} (a : A) : M A := fun l => (Returns a, l).

Definition throw {A} (e : JsError) : M A := fun l => (Throws e, l).

Definition bind {A B} (m : M A) (k : A → M B) : M B :=
  fun l => match m l with
           | (Returns a, l') => k a l'
           | (Throws e, l') => (Throws e, l')
           end.

Definition try_catch {A} (m : M A) (handler : JsError → M A) : M A :=
  fun l => match m l with
           | (Returns a, l') => (Returns a, l')
           | (Throws e, l') => handler e l'
           end.

Notation "'let*' x ':=' m 'in' k" := (bind m (fun x => k))
  (at level 10, x name, m at level 100, k at level 200).

Notation "m ';;' k" := (bind m (fun _ => k))
  (at level 100, k at level 200, right associativity).

Definition lift {A} (o : Outcome A) : M A := fun l => (o, l).

Definition emit (c : Call) : M unit :=
  fun l => (Returns tt,
            {| trace := trace l ++ [c]; accessToken := accessToken l;
               sync_results := sync_results l; sourcesNeeded := sourcesNeeded l;
               domInstructions := domInstructions l; gmailPlan := gmailPlan l |}).

Definition calls_so_far (f : Call → bool) : M nat :=
  fun l => (Returns (count f (trace l)), l).

Definition get_locals : M Locals := fun l => (Returns l, l).

Definition set_accessToken (t : string) : M unit :=
  fun l => (Returns tt,
            {| trace := trace l; accessToken := t;
               sync_results := sync_results l; sourcesNeeded := sourcesNeeded l;
               domInstructions := domInstructions l; gmailPlan := gmailPlan l |}).

Definition push_results (hits : list SearchHit) : M unit :=
  fun l => (Returns tt,
            {| trace := trace l; accessToken := accessToken l;
               sync_results := sync_results l ++ hits;
               sourcesNeeded := sourcesNeeded l;
               domInstructions := domInstructions l; gmailPlan := gmailPlan l |}).

Definition push_sourcesNeeded (src : Source) : M unit :=
  fun l => (Returns tt,
            {| trace := trace l; accessToken := accessToken l;
               sync_results := sync_results l;
               sourcesNeeded := sourcesNeeded l ++ [src];
               domInstructions := domInstructions l; gmailPlan := gmailPlan l |}).

Definition push_domInstructions (i : DOMInstruction) : M unit :=
  fun l => (Returns tt,
            {| trace := trace l; accessToken := accessToken l;
               sync_results := sync_results l; sourcesNeeded := sourcesNeeded l;
               domInstructions := domInstructions l ++ [i];
               gmailPlan := gmailPlan l |}).

Definition set_gmailPlan (p : GmailQueryPlan) : M unit :=
  fun l => (Returns tt,
            {| trace := trace l; accessToken := accessToken l;
               sync_results := sync_results l; sourcesNeeded := sourcesNeeded l;
               domInstructions := domInstructions l; gmailPlan := Some p |}).

Definition when (b : bool) (m : M unit) : M unit := if b then m else ret tt.

(** ** Credential refresh *)

Definition call_refreshAccessToken (env : AskEnv) (refreshToken : string)
  : M string :=
  let* k := calls_so_far is_refresh in
  emit (RefreshAccessToken refreshToken);;
  lift (refreshAccessToken env k refreshToken).

Definition call_updateConnection (env : AskEnv) (userId token : string)
  : M unit :=
  let* k := calls_so_far is_update_connection in
  emit (UpdateConnection userId token);;
  match updateConnection_throws env k with
  | Some e => throw e
  | None => ret tt
  end.

Definition refreshAndUpdateToken (env : AskEnv) (userId refreshToken : string)
  : M string :=
  emit (LogInfo "Refreshing Google access token");;
  try_catch
    (let* newToken := call_refreshAccessToken env refreshToken in
     if decide (newToken = "") then throw plain_js_error
     else
       when (supabaseAdmin env) (call_updateConnection env userId newToken);;
       ret newToken)
    (fun error =>
       emit (LogError "Failed to refresh Google token");;
       throw error).

(** [!tokenExpiry || tokenExpiry < new Date()]; an invalid date compares
    false with everything. *)
Definition needs_refresh (expiry : option Timestamp) (now : Z) : bool :=
  match expiry with
  | None => true
  | Some InvalidDate => false
  | Some (Instant t) => bool_decide (t < now)
  end.

(** ** The synchronous fetches *)

Definition isUnauthorized (error : JsError) : bool :=
  bool_decide (err_code error = Some 401)
  || bool_decide (err_status error = Some 401)
  || bool_decide (err_response_status error = Some 401)
  || bool_decide (err_response_data_error_code error = Some 401).

Definition call_searchGmail (env : AskEnv) (token q : string) (maxResults : Z)
  : M (list GmailMessage) :=
  let* k := calls_so_far is_search_gmail in
  emit (SearchGmail token q maxResults);;
  lift (searchGmail env k token q maxResults).

Definition call_getCalendarEvents (env : AskEnv) (token : string)
    (startDate endDate : option string) : M (list CalendarEvent) :=
  let* k := calls_so_far is_get_calendar in
  emit (GetCalendarEvents token startDate endDate);;
  lift (getCalendarEvents env k token startDate endDate).

Definition current_accessToken : M string :=
  fun l => (Returns (accessToken l), l).

(** [intent === 'summary' || intent === 'count' ? 20 : 10] *)
Definition maxResults_for (plan : GmailQueryPlan) : Z :=
  match intent plan with
  | intent_summary | intent_count => 20
  | intent_other => 10
  end.

(** Step 2 of the handler, the body of [if (analysis.needsGmail)]. *)
Definition fetch_gmail (env : AskEnv) (userId refreshToken q : string)
  : M unit :=
  push_sourcesNeeded gmail;;
  try_catch
    (let* plan := (emit (PlanGmailQuery q);; lift (planGmailQuery env)) in
     set_gmailPlan plan;;
     emit (LogInfo "Gmail query planned");;
     let maxResults := maxResults_for plan in
     let* gmailResults :=
       try_catch
         (let* token := current_accessToken in
          call_searchGmail env token (gmailQuery plan) maxResults)
         (fun error =>
            if isUnauthorized error then
              emit (LogInfo "Gmail API returned 401, refreshing token and retrying");;
              try_catch
                (let* fresh := refreshAndUpdateToken env userId refreshToken in
                 set_accessToken fresh;;
                 let* token := current_accessToken in
                 call_searchGmail env token (gmailQuery plan) maxResults)
                (fun refreshError =>
                   emit (LogError "Failed to refresh token after 401");;
                   throw refreshError)
            else throw error) in
     emit (LogInfo "Gmail search complete");;
     push_results (normalizeGmailResults env gmailResults))
    (fun error => emit (LogError "Gmail search failed")).

(** [calendarDateRange?.start ? new Date(start) : undefined], and the end. *)
Definition calendar_start (analysis : QueryAnalysis) : option string :=
  r ← calendarDateRange analysis; nonempty (range_start r).

Definition calendar_end (analysis : QueryAnalysis) : option string :=
  r ← calendarDateRange analysis; nonempty (range_end r).

(** Step 3 of the handler, the body of [if (analysis.needsCalendar)]. *)
Definition fetch_calendar (env : AskEnv) (userId refreshToken : string)
    (analysis : QueryAnalysis) : M unit :=
  push_sourcesNeeded calendar;;
  try_catch
    (let startDate := calendar_start analysis in
     let endDate := calendar_end analysis in
     let* calendarResults :=
       try_catch
         (let* token := current_accessToken in
          call_getCalendarEvents env token startDate endDate)
         (fun error =>
            if isUnauthorized error then
              emit (LogInfo "Calendar API returned 401, refreshing token and retrying");;
              try_catch
                (let* fresh := refreshAndUpdateToken env userId refreshToken in
                 set_accessToken fresh;;
                 let* token := current_accessToken in
                 call_getCalendarEvents env token startDate endDate)
                (fun refreshError =>
                   emit (LogError "Failed to refresh token after 401");;
                   throw refreshError)
            else throw error) in
     emit (LogInfo "Calendar fetch complete");;
     push_results (normalizeCalendarResults env calendarResults))
    (fun error => emit (LogError "Calendar fetch failed")).

(** ** Registration and the lazy sweep *)

(** [search.created_at.getTime() < fiveMinutesAgo], for the entry at [l]. *)
Definition expired (h : list PendingSearch) (fiveMinutesAgo : Z) (l : nat) : bool :=
  match h !! l with
  | Some search => bool_decide (created_at search < fiveMinutesAgo)
  | None => false
  end.

(** The loop over [pendingSearches] that deletes what is too old. *)
Definition sweep (now : Z) (s : State) : State :=
  let fiveMinutesAgo := now - 5 * 60 * 1000 in
  {| heap := heap s;
     pendingSearches :=
       filter (fun kv => expired (heap s) fiveMinutesAgo kv.2 = false)
              (pendingSearches s);
     tasks := tasks s; timers := timers s |}.

(** [pendingSearches.set(requestId, pendingSearch)] for a new object. *)
Definition register (requestId : string) (p : PendingSearch) (s : State) : State :=
  {| heap := heap s ++ [p];
     pendingSearches := <[requestId := length (heap s)]> (pendingSearches s);
     tasks := tasks s; timers := timers s |}.

Definition from_source (src : Source) (r : SearchHit) : bool :=
  bool_decide (hit_source r = source_name src).

Definition seeded_results (hits : list SearchHit) : JsResults :=
  {| own := <[ "gmail" := filter (fun r => from_source gmail r) hits ]>
            (<[ "calendar" := filter (fun r => from_source calendar r) hits ]> ∅);
     proto := None |}.

Definition has_length (keywords : option (list string)) : bool :=
  match keywords with
  | Some (_ :: _) => true
  | _ => false
  end.

Definition is_extension_source (s : Source) : bool :=
  match s with linkedin | whatsapp => true | _ => false end.

Definition is_sync_source (s : Source) : bool :=
  match s with gmail | calendar => true | _ => false end.

(** ** POST /ask *)

Record AuthenticatedRequest := { userId : string; jwt : string }.

Record AskBody := { body_query : string; body_conversationId : option string }.

(** A string of the model stands for a JavaScript string through its UTF-8
    encoding, which is how string literals are written here.  The [length]
    of the JavaScript string is its number of UTF-16 code units: a code
    point below U+10000 (one to three bytes) is one unit, one above (four
    bytes) is two.  So a byte that opens a sequence of up to three bytes
    counts for one, a byte that opens a sequence of four for two, and a
    continuation byte for none. *)
Definition utf16_units (b : Ascii.ascii) : nat :=
  let n := Ascii.N_of_ascii b in
  if (n <? 128)%N then 1%nat
  else if (n <? 192)%N then 0%nat
  else if (n <? 240)%N then 1%nat
  else 2%nat.

Fixpoint utf16_length (s : string) : nat :=
  match s with
  | EmptyString => 0%nat
  | String b rest => (utf16_units b + utf16_length rest)%nat
  end.

(** [askRequestSchema.safeParse]: a query whose [length] is from 1 to 1000
    and, when given, a conversation id that zod takes for a UUID.  (The
    issues that zod reports are left out of the 400 reply.) *)
Definition valid_body (env : AskEnv) (body : AskBody) : bool :=
  bool_decide (1 ≤ Z.of_nat (utf16_length (body_query body)) ≤ 1000)
  && match body_conversationId body with
     | Some c => zod_uuid env c
     | None => true
     end.

Definition coded_error (msg c : string) : ErrorBody :=
  {| error := msg; code := Some c; error_request_id := None |}.

(** Steps 2 to 4: the synchronous fetches, then the instructions for the
    extension sources that have keywords. *)
Definition gather (env : AskEnv) (auth : AuthenticatedRequest)
    (refreshToken q requestId : string) (featureFlags : FeatureFlags)
    (analysis : QueryAnalysis) : M unit :=
  when (needsGmail analysis) (fetch_gmail env (userId auth) refreshToken q);;
  when (needsCalendar analysis)
       (fetch_calendar env (userId auth) refreshToken analysis);;
  when (needsLinkedIn analysis && has_length (linkedInKeywords analysis))
       (push_sourcesNeeded linkedin;;
        push_domInstructions
          {| instr_request_id := requestId; instr_source := linkedin;
             instr_keywords := default [] (linkedInKeywords analysis) |});;
  when (needsWhatsApp analysis && has_length (whatsAppKeywords analysis))
       (push_sourcesNeeded whatsapp;;
        push_domInstructions
          {| instr_request_id := requestId; instr_source := whatsapp;
             instr_keywords := default [] (whatsAppKeywords analysis) |});;
  when (negb (enableAsyncMode featureFlags)
        && (needsLinkedIn analysis || needsWhatsApp analysis))
       (emit (LogInfo "Async mode disabled - returning sync response with Gmail/Calendar only")).

(** The entry that the handler stores when the extension is needed.  The
    [new Date()] of [created_at] and the [Date.now()] of the sweep are read
    in one synchronous block: they are the one instant [now]. *)
Definition new_pending (auth : AuthenticatedRequest) (q requestId : string)
    (now : Z) (currentConversationId : option string)
    (analysis : QueryAnalysis) (vars : Locals) : PendingSearch :=
  {| request_id := requestId;
     user_id := userId auth;
     query := q;
     requires_extension := true;
     sources_needed := sourcesNeeded vars;
     instructions := domInstructions vars;
     results := seeded_results (sync_results vars);
     status := pending;
     created_at := now;
     conversation_id := nonempty currentConversationId;
     answer := None;
     metadata := (analysis, gmailPlan vars) |}.

(** The body of [if (needsExtension)]: store, sweep, answer ['pending']. *)
Definition register_pending (now : Z) (s : State) (auth : AuthenticatedRequest)
    (q requestId : string) (currentConversationId : option string)
    (analysis : QueryAnalysis) : M (State * Response) :=
  let* vars := get_locals in
  let pendingSearch :=
    new_pending auth q requestId now currentConversationId analysis vars in
  ret (sweep now (register requestId pendingSearch s),
       ReplyPending requestId
         (filter (fun src => is_extension_source src) (sourcesNeeded vars))
         (domInstructions vars)).

(** Step 5: the synchronous answer. *)
Definition synthesize_reply (env : AskEnv) (s : State) (q requestId : string)
    (conversationHistory : list Message) (currentConversationId : option string)
  : M (State * Response) :=
  let* vars := get_locals in
  let actualSourcesSearched :=
    filter (fun src => is_sync_source src) (sourcesNeeded vars) in
  let mergedResults := mergeResults env (sync_results vars) in
  emit (LogInfo "Synthesizing answer");;
  let* ans := (emit (SynthesizeAnswer q mergedResults);;
               lift (synthesizeAnswer env q mergedResults conversationHistory)) in
  match nonempty currentConversationId with
  | Some c =>
      emit (UpdateConversation c);;
      match updateConversation_throws env with
      | Some e => throw e
      | None => ret tt
      end
  | None => ret tt
  end;;
  ret (s, ReplyComplete requestId ans actualSourcesSearched currentConversationId).

(** Steps 0 to 5, the body of the handler's outer [try]. *)
Definition process_query (env : AskEnv) (now : Z) (s : State)
    (auth : AuthenticatedRequest) (refreshToken q requestId : string)
    (conversationHistory : list Message) (currentConversationId : option string)
  : M (State * Response) :=
  let* featureFlags := (emit (GetFeatureFlags (userId auth));;
                        lift (getFeatureFlags env)) in
  emit (LogInfo "Feature flags loaded");;
  emit (LogInfo "Analyzing query");;
  let* rawAnalysis := (emit (AnalyzeQuery q);; lift (analyzeQuery env)) in
  let analysis :=
    spread rawAnalysis (filterAnalysisByFlags env rawAnalysis featureFlags) in
  emit (LogInfo "Query analysis complete");;
  let needsExtension :=
    enableAsyncMode featureFlags
    && (needsLinkedIn analysis || needsWhatsApp analysis) in
  gather env auth refreshToken q requestId featureFlags analysis;;
  if needsExtension
  then register_pending now s auth q requestId currentConversationId analysis
  else synthesize_reply env s q requestId conversationHistory currentConversationId.

(** The conversation to continue, if any, and the id of the current one. *)
Definition load_conversation (env : AskEnv) (auth : AuthenticatedRequest)
    (conversationId : option string) : M (list Message * option string) :=
  emit (DeleteExpiredConversations (userId auth)
          (now_conversations env - 10 * 60 * 1000));;
  let* loaded :=
    match nonempty conversationId with
    | Some c =>
        emit (SelectConversation c);;
        match selectConversation env with
        | Some conversation =>
            if bool_decide (updated_at conversation
                            < now_conversation_check env - 10 * 60 * 1000)
            then ret ([], None)
            else ret (messages conversation, conversationId)
        | None => ret ([], None)
        end
    | None => ret ([], conversationId)
    end in
  if truthy loaded.2 then ret loaded
  else
    emit (InsertConversation (userId auth));;
    match insertConversation env with
    | Some newId => ret (loaded.1, Some newId)
    | None => ret loaded
    end.

(** [// Check if token needs refresh]: [false] when the refresh that was due
    failed, [true] when [accessToken] can be used. *)
Definition proactive_refresh (env : AskEnv) (auth : AuthenticatedRequest)
    (googleConnection : Connection) (decryptedTokens : Tokens) : M bool :=
  set_accessToken (access_token decryptedTokens);;
  if needs_refresh (token_expires_at googleConnection) (now_token_check env)
  then
    try_catch
      (let* fresh := refreshAndUpdateToken env (userId auth)
                       (refresh_token decryptedTokens) in
       set_accessToken fresh;;
       ret true)
      (fun error => ret false)
  else ret true.

(** What the handler has in hand when it enters its outer [try]. *)
Record Checked := {
  conversationHistory : list Message;
  currentConversationId : option string;
  decryptedTokens : Tokens;
}.

(** Everything before the outer [try]: an early reply, or the context. *)
Definition prelude (env : AskEnv) (auth : AuthenticatedRequest) (body : AskBody)
  : M (Response + Checked) :=
  if negb (valid_body env body)
  then ret (inl (ReplyError 400 (plain_error "Invalid request body")))
  else
    let* conv := load_conversation env auth (body_conversationId body) in
    emit (InsertUsageEvent (userId auth));;
    when (insertUsageEvent_error env)
         (emit (LogError "Failed to insert usage event"));;
    emit (SelectConnection (userId auth));;
    match selectConnection env with
    | None =>
        ret (inl (ReplyError 400
                    (coded_error "Google account not connected"
                                 "GOOGLE_NOT_CONNECTED")))
    | Some googleConnection =>
        let stored := {| access_token := stored_access_token googleConnection;
                         refresh_token := stored_refresh_token googleConnection |} in
        emit (DecryptTokens stored);;
        match decryptTokens env stored with
        | None =>
            emit (LogError "Failed to decrypt tokens");;
            ret (inl (ReplyError 500
                        (coded_error
                           "Failed to decrypt stored tokens. Please reconnect your account."
                           "DECRYPTION_FAILED")))
        | Some tokens =>
            let* usable := proactive_refresh env auth googleConnection tokens in
            if usable
            then ret (inr {| conversationHistory := conv.1;
                             currentConversationId := conv.2;
                             decryptedTokens := tokens |})
            else ret (inl (ReplyError 400
                             (coded_error
                                "Failed to refresh Google token. Please reconnect your account."
                                "TOKEN_REFRESH_FAILED")))
        end
    end.

Definition processing_failed (requestId : string) : Response :=
  ReplyError 500 {| error := "Failed to process query"; code := None;
                    error_request_id := Some requestId |}.

Definition ask_handler (env : AskEnv) (now : Z) (s : State)
    (auth : AuthenticatedRequest) (body : AskBody) : M (State * Response) :=
  let* checked := prelude env auth body in
  match checked with
  | inl reply => ret (s, reply)
  | inr ctx =>
      try_catch
        (process_query env now s auth (refresh_token (decryptedTokens ctx))
                       (body_query body) (randomUUID env)
                       (conversationHistory ctx) (currentConversationId ctx))
        (fun error =>
           emit (LogError "Ask processing failed");;
           ret (s, processing_failed (randomUUID env)))
  end.

Definition no_locals : Locals :=
  {| trace := []; accessToken := ""; sync_results := []; sourcesNeeded := [];
     domInstructions := []; gmailPlan := None |}.

(** One run of [POST /ask]: the new state, the reply and the calls made.  An
    exception that escapes the handler is the framework's own 500. *)
Definition post_ask (env : AskEnv) (now : Z) (s : State)
    (auth : AuthenticatedRequest) (body : AskBody)
  : State * Response * list Call :=
  match ask_handler env now s auth body no_locals with
  | (Returns (s', r), l) => (s', r, trace l)
  | (Throws e, l) =>
      (s, ReplyError 500 (plain_error "Internal Server Error"), trace l)
  end.

(** ** The system as a whole *)

Inductive Event :=
| PostAsk (auth : AuthenticatedRequest) (body : AskBody) (env : AskEnv)
| GetAsk (caller requestId : string)
| GetAskStatus (caller requestId : string)
| PostDomResults (caller requestId source : string) (snippets : list string)
| TaskSettles (i : nat) (env : TaskEnv)
| TimerFires (i : nat).

(** One event at wall-clock time [now].  For [POST /ask], [now] is the time
    of the block that creates the entry and sweeps; the earlier readings of
    the clock come from the environment. *)
Definition step (now : Z) (s : State) (e : Event) : State * option Response :=
  match e with
  | PostAsk auth body env =>
      let '(s', r, _) := post_ask env now s auth body in (s', Some r)
  | GetAsk caller requestId => (s, Some (get_ask s caller requestId))
  | GetAskStatus caller requestId => (s, Some (get_ask_status s caller requestId))
  | PostDomResults caller requestId source snippets =>
      let '(s', r) := dom_results s caller requestId source snippets in
      (s', Some r)
  | TaskSettles i env => (task_settles now s i env, None)
  | TimerFires i => (timer_fires now s i, None)
  end.

Fixpoint run (s : State) (evs : list (Z * Event)) : State :=
  match evs with
  | [] => s
  | (now, e) :: rest => run (step now s e).1 rest
  end.

Definition reachable (s : State) : Prop := ∃ evs, s = run init evs.

(** ** Notions used in the statements *)

(** The entry that a registration creates for request [requestId]. *)
Definition fresh_entry (requestId owner : string) (now : Z) (p : PendingSearch)
  : Prop :=
  request_id p = requestId ∧ user_id p = owner ∧ status p = pending
  ∧ answer p = None ∧ created_at p = now
  ∧ ∃ hits, results p = seeded_results hits.

(** Is [r] the ['pending'] reply of a registration? *)
Definition is_pending_reply (r : Response) : bool :=
  match r with ReplyPending _ _ _ => true | _ => false end.

(** The order in which the statuses are meant to follow each other; the two
    final ones share the last place. *)
Definition rank (st : Status) : nat :=
  match st with
  | pending => 0
  | partial => 1
  | processing => 2
  | complete | failed => 3
  end.

(** What holds of every state the process can be in: a registered id leads
    to an entry with that id; a task in flight holds an entry whose needed
    sources are all present; no entry is stored as ['processing'], a
    ['complete'] one has an answer, and a final status is only ever written
    to an entry whose needed sources are all present. *)
Record consistent (s : State) : Prop := {
  registry_sound : ∀ r l, pendingSearches s !! r = Some l →
                          ∃ p, heap s !! l = Some p ∧ request_id p = r;
  tasks_sound : ∀ t, t ∈ tasks s →
                     ∃ p, heap s !! task_search t = Some p
                          ∧ allSourcesComplete p = true;
  entries_sound : ∀ l p, heap s !! l = Some p →
                         status p ≠ processing
                         ∧ (status p = complete → is_Some (answer p))
                         ∧ ((2 ≤ rank (status p))%nat → allSourcesComplete p = true);
}.

(** [sources_needed] as a set of keys. *)
Definition needed_names (p : PendingSearch) : gset string :=
  list_to_set (source_name <$> sources_needed p).

(** The keys that a registration gives [results]. *)
Definition seeded_keys : gset string := {[ "gmail"; "calendar" ]}.

(** The source that an event submits for request [requestId], if any. *)
Definition submitted_by (requestId : string) (e : Event) : gset string :=
  match e with
  | PostDomResults _ r source _ =>
      if decide (r = requestId) then {[ source ]} else ∅
  | _ => ∅
  end.

(** All sources submitted for request [requestId] in the course of [evs]. *)
Fixpoint submitted (requestId : string) (evs : list (Z * Event)) : gset string :=
  match evs with
  | [] => ∅
  | (_, e) :: rest => submitted_by requestId e ∪ submitted requestId rest
  end.

(** Every entry has the seeded keys and, beyond them, only keys from [X]. *)
Definition keys_within (X : string → gset string) (s : State) : Prop :=
  ∀ l p, heap s !! l = Some p →
         seeded_keys ⊆ js_keys (results p)
         ∧ js_keys (results p) ⊆ seeded_keys ∪ X (request_id p).

(** The locals [l] after more calls: only the trace differs. *)
Definition with_trace (t : list Call) (l : Locals) : Locals :=
  {| trace := t; accessToken := accessToken l; sync_results := sync_results l;
     sourcesNeeded := sourcesNeeded l; domInstructions := domInstructions l;
     gmailPlan := gmailPlan l |}.

(** The token that the [r]-th refresh of a request yields, when the update
    of the stored connection is the [u]-th: none if the provider call throws
    or returns no access token, or if storing the new token throws. *)
Definition refreshed_token (env : AskEnv) (r u : nat) (refreshToken : string)
  : option string :=
  match refreshAccessToken env r refreshToken with
  | Throws _ => None
  | Returns t =>
      if decide (t = "") then None
      else if supabaseAdmin env
           then match updateConnection_throws env u with
                | Some _ => None
                | None => Some t
                end
           else Some t
  end.

(** What one synchronous fetch may do between the locals [l] it starts from
    and the locals [l'] it ends with.  [fetch k token] is what the provider
    answers to the [k]-th call, [the_call token] the record of such a call.
    A first answer is used as it is.  An error that is not a 401 ends the
    fetch.  A 401 is followed by one refresh; if that yields a token the
    call is made once more with it and its answer or error is final; if it
    yields none the call is not made again.  Hits are added only for an
    answer. *)
Definition retry_once_policy {A} (env : AskEnv) (refreshToken : string)
    (is_call : Call → bool) (the_call : string → Call)
    (fetch : nat → string → Outcome A) (normalize : A → list SearchHit)
    (l l' : Locals) : Prop :=
  let k := count is_call (trace l) in
  let r := count is_refresh (trace l) in
  let u := count is_update_connection (trace l) in
  let token := accessToken l in
  match fetch k token with
  | Returns a =>
      calls is_refresh (trace l') = calls is_refresh (trace l)
      ∧ calls is_call (trace l') = (calls is_call (trace l) ++ [the_call token])%list
      ∧ accessToken l' = token
      ∧ sync_results l' = (sync_results l ++ normalize a)%list
  | Throws e =>
      if isUnauthorized e then
        calls is_refresh (trace l')
        = (calls is_refresh (trace l) ++ [RefreshAccessToken refreshToken])%list
        ∧ match refreshed_token env r u refreshToken with
          | Some fresh =>
              calls is_call (trace l')
              = (calls is_call (trace l) ++ [the_call token; the_call fresh])%list
              ∧ accessToken l' = fresh
              ∧ sync_results l'
                = (sync_results l
                   ++ match fetch (S k) fresh with
                      | Returns a => normalize a
                      | Throws _ => []
                      end)%list
          | None =>
              calls is_call (trace l')
              = (calls is_call (trace l) ++ [the_call token])%list
              ∧ accessToken l' = token
              ∧ sync_results l' = sync_results l
          end
      else
        calls is_refresh (trace l') = calls is_refresh (trace l)
        ∧ calls is_call (trace l') = (calls is_call (trace l) ++ [the_call token])%list
        ∧ accessToken l' = token
        ∧ sync_results l' = sync_results l
  end.

(** A fetch that does not get as far as calling the provider. *)
Definition no_fetch (is_call : Call → bool) (l l' : Locals) : Prop :=
  calls is_refresh (trace l') = calls is_refresh (trace l)
  ∧ calls is_call (trace l') = calls is_call (trace l)
  ∧ accessToken l' = accessToken l
  ∧ sync_results l' = sync_results l.

(** Between [l] and [l'] no provider was asked for a token, for mail, for
    events or for an answer, and the handler's variables are as they were. *)
Definition quiet (l l' : Locals) : Prop :=
  calls is_refresh (trace l') = calls is_refresh (trace l)
  ∧ calls is_update_connection (trace l') = calls is_update_connection (trace l)
  ∧ calls is_search_gmail (trace l') = calls is_search_gmail (trace l)
  ∧ calls is_get_calendar (trace l') = calls is_get_calendar (trace l)
  ∧ calls is_synthesize (trace l') = calls is_synthesize (trace l)
  ∧ accessToken l' = accessToken l
  ∧ sync_results l' = sync_results l
  ∧ sourcesNeeded l' = sourcesNeeded l
  ∧ domInstructions l' = domInstructions l.

(** The reply of [POST /ask] when the refresh that was due failed. *)
Definition token_refresh_failed : Response :=
  ReplyError 400
    (coded_error "Failed to refresh Google token. Please reconnect your account."
                 "TOKEN_REFRESH_FAILED").

(** The encrypted pair that [decryptTokens] is given. *)
Definition stored_tokens (c : Connection) : Tokens :=
  {| access_token := stored_access_token c;
     refresh_token := stored_refresh_token c |}.

(** Hits that came from a search that returned, or no hits at all. *)
Definition gmail_yield (env : AskEnv) (g : list SearchHit) : Prop :=
  g = [] ∨ ∃ k token q m msgs,
             searchGmail env k token q m = Returns msgs
             ∧ g = normalizeGmailResults env msgs.

(** Hits that came from a calendar call that returned, or no hits. *)
Definition calendar_yield (env : AskEnv) (c : list SearchHit) : Prop :=
  c = [] ∨ ∃ k token st en events,
             getCalendarEvents env k token st en = Returns events
             ∧ c = normalizeCalendarResults env events.

(** What steps 2 to 4 push onto [sourcesNeeded] and [domInstructions]. *)
Definition sources_for (a : QueryAnalysis) : list Source :=
  ((if needsGmail a then [gmail] else [])
   ++ (if needsCalendar a then [calendar] else [])
   ++ (if needsLinkedIn a && has_length (linkedInKeywords a) then [linkedin] else [])
   ++ (if needsWhatsApp a && has_length (whatsAppKeywords a) then [whatsapp] else []))%list.

Definition instructions_for (requestId : string) (a : QueryAnalysis)
  : list DOMInstruction :=
  ((if needsLinkedIn a && has_length (linkedInKeywords a)
    then [{| instr_request_id := requestId; instr_source := linkedin;
             instr_keywords := default [] (linkedInKeywords a) |}] else [])
   ++ (if needsWhatsApp a && has_length (whatsAppKeywords a)
       then [{| instr_request_id := requestId; instr_source := whatsapp;
                instr_keywords := default [] (whatsAppKeywords a) |}] else []))%list.

(** Is [e] a dom-results submission for request [requestId]? *)
Definition targets (requestId : string) (e : Event) : bool :=
  match e with
  | PostDomResults _ r _ _ => bool_decide (r = requestId)
  | _ => false
  end.

(** Does the analysis mark the extension source [src] as needed, and which
    keywords does it have for it? *)
Definition needs_extension_source (src : Source) (a : QueryAnalysis) : bool :=
  match src with
  | linkedin => needsLinkedIn a
  | whatsapp => needsWhatsApp a
  | _ => false
  end.

Definition keywords_for (src : Source) (a : QueryAnalysis) : option (list string) :=
  match src with
  | linkedin => linkedInKeywords a
  | whatsapp => whatsAppKeywords a
  | _ => None
  end.

(** ** Concrete collaborators, for the examples *)

Definition no_patch : AnalysisPatch :=
  {| patch_needsGmail := None; patch_needsCalendar := None;
     patch_needsLinkedIn := None; patch_needsWhatsApp := None;
     patch_linkedInKeywords := None; patch_whatsAppKeywords := None;
     patch_calendarDateRange := None |}.

(** What the classifier finds needed; keywords as given. *)
Definition an_analysis (mail cal li wa : bool)
    (liWords waWords : option (list string)) : QueryAnalysis :=
  {| needsGmail := mail; needsCalendar := cal; needsLinkedIn := li;
     needsWhatsApp := wa; linkedInKeywords := liWords;
     whatsAppKeywords := waWords; calendarDateRange := None |}.

Definition a_mail (n : string) : GmailMessage :=
  {| gmail_message_id := n; gmail_snippet := "lunch on friday" |}.

Definition mail_hit (m : GmailMessage) : SearchHit :=
  {| hit_id := gmail_message_id m; hit_source := "gmail";
     hit_content := gmail_snippet m; hit_metadata := [];
     hit_relevance := QArith_base.Qmake 8 10 |}.

Definition calendar_hit (e : CalendarEvent) : SearchHit :=
  {| hit_id := calendar_event_id e; hit_source := "calendar";
     hit_content := calendar_summary e; hit_metadata := [];
     hit_relevance := QArith_base.Qmake 7 10 |}.

Definition unauthorized : JsError :=
  {| err_code := Some 401; err_status := None; err_response_status := None;
     err_response_data_error_code := None |}.

(** A well-behaved world: a connected account whose token expires at
    [expiry], a classifier that answers [a], fetchers that answer [mail] and
    [cal] on every call, a refresh that answers [refresh]. *)
Definition a_world (requestId : string) (expiry tokenCheck : Z)
    (asyncMode : bool) (a : QueryAnalysis)
    (refresh : Outcome string)
    (mail : nat → Outcome (list GmailMessage))
    (cal : nat → Outcome (list CalendarEvent)) : AskEnv :=
  {| zod_uuid := fun _ => true;
     randomUUID := requestId;
     now_conversations := tokenCheck;
     now_conversation_check := tokenCheck;
     now_token_check := tokenCheck;
     selectConversation := None;
     insertConversation := None;
     insertUsageEvent_error := false;
     selectConnection :=
       Some {| stored_access_token := "enc-access";
               stored_refresh_token := "enc-refresh";
               token_expires_at := Some (Instant expiry) |};
     decryptTokens :=
       fun _ => Some {| access_token := "token-1"; refresh_token := "refresh-1" |};
     refreshAccessToken := fun _ _ => refresh;
     supabaseAdmin := true;
     updateConnection_throws := fun _ => None;
     getFeatureFlags := Returns {| enableAsyncMode := asyncMode |};
     analyzeQuery := Returns a;
     filterAnalysisByFlags := fun _ _ => no_patch;
     planGmailQuery := Returns {| gmailQuery := "from:bob"; intent := intent_other |};
     searchGmail := fun k _ _ _ => mail k;
     getCalendarEvents := fun k _ _ _ => cal k;
     normalizeGmailResults := fun ms => mail_hit <$> ms;
     normalizeCalendarResults := fun es => calendar_hit <$> es;
     mergeResults := fun hits => hits;
     synthesizeAnswer := fun _ _ _ => Returns {| answer_text := "an answer" |};
     updateConversation_throws := None |}.

Definition alice : AuthenticatedRequest := {| userId := "alice"; jwt := "jwt-a" |}.

Definition a_question : AskBody :=
  {| body_query := "what did bob say"; body_conversationId := None |}.

(** A request that needs LinkedIn only, with keywords, in async mode. *)
Definition linkedin_world : AskEnv :=
  a_world "req-1" 5000 1000 true
    (an_analysis false false true false (Some ["bob"]) None)
    (Returns "token-2") (fun _ => Returns []) (fun _ => Returns []).

Definition one_pending : State :=
  run init [(0, PostAsk alice a_question linkedin_world)].

Definition synthesis_ok (a : string) : TaskEnv :=
  {| task_lookup_throws := false;
     task_synthesizeAnswer := Some {| answer_text := a |};
     task_update_throws := false |}.

Definition synthesis_fails : TaskEnv :=
  {| task_lookup_throws := false; task_synthesizeAnswer := None;
     task_update_throws := false |}.

(** The entry that [one_pending] holds for ["req-1"]. *)
Definition the_pending_entry : PendingSearch :=
  {| request_id := "req-1"; user_id := "alice";
     query := "what did bob say"; requires_extension := true;
     sources_needed := [linkedin];
     instructions := [{| instr_request_id := "req-1"; instr_source := linkedin;
                         instr_keywords := ["bob"] |}];
     results := seeded_results []; status := pending;
     created_at := 0; conversation_id := None; answer := None;
     metadata := (an_analysis false false true false (Some ["bob"]) None, None) |}.

(** A request that needs mail only, whose first search is answered 401 and
    whose refresh then fails at the provider. *)
Definition refresh_fails_world : AskEnv :=
  a_world "req-9" 5000 1000 false
    (an_analysis true false false false None None)
    (Throws plain_js_error)
    (fun _ => Throws unauthorized) (fun _ => Returns []).

(** A request whose stored token is past its expiry and whose refresh is
    refused by the provider. *)
Definition expired_world : AskEnv :=
  a_world "req-4" 500 1000 false
    (an_analysis true true false false None None)
    (Throws plain_js_error)
    (fun _ => Returns []) (fun _ => Returns []).

(** A request whose stored token expires at the very instant of the check. *)
Definition expiring_now_world : AskEnv :=
  a_world "req-3" 1000 1000 false
    (an_analysis true false false false None None)
    (Returns "token-2")
    (fun _ => Returns [a_mail "m1"]) (fun _ => Returns []).


(** A request in async mode for which the classifier wants LinkedIn but has
    no keywords for it, and nothing else. *)
Definition no_keywords_world : AskEnv :=
  a_world "req-6" 5000 1000 true
    (an_analysis false false true false None None)
    (Returns "token-2") (fun _ => Returns []) (fun _ => Returns []).

(** A request in async mode for which the classifier wants LinkedIn, without
    keywords, and WhatsApp, with a keyword. *)
Definition two_sources_world : AskEnv :=
  a_world "req-5" 5000 1000 true
    (an_analysis false false true true None (Some ["carol"]))
    (Returns "token-2") (fun _ => Returns []) (fun _ => Returns []).

(** ** Further notions and collaborators

    The early replies of [POST /ask], two more kinds of call, and worlds in
    which a request is turned away. *)

Definition invalid_body : Response :=
  ReplyError 400 (plain_error "Invalid request body").

Definition not_connected : Response :=
  ReplyError 400 (coded_error "Google account not connected" "GOOGLE_NOT_CONNECTED").

Definition decryption_failed : Response :=
  ReplyError 500
    (coded_error "Failed to decrypt stored tokens. Please reconnect your account."
                 "DECRYPTION_FAILED").

Definition is_insert_conversation (c : Call) : bool :=
  match c with InsertConversation _ => true | _ => false end.

(** [env] with another answer of the connection lookup, of [decryptTokens],
    of the classifier, of the synthesizer. *)
Definition with_connection (c : option Connection) (env : AskEnv) : AskEnv :=
  {| zod_uuid := zod_uuid env; randomUUID := randomUUID env;
     now_conversations := now_conversations env;
     now_conversation_check := now_conversation_check env;
     now_token_check := now_token_check env;
     selectConversation := selectConversation env;
     insertConversation := insertConversation env;
     insertUsageEvent_error := insertUsageEvent_error env;
     selectConnection := c;
     decryptTokens := decryptTokens env;
     refreshAccessToken := refreshAccessToken env;
     supabaseAdmin := supabaseAdmin env;
     updateConnection_throws := updateConnection_throws env;
     getFeatureFlags := getFeatureFlags env;
     analyzeQuery := analyzeQuery env;
     filterAnalysisByFlags := filterAnalysisByFlags env;
     planGmailQuery := planGmailQuery env;
     searchGmail := searchGmail env;
     getCalendarEvents := getCalendarEvents env;
     normalizeGmailResults := normalizeGmailResults env;
     normalizeCalendarResults := normalizeCalendarResults env;
     mergeResults := mergeResults env;
     synthesizeAnswer := synthesizeAnswer env;
     updateConversation_throws := updateConversation_throws env |}.

Definition with_decryptTokens (d : Tokens → option Tokens) (env : AskEnv) : AskEnv :=
  {| zod_uuid := zod_uuid env; randomUUID := randomUUID env;
     now_conversations := now_conversations env;
     now_conversation_check := now_conversation_check env;
     now_token_check := now_token_check env;
     selectConversation := selectConversation env;
     insertConversation := insertConversation env;
     insertUsageEvent_error := insertUsageEvent_error env;
     selectConnection := selectConnection env;
     decryptTokens := d;
     refreshAccessToken := refreshAccessToken env;
     supabaseAdmin := supabaseAdmin env;
     updateConnection_throws := updateConnection_throws env;
     getFeatureFlags := getFeatureFlags env;
     analyzeQuery := analyzeQuery env;
     filterAnalysisByFlags := filterAnalysisByFlags env;
     planGmailQuery := planGmailQuery env;
     searchGmail := searchGmail env;
     getCalendarEvents := getCalendarEvents env;
     normalizeGmailResults := normalizeGmailResults env;
     normalizeCalendarResults := normalizeCalendarResults env;
     mergeResults := mergeResults env;
     synthesizeAnswer := synthesizeAnswer env;
     updateConversation_throws := updateConversation_throws env |}.

Definition with_analyzeQuery (a : Outcome QueryAnalysis) (env : AskEnv) : AskEnv :=
  {| zod_uuid := zod_uuid env; randomUUID := randomUUID env;
     now_conversations := now_conversations env;
     now_conversation_check := now_conversation_check env;
     now_token_check := now_token_check env;
     selectConversation := selectConversation env;
     insertConversation := insertConversation env;
     insertUsageEvent_error := insertUsageEvent_error env;
     selectConnection := selectConnection env;
     decryptTokens := decryptTokens env;
     refreshAccessToken := refreshAccessToken env;
     supabaseAdmin := supabaseAdmin env;
     updateConnection_throws := updateConnection_throws env;
     getFeatureFlags := getFeatureFlags env;
     analyzeQuery := a;
     filterAnalysisByFlags := filterAnalysisByFlags env;
     planGmailQuery := planGmailQuery env;
     searchGmail := searchGmail env;
     getCalendarEvents := getCalendarEvents env;
     normalizeGmailResults := normalizeGmailResults env;
     normalizeCalendarResults := normalizeCalendarResults env;
     mergeResults := mergeResults env;
     synthesizeAnswer := synthesizeAnswer env;
     updateConversation_throws := updateConversation_throws env |}.

Definition with_synthesizeAnswer
    (f : string → list SearchHit → list Message → Outcome Answer)
    (env : AskEnv) : AskEnv :=
  {| zod_uuid := zod_uuid env; randomUUID := randomUUID env;
     now_conversations := now_conversations env;
     now_conversation_check := now_conversation_check env;
     now_token_check := now_token_check env;
     selectConversation := selectConversation env;
     insertConversation := insertConversation env;
     insertUsageEvent_error := insertUsageEvent_error env;
     selectConnection := selectConnection env;
     decryptTokens := decryptTokens env;
     refreshAccessToken := refreshAccessToken env;
     supabaseAdmin := supabaseAdmin env;
     updateConnection_throws := updateConnection_throws env;
     getFeatureFlags := getFeatureFlags env;
     analyzeQuery := analyzeQuery env;
     filterAnalysisByFlags := filterAnalysisByFlags env;
     planGmailQuery := planGmailQuery env;
     searchGmail := searchGmail env;
     getCalendarEvents := getCalendarEvents env;
     normalizeGmailResults := normalizeGmailResults env;
     normalizeCalendarResults := normalizeCalendarResults env;
     mergeResults := mergeResults env;
     synthesizeAnswer := f;
     updateConversation_throws := updateConversation_throws env |}.

(** [n] copies of [s], one after the other. *)
Fixpoint times (n : nat) (s : string) : string :=
  match n with
  | O => ""
  | S m => s +:+ times m s
  end.

(** A plain synchronous request for mail, token still valid. *)
Definition mail_world : AskEnv :=
  a_world "req-10" 5000 1000 false
    (an_analysis true false false false None None)
    (Returns "token-2") (fun _ => Returns [a_mail "m1"]) (fun _ => Returns []).

(** What [prelude] hands over in the worlds built by [a_world] when the
    token is still valid. *)
Definition a_context : Checked :=
  {| conversationHistory := []; currentConversationId := None;
     decryptedTokens := {| access_token := "token-1";
                           refresh_token := "refresh-1" |} |}.


(** What never changes in an entry once it is created. *)
Definition same_identity (p p' : PendingSearch) : Prop :=
  request_id p' = request_id p
  ∧ user_id p' = user_id p
  ∧ query p' = query p
  ∧ requires_extension p' = requires_extension p
  ∧ sources_needed p' = sources_needed p
  ∧ instructions p' = instructions p
  ∧ created_at p' = created_at p
  ∧ conversation_id p' = conversation_id p
  ∧ metadata p' = metadata p.


(** A request with an expired token in which every call to Google is
    answered 401, while the refreshes succeed. *)
Definition all_unauthorized_world : AskEnv :=
  a_world "req-11" 500 1000 false
    (an_analysis true true false false None None)
    (Returns "token-2")
    (fun _ => Throws unauthorized) (fun _ => Throws unauthorized).

(** A synchronous request for mail whose token is past its expiry and whose
    refresh succeeds. *)
Definition refreshed_mail_world : AskEnv :=
  a_world "req-12" 500 1000 false
    (an_analysis true false false false None None)
    (Returns "token-2") (fun _ => Returns [a_mail "m1"]) (fun _ => Returns []).


(** A request that continues conversation ["conv-1"], last updated at
    [updatedAt], checked at time 700000. *)
Definition conversation_world (updatedAt : Z) : AskEnv :=
  {| zod_uuid := fun _ => true;
     randomUUID := "req-13";
     now_conversations := 700000;
     now_conversation_check := 700000;
     now_token_check := 700000;
     selectConversation :=
       Some {| conversation_key := "conv-1"; updated_at := updatedAt;
               messages := [{| role := "user"; content := "hello";
                               message_metadata := None |}] |};
     insertConversation := Some "conv-2";
     insertUsageEvent_error := false;
     selectConnection :=
       Some {| stored_access_token := "enc-access";
               stored_refresh_token := "enc-refresh";
               token_expires_at := Some (Instant 900000) |};
     decryptTokens :=
       fun _ => Some {| access_token := "token-1"; refresh_token := "refresh-1" |};
     refreshAccessToken := fun _ _ => Returns "token-2";
     supabaseAdmin := true;
     updateConnection_throws := fun _ => None;
     getFeatureFlags := Returns {| enableAsyncMode := false |};
     analyzeQuery := Returns (an_analysis true false false false None None);
     filterAnalysisByFlags := fun _ _ => no_patch;
     planGmailQuery := Returns {| gmailQuery := "from:bob"; intent := intent_other |};
     searchGmail := fun _ _ _ _ => Returns [a_mail "m1"];
     getCalendarEvents := fun _ _ _ _ => Returns [];
     normalizeGmailResults := fun ms => mail_hit <$> ms;
     normalizeCalendarResults := fun es => calendar_hit <$> es;
     mergeResults := fun hits => hits;
     synthesizeAnswer := fun _ _ _ => Returns {| answer_text := "an answer" |};
     updateConversation_throws := None |}.


(** The extension submits its snippets source by source, all for one
    request: the final state and the replies, in order. *)
Fixpoint submit_each (s : State) (caller requestId : string)
    (subs : list (Source * list string)) : State * list Response :=
  match subs with
  | [] => (s, [])
  | (src, snippets) :: rest =>
      let '(s1, r) := dom_results s caller requestId (source_name src) snippets in
      let '(s2, rs) := submit_each s1 caller requestId rest in
      (s2, r :: rs)
  end.


(** A request in async mode that needs LinkedIn and WhatsApp, with keywords
    for both, and mail as well. *)
Definition both_sources_world : AskEnv :=
  a_world "req-14" 5000 1000 true
    (an_analysis true false true true (Some ["bob"]) (Some ["carol"]))
    (Returns "token-2") (fun _ => Returns [a_mail "m1"]) (fun _ => Returns []).


(** A request for mail and calendar whose first mail search is answered 401
    and whose refresh succeeds; every later call to Google answers. *)
Definition mail_refresh_world : AskEnv :=
  a_world "req-15" 5000 1000 false
    (an_analysis true true false false None None)
    (Returns "token-2")
    (fun k => match k with
              | O => Throws unauthorized
              | S _ => Returns [a_mail "m1"]
              end)
    (fun _ => Returns []).

(** The entry of [one_pending] once LinkedIn was submitted and the
    synthesis has failed. *)
Definition one_failed : State :=
  run one_pending [(1, PostDomResults "alice" "req-1" "linkedin" ["hello"]);
                   (2, TaskSettles 0 synthesis_fails)].

(** A registration at 310000, for another request. *)
Definition later_world : AskEnv :=
  a_world "req-2" 500000 310000 true
    (an_analysis false false true false (Some ["bob"]) None)
    (Returns "token-2") (fun _ => Returns []) (fun _ => Returns []).

(** What the first attempt of a synchronous fetch yields when it is not
    answered 401: the normalised answer, or nothing. *)
Definition first_try {A} (o : Outcome A) (normalize : A → list SearchHit)
  : list SearchHit :=
  match o with
  | Returns a => normalize a
  | Throws _ => []
  end.

(** Is the first attempt answered 401? *)
Definition answered_401 {A} (o : Outcome A) : bool :=
  match o with
  | Returns _ => false
  | Throws e => isUnauthorized e
  end.

(** The first mail search of a request, made with [token].  When the plan
    fails no search is made, which counts as a search that fails with an
    error that is no 401. *)
Definition first_mail_search (env : AskEnv) (token : string)
  : Outcome (list GmailMessage) :=
  match planGmailQuery env with
  | Returns plan =>
      searchGmail env 0 token (gmailQuery plan) (maxResults_for plan)
  | Throws e => Throws plain_js_error
  end.

(** * Properties *)

(** ** Ownership *)

Lemma find_search_Some s requestId l p :
  pendingSearches s !! requestId = Some l → heap s !! l = Some p →
  find_search s requestId = Some p.
Proof. intros Hr Hl. unfold find_search. rewrite Hr. exact Hl. Qed.

Lemma find_search_unknown s requestId :
  pendingSearches s !! requestId = None → find_search s requestId = None.
Proof. intros Hr. unfold find_search. by rewrite Hr. Qed.

(** C6.  An entry owned by [owner] answers every caller other than its owner
    with the fixed 403 reply [not_authorized] on all three routes, the state
    is left as it was, and that reply differs from the 404 [not_found] that
    an unknown request id gets. *)
Theorem ownership_isolation (s : State) (requestId caller source : string)
    (snippets : list string) (l : nat) (p : PendingSearch) :
  pendingSearches s !! requestId = Some l →
  heap s !! l = Some p →
  user_id p ≠ caller →
  get_ask s caller requestId = not_authorized
  ∧ get_ask_status s caller requestId = not_authorized
  ∧ dom_results s caller requestId source snippets = (s, not_authorized)
  ∧ not_authorized = ReplyError 403 (plain_error "Not authorized")
  ∧ not_authorized ≠ not_found
  ∧ (∀ unknown, pendingSearches s !! unknown = None →
       get_ask s caller unknown = not_found
       ∧ get_ask_status s caller unknown = not_found
       ∧ dom_results s caller unknown source snippets = (s, not_found)).
Proof.
  intros Hr Hl Hne.
  pose proof (find_search_Some _ _ _ _ Hr Hl) as Hf.
  repeat split.
  - unfold get_ask. rewrite Hf. by rewrite decide_True.
  - unfold get_ask_status. rewrite Hf. by rewrite decide_True.
  - unfold dom_results. rewrite Hr, Hl. by rewrite decide_True.
  - discriminate.
  - unfold get_ask. by rewrite find_search_unknown.
  - unfold get_ask_status. by rewrite find_search_unknown.
  - unfold dom_results.
    match goal with Hunknown : _ !! _ = None |- _ => by rewrite Hunknown end.
Qed.

Lemma ownership_isolation_witness :
  get_ask one_pending "mallory" "req-1" = not_authorized
  ∧ dom_results one_pending "mallory" "req-1" "linkedin" ["x"]
    = (one_pending, not_authorized).
Proof.
  assert (pendingSearches one_pending !! "req-1" = Some 0%nat) as Hr
    by (vm_compute; reflexivity).
  assert (heap one_pending !! 0%nat = Some the_pending_entry) as Hl
    by (vm_compute; reflexivity).
  assert (user_id the_pending_entry ≠ "mallory") as Hu by discriminate.
  destruct (ownership_isolation one_pending "req-1" "mallory" "linkedin" ["x"]
              0%nat the_pending_entry Hr Hl Hu) as (H1 & _ & H3 & _).
  split; assumption.
Defined.

(** ** What one submission writes *)

Lemma js_get_set_eq k v r : js_get k (js_set k v r) = Some v.
Proof.
  unfold js_get, js_set. destruct (decide (k = proto_key)); simpl.
  - done.
  - apply lookup_insert_eq.
Qed.

Lemma js_get_set_ne k k' v r : k ≠ k' → js_get k' (js_set k v r) = js_get k' r.
Proof.
  intros Hne. unfold js_get, js_set.
  destruct (decide (k = proto_key)) as [->|Hk]; simpl.
  - destruct (decide (k' = proto_key)) as [->|]; done.
  - destruct (decide (k' = proto_key)); [done|]. by apply lookup_insert_ne.
Qed.

Lemma normalizeSnippets_length source snippets :
  length (normalizeSnippets source snippets) = length snippets.
Proof. unfold normalizeSnippets. apply length_imap. Qed.

Lemma normalizeSnippets_content source snippets :
  hit_content <$> normalizeSnippets source snippets = snippets.
Proof.
  unfold normalizeSnippets. rewrite fmap_imap.
  rewrite (imap_ext _ (const (fun x => x))) by done.
  rewrite imap_const. apply list_fmap_id.
Qed.

Lemma normalizeSnippets_source source snippets h :
  h ∈ normalizeSnippets source snippets → hit_source h = source.
Proof.
  unfold normalizeSnippets. intros Hin.
  apply list_elem_of_lookup in Hin as [i Hi].
  rewrite list_lookup_imap in Hi.
  destruct (snippets !! i); simplify_eq/=. done.
Qed.

(** The entry that a submission from the owner leaves at [l], and the reply. *)
Lemma dom_results_owner s caller requestId source snippets l p :
  pendingSearches s !! requestId = Some l →
  heap s !! l = Some p →
  user_id p = caller →
  let written :=
    with_results (js_set source (normalizeSnippets source snippets) (results p)) p in
  dom_results s caller requestId source snippets =
    if allSourcesComplete written
    then (spawn {| task_search := l; task_request_id := requestId |}
                (store l written s), ReplySubmit processing requestId)
    else (store l (with_status partial written) s, ReplySubmit partial requestId).
Proof.
  intros Hr Hl Hu. unfold dom_results. rewrite Hr, Hl.
  by rewrite decide_False by (intros ?; done).
Qed.

Lemma store_lookup l p s q :
  heap s !! l = Some q → heap (store l p s) !! l = Some p.
Proof.
  intros Hl. unfold store; simpl. apply list_lookup_insert_eq.
  by eapply lookup_lt_Some.
Qed.

Lemma dom_results_registry s caller requestId source snippets :
  pendingSearches (dom_results s caller requestId source snippets).1
  = pendingSearches s.
Proof.
  unfold dom_results. repeat case_match; done.
Qed.

(** C5.  Whatever an entry held for source [S], a submission of [n] snippets
    for [S] by its owner leaves under [results[S]] exactly the [n] hits made
    from those snippets, in order; so of two successive submissions for [S]
    the second alone decides what is stored: nothing of the first is kept,
    nothing is appended. *)
Theorem resubmission_overwrites (s : State) (caller requestId S : string)
    (first : list string) (l : nat) (p : PendingSearch) :
  pendingSearches s !! requestId = Some l →
  heap s !! l = Some p →
  user_id p = caller →
  let s1 := (dom_results s caller requestId S first).1 in
  (∃ p1, find_search s1 requestId = Some p1
         ∧ js_get S (results p1) = Some (normalizeSnippets S first)
         ∧ length (normalizeSnippets S first) = length first
         ∧ hit_content <$> normalizeSnippets S first = first)
  ∧ ∀ second,
      let s2 := (dom_results s1 caller requestId S second).1 in
      ∃ p2, find_search s2 requestId = Some p2
            ∧ js_get S (results p2) = Some (normalizeSnippets S second)
            ∧ length (normalizeSnippets S second) = length second
            ∧ hit_content <$> normalizeSnippets S second = second.
Proof.
  assert (∀ s0 snippets p0,
            pendingSearches s0 !! requestId = Some l →
            heap s0 !! l = Some p0 →
            user_id p0 = caller →
            ∃ p', heap (dom_results s0 caller requestId S snippets).1 !! l = Some p'
                  ∧ pendingSearches (dom_results s0 caller requestId S snippets).1
                      !! requestId = Some l
                  ∧ user_id p' = caller
                  ∧ js_get S (results p') = Some (normalizeSnippets S snippets))
    as Hone.
  { intros s0 snippets p0 Hr Hl Hu. rewrite dom_results_registry.
    rewrite (dom_results_owner _ _ _ _ _ _ _ Hr Hl Hu).
    assert (l < length (heap s0))%nat by by eapply lookup_lt_Some.
    case_match; simpl; rewrite list_lookup_insert_eq by done;
      eexists; (repeat split; [done..|]); simpl; apply js_get_set_eq. }
  intros Hr Hl Hu s1.
  destruct (Hone s first p Hr Hl Hu) as (p1 & Hl1 & Hr1 & Hu1 & Hg1).
  split.
  - exists p1. unfold find_search. subst s1. rewrite Hr1. simpl.
    by rewrite normalizeSnippets_length, normalizeSnippets_content.
  - intros second s2.
    destruct (Hone s1 second p1 Hr1 Hl1 Hu1) as (p2 & Hl2 & Hr2 & _ & Hg2).
    exists p2. unfold find_search. subst s2. rewrite Hr2. simpl.
    by rewrite normalizeSnippets_length, normalizeSnippets_content.
Qed.

Lemma resubmission_overwrites_witness :
  ∃ p2,
    find_search
      (dom_results (dom_results one_pending "alice" "req-1" "linkedin" ["a"; "b"; "c"]).1
         "alice" "req-1" "linkedin" ["d"]).1 "req-1" = Some p2
    ∧ js_get "linkedin" (results p2) = Some (normalizeSnippets "linkedin" ["d"])
    ∧ length (normalizeSnippets "linkedin" ["d"]) = 1%nat.
Proof.
  assert (pendingSearches one_pending !! "req-1" = Some 0%nat) as Hr
    by (vm_compute; reflexivity).
  assert (heap one_pending !! 0%nat = Some the_pending_entry) as Hl
    by (vm_compute; reflexivity).
  assert (user_id the_pending_entry = "alice") as Hu by reflexivity.
  pose proof (resubmission_overwrites one_pending "alice" "req-1" "linkedin"
                ["a"; "b"; "c"] 0%nat the_pending_entry Hr Hl Hu) as H.
  cbv zeta in H. destruct H as [_ H].
  destruct (H ["d"]) as (p2 & H1 & H2 & H3 & _).
  exists p2. repeat split; assumption.
Defined.

(** ** What POST /ask can do to the store *)

Ltac unfold_m :=
  unfold bind, ret, throw, try_catch, lift, emit, when, calls_so_far,
    get_locals, set_accessToken, push_results, push_sourcesNeeded,
    push_domInstructions, set_gmailPlan, current_accessToken in *.

Lemma bind_Returns {A B} (m : M A) (k : A → M B) l b l' :
  bind m k l = (Returns b, l') →
  ∃ a l1, m l = (Returns a, l1) ∧ k a l1 = (Returns b, l').
Proof.
  unfold bind. destruct (m l) as [[a|e] l1]; intros H; [eauto|discriminate].
Qed.

Lemma bind_Throws {A B} (m : M A) (k : A → M B) l e l' :
  bind m k l = (Throws e, l') →
  m l = (Throws e, l') ∨ ∃ a l1, m l = (Returns a, l1) ∧ k a l1 = (Throws e, l').
Proof.
  unfold bind. destruct (m l) as [[a|e1] l1]; intros H.
  - right. eauto.
  - left. by simplify_eq.
Qed.

(** Peel the leading steps off [H : (step ;; rest) l = (Returns _, _)],
    keeping only the equation for the rest. *)
Ltac skip_steps H :=
  repeat (let a := fresh "a" in let l := fresh "l" in
          apply bind_Returns in H as (a & l & _ & H)).

Lemma process_query_state env now s auth rt q requestId hist cid l s' r l' :
  process_query env now s auth rt q requestId hist cid l = (Returns (s', r), l') →
  (s' = s ∧ ∃ ans searched, r = ReplyComplete requestId ans searched cid)
  ∨ ∃ p, s' = sweep now (register requestId p s)
         ∧ fresh_entry requestId (userId auth) now p
         ∧ r = ReplyPending requestId
                 (filter (fun src => is_extension_source src) (sources_needed p))
                 (instructions p).
Proof.
  unfold process_query. intros H.
  skip_steps H. cbv zeta in H. skip_steps H.
  case_match.
  - right. unfold register_pending in H. skip_steps H. cbv zeta in H.
    unfold ret in H. simplify_eq. eexists; split; [reflexivity|].
    split; [|done]. unfold fresh_entry, new_pending; simpl; eauto 10.
  - left. unfold synthesize_reply in H. skip_steps H. cbv zeta in H.
    skip_steps H. unfold ret in H. simplify_eq. eauto.
Qed.

(** An early reply is an error reply. *)
Lemma prelude_early env auth body l reply l' :
  prelude env auth body l = (Returns (inl reply), l') →
  ∃ http b, reply = ReplyError http b.
Proof.
  unfold prelude. intros H.
  destruct (valid_body env body); simpl in H.
  2: { unfold ret in H. simplify_eq. eauto. }
  apply bind_Returns in H as (conv & lc & _ & H). skip_steps H.
  destruct (selectConnection env) as [googleConnection|].
  2: { unfold ret in H. simplify_eq. eauto. }
  skip_steps H. destruct (decryptTokens env _) as [tokens|].
  2: { skip_steps H. unfold ret in H. simplify_eq. eauto. }
  apply bind_Returns in H as (usable & lu & _ & H).
  destruct usable; unfold ret in H; simplify_eq. eauto.
Qed.

Lemma post_ask_state env now s auth body s' r tr :
  post_ask env now s auth body = (s', r, tr) →
  (s' = s ∧ is_pending_reply r = false)
  ∨ ∃ p, s' = sweep now (register (randomUUID env) p s)
         ∧ fresh_entry (randomUUID env) (userId auth) now p
         ∧ r = ReplyPending (randomUUID env)
                 (filter (fun src => is_extension_source src) (sources_needed p))
                 (instructions p).
Proof.
  unfold post_ask, ask_handler. unfold bind, try_catch, ret, emit. intros H.
  destruct (prelude env auth body no_locals) as [[[reply|ctx]|e] l1] eqn:Hpre;
    simplify_eq.
  - left. apply prelude_early in Hpre as (http & b & ->). done.
  - destruct (process_query _ _ _ _ _ _ _ _ _ l1) as [[[s2 r2]|e] l2] eqn:Hp;
      simplify_eq; [|by left].
    apply process_query_state in Hp as [[-> (ans & searched & ->)]|Hp];
      [by left|by right].
  - by left.
Qed.

(** ** Invariants of the store *)

Lemma allSourcesComplete_ext p q :
  results p = results q → sources_needed p = sources_needed q →
  allSourcesComplete p = allSourcesComplete q.
Proof. unfold allSourcesComplete. by intros -> ->. Qed.

Lemma source_name_not_proto src : source_name src ≠ proto_key.
Proof. by destruct src. Qed.

(** A write never takes a needed source away. *)
Lemma allSourcesComplete_written k v p :
  allSourcesComplete p = true →
  allSourcesComplete (with_results (js_set k v (results p)) p) = true.
Proof.
  unfold allSourcesComplete; simpl. rewrite !forallb_forall.
  intros H src Hsrc. specialize (H src Hsrc).
  destruct (decide (k = source_name src)) as [->|Hne].
  - rewrite js_get_set_eq. apply bool_decide_eq_true. lia.
  - by rewrite js_get_set_ne.
Qed.

Lemma consistent_init : consistent init.
Proof.
  split; simpl.
  - intros r l H. by rewrite lookup_empty in H.
  - intros t H. by apply elem_of_nil in H.
  - intros l p H. by rewrite lookup_nil in H.
Qed.

Lemma consistent_register now requestId owner p s :
  consistent s → fresh_entry requestId owner now p →
  consistent (sweep now (register requestId p s)).
Proof.
  intros [Hr Ht He] (Hid & _ & Hst & Hans & _). split; simpl.
  - intros r l H. apply map_lookup_filter_Some in H as [H _].
    destruct (decide (requestId = r)) as [->|Hne].
    + rewrite lookup_insert_eq in H. simplify_eq.
      exists p. split; [|done]. by rewrite lookup_app_r, Nat.sub_diag.
    + rewrite lookup_insert_ne in H by done.
      destruct (Hr _ _ H) as (p0 & Hl & Hp0). exists p0. split; [|done].
      by apply lookup_app_l_Some.
  - intros t Hin. destruct (Ht _ Hin) as (p0 & Hl & Hc).
    exists p0. split; [|done]. by apply lookup_app_l_Some.
  - intros l q H. apply lookup_app_Some in H as [H|[_ H]]; [by eapply He|].
    destruct (l - length (heap s))%nat; simpl in H; [|by rewrite lookup_nil in H].
    simplify_eq. rewrite Hst. simpl. repeat split; [done|done|lia].
Qed.

Lemma consistent_post_ask env now s auth body :
  consistent s → consistent (post_ask env now s auth body).1.1.
Proof.
  intros Hs. destruct (post_ask env now s auth body) as [[s' r] tr] eqn:H.
  apply post_ask_state in H as [[-> _]|(p & -> & Hp & _)]; simpl; [done|].
  by eapply consistent_register.
Qed.

Lemma consistent_dom_results s caller requestId source snippets :
  consistent s →
  consistent (dom_results s caller requestId source snippets).1.
Proof.
  intros [Hr Ht He]. unfold dom_results.
  destruct (pendingSearches s !! requestId) as [l|] eqn:Hreg; [|by split].
  destruct (heap s !! l) as [p|] eqn:Hl; [|by split].
  destruct (decide (user_id p ≠ caller)); [by split|].
  set (written := with_results _ p).
  assert (l < length (heap s))%nat as Hlt by by eapply lookup_lt_Some.
  destruct (He _ _ Hl) as (Hproc & Hans & Hrank).
  destruct (allSourcesComplete written) eqn:Hc; split; simpl.
  - intros r l0 H. destruct (Hr _ _ H) as (p0 & Hl0 & Hp0).
    destruct (decide (l = l0)) as [->|Hne].
    + rewrite list_lookup_insert_eq by done. simplify_eq. by exists written.
    + rewrite list_lookup_insert_ne by done. eauto.
  - intros t Hin. apply elem_of_app in Hin as [Hin|Hin].
    + destruct (Ht _ Hin) as (p0 & Hl0 & Hp0).
      destruct (decide (l = task_search t)) as [->|Hne].
      * rewrite list_lookup_insert_eq by done. eauto.
      * rewrite list_lookup_insert_ne by done. eauto.
    + apply list_elem_of_singleton in Hin as ->. simpl.
      rewrite list_lookup_insert_eq by done. eauto.
  - intros l0 q H. destruct (decide (l = l0)) as [->|Hne].
    + rewrite list_lookup_insert_eq in H by done. simplify_eq. done.
    + rewrite list_lookup_insert_ne in H by done. by eapply He.
  - intros r l0 H. destruct (Hr _ _ H) as (p0 & Hl0 & Hp0).
    destruct (decide (l = l0)) as [->|Hne].
    + rewrite list_lookup_insert_eq by done. simplify_eq. eauto.
    + rewrite list_lookup_insert_ne by done. eauto.
  - intros t Hin. destruct (Ht _ Hin) as (p0 & Hl0 & Hp0).
    destruct (decide (l = task_search t)) as [->|Hne].
    + simplify_eq. apply (allSourcesComplete_written source
                            (normalizeSnippets source snippets)) in Hp0.
      fold written in Hp0. congruence.
    + rewrite list_lookup_insert_ne by done. eauto.
  - intros l0 q H. destruct (decide (l = l0)) as [->|Hne].
    + rewrite list_lookup_insert_eq in H by done. simplify_eq. simpl.
      repeat split; [done|done|lia].
    + rewrite list_lookup_insert_ne in H by done. by eapply He.
Qed.

Lemma consistent_task_settles now s i env :
  consistent s → consistent (task_settles now s i env).
Proof.
  intros [Hr Ht He]. unfold task_settles.
  destruct (tasks s !! i) as [t|] eqn:Hti; [|by split].
  assert (t ∈ tasks s) as Hin by by eapply list_elem_of_lookup_2.
  destruct (Ht _ Hin) as (p & Hl & Hc). rewrite Hl.
  assert (task_search t < length (heap s))%nat as Hlt by by eapply lookup_lt_Some.
  destruct (task_outcome p env) as [a|]; split; simpl.
  all: try (intros r l0 H; destruct (Hr _ _ H) as (p0 & Hl0 & Hp0);
            destruct (decide (task_search t = l0)) as [<-|Hne];
            [rewrite list_lookup_insert_eq by done; simplify_eq; eauto
            |rewrite list_lookup_insert_ne by done; eauto]).
  all: try (intros t0 Hin0; apply list_elem_of_delete_inv in Hin0;
            destruct (Ht _ Hin0) as (p0 & Hl0 & Hp0);
            destruct (decide (task_search t = task_search t0)) as [Heq|Hne];
            [rewrite <- Heq, list_lookup_insert_eq by done;
             rewrite <- Heq in Hl0; simplify_eq; eauto
            |rewrite list_lookup_insert_ne by done; eauto]).
  all: intros l0 q H; destruct (decide (task_search t = l0)) as [<-|Hne];
    [rewrite list_lookup_insert_eq in H by done; simplify_eq; simpl;
     split; [done|split; [by eauto|done]]
    |rewrite list_lookup_insert_ne in H by done; by eapply He].
Qed.

Lemma consistent_timer_fires now s i :
  consistent s → consistent (timer_fires now s i).
Proof.
  intros [Hr Ht He]. unfold timer_fires.
  destruct (timers s !! i) as [t|]; [|by split].
  case_bool_decide; [|by split]. split; simpl; [|done|done].
  intros r l Hreg. apply lookup_delete_Some in Hreg as [_ Hreg]. eauto.
Qed.

Lemma consistent_step now s e : consistent s → consistent (step now s e).1.
Proof.
  intros Hs. destruct e; simpl; try done.
  - pose proof (consistent_post_ask env now s auth body Hs) as H.
    by destruct (post_ask env now s auth body) as [[s' r] tr].
  - pose proof (consistent_dom_results s caller requestId source snippets Hs) as H.
    by destruct (dom_results s caller requestId source snippets).
  - by apply consistent_task_settles.
  - by apply consistent_timer_fires.
Qed.

Lemma consistent_run evs : ∀ s, consistent s → consistent (run s evs).
Proof.
  induction evs as [|[now e] evs IH]; intros s Hs; simpl; [done|].
  apply IH. by apply consistent_step.
Qed.

Lemma reachable_consistent s : reachable s → consistent s.
Proof. intros [evs ->]. apply consistent_run, consistent_init. Qed.

(** ** Completion detection *)

Lemma allSourcesComplete_keys p :
  allSourcesComplete p = true ↔ needed_names p ⊆ js_keys (results p).
Proof.
  unfold allSourcesComplete, needed_names, js_keys.
  rewrite forallb_forall. split.
  - intros H k Hk. apply elem_of_list_to_set, list_elem_of_fmap in Hk
      as (src & -> & Hsrc).
    apply list_elem_of_In, H in Hsrc. unfold js_get in Hsrc.
    rewrite decide_False in Hsrc by apply source_name_not_proto.
    apply elem_of_dom. by destruct (own (results p) !! source_name src).
  - intros H src Hsrc. unfold js_get.
    rewrite decide_False by apply source_name_not_proto.
    assert (source_name src ∈ dom (own (results p))) as Hd.
    { apply H, elem_of_list_to_set, list_elem_of_fmap. exists src.
      split; [done|]. by apply list_elem_of_In. }
    apply elem_of_dom in Hd as [hits ->]. apply bool_decide_eq_true. lia.
Qed.

(** C1, as amended.  A submission by the owner is answered ['processing'],
    with one more background task in flight for that entry and the hits
    written, exactly when after the write every needed source is a key of
    [results]; further keys do not matter.  Otherwise the stored status is
    set to ['partial'], the answer is ['partial'] and no task is started. *)
Theorem completion_detection (s : State) (caller requestId source : string)
    (snippets : list string) (l : nat) (p : PendingSearch) :
  pendingSearches s !! requestId = Some l →
  heap s !! l = Some p →
  user_id p = caller →
  let written :=
    js_set source (normalizeSnippets source snippets) (results p) in
  let after := dom_results s caller requestId source snippets in
  (after.2 = ReplySubmit processing requestId ↔ needed_names p ⊆ js_keys written)
  ∧ (needed_names p ⊆ js_keys written →
       tasks after.1
       = (tasks s ++ [{| task_search := l; task_request_id := requestId |}])%list
       ∧ ∃ p', heap after.1 !! l = Some p' ∧ results p' = written)
  ∧ (¬ needed_names p ⊆ js_keys written →
       after.2 = ReplySubmit partial requestId
       ∧ tasks after.1 = tasks s
       ∧ ∃ p', heap after.1 !! l = Some p' ∧ results p' = written
               ∧ status p' = partial).
Proof.
  intros Hr Hl Hu written after. subst after.
  rewrite (dom_results_owner _ _ _ _ _ _ _ Hr Hl Hu).
  pose proof (allSourcesComplete_keys (with_results written p)) as Hk.
  fold written. simpl in Hk. unfold needed_names in *. simpl in Hk.
  assert (l < length (heap s))%nat as Hlt by by eapply lookup_lt_Some.
  destruct (allSourcesComplete (with_results written p)); simpl.
  - assert (list_to_set (source_name <$> sources_needed p) ⊆ js_keys written)
      as Hsub by by apply Hk.
    split; [done|]. split; [|done]. intros _. split; [done|].
    rewrite list_lookup_insert_eq by done. eauto.
  - assert (¬ list_to_set (source_name <$> sources_needed p) ⊆ js_keys written)
      as Hsub by (intros H; by apply Hk in H).
    split; [split; [done|done]|]. split; [done|]. intros _.
    split; [done|]. split; [done|].
    rewrite list_lookup_insert_eq by done. eauto.
Qed.

(** Closed decidable facts about concrete states are settled by evaluation. *)
Ltac by_compute :=
  match goal with |- ?P => apply (@bool_decide_unpack P _) end;
  vm_compute; exact I.

Lemma completion_detection_witness :
  (dom_results one_pending "alice" "req-1" "linkedin" ["hello"]).2
  = ReplySubmit processing "req-1".
Proof.
  assert (pendingSearches one_pending !! "req-1" = Some 0%nat) as Hr
    by (vm_compute; reflexivity).
  assert (heap one_pending !! 0%nat = Some the_pending_entry) as Hl
    by (vm_compute; reflexivity).
  assert (user_id the_pending_entry = "alice") as Hu by reflexivity.
  pose proof (completion_detection one_pending "alice" "req-1" "linkedin"
                ["hello"] 0%nat the_pending_entry Hr Hl Hu) as H.
  cbv zeta in H. destruct H as (H & _). apply H. by_compute.
Defined.

(** C1, as stated, fails.  The entry registered for a query that needs
    LinkedIn only has [sources_needed = [linkedin]] and the pre-seeded keys
    [gmail] and [calendar].  The LinkedIn submission is answered
    ['processing'] and starts the synthesis, although [results] has a key
    that is not needed; and the stored status is still ['pending']. *)
Lemma completion_is_not_set_equality :
  let after := dom_results one_pending "alice" "req-1" "linkedin" ["hello"] in
  after.2 = ReplySubmit processing "req-1"
  ∧ tasks after.1 = [{| task_search := 0%nat; task_request_id := "req-1" |}]
  ∧ ∃ p, find_search after.1 "req-1" = Some p
         ∧ sources_needed p = [linkedin]
         ∧ "gmail" ∈ js_keys (results p)
         ∧ ("gmail" ∉ needed_names p)
         ∧ js_keys (results p) ≠ needed_names p
         ∧ status p = pending.
Proof.
  cbv zeta. split; [vm_compute; reflexivity|]. split; [vm_compute; reflexivity|].
  eexists. split; [vm_compute; reflexivity|].
  split; [reflexivity|]. split; [by_compute|]. split; [by_compute|].
  split; [by_compute|reflexivity].
Qed.

(** ** The life of a status *)

Lemma heap_post_ask env now s auth body l p :
  heap s !! l = Some p → heap (post_ask env now s auth body).1.1 !! l = Some p.
Proof.
  intros Hl. destruct (post_ask env now s auth body) as [[s' r] tr] eqn:H.
  apply post_ask_state in H as [[-> _]|(q & -> & _)]; simpl; [done|].
  by apply lookup_app_l_Some.
Qed.

(** What a submission does to the entry at [l]: nothing, or the write, or
    the write and ['partial']. *)
Lemma heap_dom_results s caller requestId source snippets l p :
  heap s !! l = Some p →
  let s' := (dom_results s caller requestId source snippets).1 in
  let written :=
    with_results (js_set source (normalizeSnippets source snippets) (results p)) p in
  heap s' !! l = Some p
  ∨ (pendingSearches s !! requestId = Some l
     ∧ ((heap s' !! l = Some written ∧ allSourcesComplete written = true)
        ∨ (heap s' !! l = Some (with_status partial written)
           ∧ allSourcesComplete written = false))).
Proof.
  intros Hl. cbv zeta. unfold dom_results.
  destruct (pendingSearches s !! requestId) as [l0|] eqn:Hreg; [|by left].
  destruct (heap s !! l0) as [p0|] eqn:Hl0; [|by left].
  destruct (decide (user_id p0 ≠ caller)); [by left|].
  assert (l0 < length (heap s))%nat as Hlt by by eapply lookup_lt_Some.
  destruct (decide (l0 = l)) as [->|Hne].
  - simplify_eq. right. split; [done|].
    destruct (allSourcesComplete _) eqn:Hc; simpl;
      rewrite list_lookup_insert_eq by done; eauto.
  - left. destruct (allSourcesComplete _); simpl;
      by rewrite list_lookup_insert_ne.
Qed.

(** What the end of a task does to the entry at [l]: nothing, or the answer
    and ['complete'], or ['failed']. *)
Lemma heap_task_settles now s i env l p :
  heap s !! l = Some p →
  let s' := task_settles now s i env in
  heap s' !! l = Some p
  ∨ (∃ t, tasks s !! i = Some t ∧ task_search t = l
          ∧ ((∃ a, task_outcome p env = Some a
                   ∧ heap s' !! l = Some (with_status complete (with_answer a p)))
             ∨ (task_outcome p env = None
                ∧ heap s' !! l = Some (with_status failed p)))).
Proof.
  intros Hl. cbv zeta. unfold task_settles.
  destruct (tasks s !! i) as [t|] eqn:Hti; [|by left].
  destruct (heap s !! task_search t) as [p0|] eqn:Hl0; [|by left].
  assert (task_search t < length (heap s))%nat as Hlt by by eapply lookup_lt_Some.
  destruct (decide (task_search t = l)) as [Heq|Hne].
  - rewrite Heq in *. simplify_eq. right. exists t. split; [done|]. split; [done|].
    destruct (task_outcome p env) as [a|]; simpl;
      rewrite list_lookup_insert_eq by done; eauto.
  - left. destruct (task_outcome p0 env); simpl;
      by rewrite list_lookup_insert_ne.
Qed.

Lemma heap_timer_fires now s i : heap (timer_fires now s i) = heap s.
Proof. unfold timer_fires. repeat case_match; done. Qed.

(** C3, as amended.  In every reachable state and for every event, an entry
    stays in the heap and its status never moves back in the order
    pending, partial, processing, then complete or failed; an entry whose
    status is ['complete'] has an answer; ['failed'] is written only by the
    end of a synthesis that failed, and the answer is written only by the end
    of a synthesis that succeeded, which also writes ['complete'] -- whatever
    the status and the answer were before. *)
Theorem status_progress (now : Z) (s : State) (e : Event) (l : nat)
    (p : PendingSearch) :
  reachable s →
  heap s !! l = Some p →
  ∃ p', heap (step now s e).1 !! l = Some p'
        ∧ (rank (status p) ≤ rank (status p'))%nat
        ∧ (status p' = complete → is_Some (answer p'))
        ∧ (status p' = failed →
           status p = failed
           ∨ ∃ i env, e = TaskSettles i env ∧ task_outcome p env = None)
        ∧ (answer p' ≠ answer p →
           ∃ i env a, e = TaskSettles i env ∧ task_outcome p env = Some a
                      ∧ answer p' = Some a ∧ status p' = complete).
Proof.
  intros Hs Hl. apply reachable_consistent in Hs.
  pose proof (consistent_step now s e Hs) as Hs'.
  destruct (entries_sound _ Hs _ _ Hl) as (_ & _ & Hrank).
  assert (∃ p', heap (step now s e).1 !! l = Some p'
                ∧ (rank (status p) ≤ rank (status p'))%nat
                ∧ (status p' = failed →
                   status p = failed
                   ∨ ∃ i env, e = TaskSettles i env ∧ task_outcome p env = None)
                ∧ (answer p' ≠ answer p →
                   ∃ i env a, e = TaskSettles i env ∧ task_outcome p env = Some a
                              ∧ answer p' = Some a ∧ status p' = complete))
    as (p' & Hl' & Hle & Hfailed & Hanswer).
  { assert (∀ h : list PendingSearch, h !! l = Some p →
              ∃ p', h !! l = Some p'
                    ∧ (rank (status p) ≤ rank (status p'))%nat
                    ∧ (status p' = failed →
                       status p = failed
                       ∨ ∃ i env, e = TaskSettles i env ∧ task_outcome p env = None)
                    ∧ (answer p' ≠ answer p →
                       ∃ i env a, e = TaskSettles i env
                                  ∧ task_outcome p env = Some a
                                  ∧ answer p' = Some a ∧ status p' = complete))
      as Hsame.
    { intros h Hh. exists p. split; [done|]. split; [lia|]. split; [by left|done]. }
    destruct e; simpl.
    - pose proof (heap_post_ask env now s auth body l p Hl) as H.
      destruct (post_ask env now s auth body) as [[s' r] tr].
      by apply Hsame.
    - by apply Hsame.
    - by apply Hsame.
    - pose proof (heap_dom_results s caller requestId source snippets l p Hl) as H.
      cbv zeta in H.
      destruct (dom_results s caller requestId source snippets) as [s' r].
      simpl in *. destruct H as [H|(_ & [[H Hc]|[H Hc]])].
      + by apply Hsame.
      + eexists; split; [done|]. simpl.
        split; [lia|]. split; [by left|done].
      + eexists; split; [done|]. simpl.
        split; [|split; [done|done]].
        destruct (decide (2 ≤ rank (status p))%nat) as [Hbig|]; [|lia].
        apply Hrank, (allSourcesComplete_written source
                        (normalizeSnippets source snippets)) in Hbig.
        congruence.
    - pose proof (heap_task_settles now s i env l p Hl) as H. cbv zeta in H.
      destruct H as [H|(t & _ & _ & [(a & Ha & H)|[Hnone H]])].
      + by apply Hsame.
      + eexists; split; [done|]. simpl.
        split; [destruct (status p); simpl; lia|].
        split; [done|]. intros _. eauto 10.
      + eexists; split; [done|]. simpl.
        split; [destruct (status p); simpl; lia|].
        split; [intros _; right; eauto|done].
    - rewrite heap_timer_fires. by apply Hsame. }
  exists p'. destruct (entries_sound _ Hs' _ _ Hl') as (_ & Hans' & _).
  done.
Qed.

Lemma status_progress_witness :
  ∃ p', heap (step 10 one_pending
                (PostDomResults "alice" "req-1" "whatsapp" ["x"])).1 !! 0%nat
        = Some p'
        ∧ (rank pending ≤ rank (status p'))%nat.
Proof.
  assert (reachable one_pending) as Hs by (eexists; reflexivity).
  assert (heap one_pending !! 0%nat = Some the_pending_entry) as Hl
    by (vm_compute; reflexivity).
  destruct (status_progress 10 one_pending
              (PostDomResults "alice" "req-1" "whatsapp" ["x"]) 0%nat
              the_pending_entry Hs Hl) as (p' & H1 & H2 & _).
  exists p'. split; assumption.
Defined.

(** C3, as stated, fails.  The synthesis started by the LinkedIn submission
    fails and the entry is ['failed'], entered from the stored status
    ['pending']; a second submission and a successful synthesis then turn
    ['failed'] into ['complete']; and a third one replaces the answer of an
    entry that was already ['complete']. *)
Lemma terminal_statuses_are_left :
  let submit := PostDomResults "alice" "req-1" "linkedin" ["hello"] in
  let s1 := run one_pending [(1, submit)] in
  let s2 := run s1 [(2, TaskSettles 0 synthesis_fails)] in
  let s3 := run s2 [(3, submit); (4, TaskSettles 0 (synthesis_ok "first"))] in
  let s4 := run s3 [(5, submit); (6, TaskSettles 0 (synthesis_ok "second"))] in
  status <$> find_search s1 "req-1" = Some pending
  ∧ status <$> find_search s2 "req-1" = Some failed
  ∧ status <$> find_search s3 "req-1" = Some complete
  ∧ answer <$> find_search s3 "req-1" = Some (Some {| answer_text := "first" |})
  ∧ status <$> find_search s4 "req-1" = Some complete
  ∧ answer <$> find_search s4 "req-1" = Some (Some {| answer_text := "second" |}).
Proof. cbv zeta. repeat split; vm_compute; reflexivity. Qed.

(** ** The keys of [results] *)

Lemma js_keys_seeded hits : js_keys (seeded_results hits) = seeded_keys.
Proof.
  unfold js_keys, seeded_results, seeded_keys; simpl.
  rewrite !dom_insert_L, dom_empty_L. set_solver.
Qed.

Lemma js_keys_set k v r :
  js_keys r ⊆ js_keys (js_set k v r) ∧ js_keys (js_set k v r) ⊆ js_keys r ∪ {[ k ]}.
Proof.
  unfold js_keys, js_set. destruct (decide (k = proto_key)); simpl.
  - set_solver.
  - rewrite dom_insert_L. set_solver.
Qed.

Lemma js_keys_set_own k v r : k ≠ proto_key → k ∈ js_keys (js_set k v r).
Proof.
  intros Hk. unfold js_keys, js_set. rewrite decide_False by done; simpl.
  rewrite dom_insert_L. set_solver.
Qed.

Lemma length_heap_dom_results s caller requestId source snippets :
  length (heap (dom_results s caller requestId source snippets).1)
  = length (heap s).
Proof.
  unfold dom_results. repeat case_match; simpl; by rewrite ?length_insert.
Qed.

Lemma length_heap_task_settles now s i env :
  length (heap (task_settles now s i env)) = length (heap s).
Proof.
  unfold task_settles. repeat case_match; simpl; by rewrite ?length_insert.
Qed.

Lemma keys_within_step X now s e :
  consistent s → keys_within X s →
  keys_within (fun r => X r ∪ submitted_by r e) (step now s e).1.
Proof.
  intros Hs HX l p' Hl'. destruct e; simpl in *.
  - destruct (post_ask env now s auth body) as [[s' r] tr] eqn:H. simpl in *.
    apply post_ask_state in H as [[-> _]|(q & -> & Hq & _)]; simpl in *.
    { destruct (HX _ _ Hl') as [H1 H2]. split; [done|set_solver]. }
    apply lookup_app_Some in Hl' as [Hl'|[_ Hl']].
    { destruct (HX _ _ Hl') as [H1 H2]. split; [done|set_solver]. }
    destruct (l - length (heap s))%nat; simpl in Hl'; [|by rewrite lookup_nil in Hl'].
    simplify_eq. destruct Hq as (_ & _ & _ & _ & _ & hits & ->).
    rewrite js_keys_seeded. set_solver.
  - destruct (HX _ _ Hl') as [H1 H2]. split; [done|set_solver].
  - destruct (HX _ _ Hl') as [H1 H2]. split; [done|set_solver].
  - pose proof (length_heap_dom_results s caller requestId source snippets) as Hlen.
    destruct (heap s !! l) as [p|] eqn:Hl.
    2: { apply lookup_ge_None in Hl. apply lookup_lt_Some in Hl'.
         destruct (dom_results s caller requestId source snippets); simpl in *. lia. }
    pose proof (heap_dom_results s caller requestId source snippets l p Hl) as H.
    cbv zeta in H. destruct (dom_results s caller requestId source snippets)
      as [s' r]; simpl in *.
    destruct (HX _ _ Hl) as [H1 H2].
    destruct H as [H|(Hreg & H)].
    { simplify_eq. split; [done|set_solver]. }
    destruct (registry_sound _ Hs _ _ Hreg) as (p0 & Hp0 & Hid).
    rewrite Hl in Hp0. injection Hp0 as <-.
    pose proof (js_keys_set source (normalizeSnippets source snippets) (results p))
      as [K1 K2].
    destruct H as [[H _]|[H _]]; rewrite Hl' in H; injection H as H; subst p';
      (split; simpl;
       [clear -H1 K1; set_solver
       |rewrite decide_True by done; clear -H2 K2; set_solver]).
  - pose proof (length_heap_task_settles now s i env) as Hlen.
    destruct (heap s !! l) as [p|] eqn:Hl.
    2: { apply lookup_ge_None in Hl. apply lookup_lt_Some in Hl'. lia. }
    pose proof (heap_task_settles now s i env l p Hl) as H. cbv zeta in H.
    destruct (HX _ _ Hl) as [H1 H2].
    destruct H as [H|(t & _ & _ & [(a & _ & H)|[_ H]])]; simplify_eq; simpl;
      (split; [done|set_solver]).
  - rewrite heap_timer_fires in Hl'.
    destruct (HX _ _ Hl') as [H1 H2]. split; [done|set_solver].
Qed.

Lemma keys_within_run evs : ∀ X s,
  consistent s → keys_within X s →
  keys_within (fun r => X r ∪ submitted r evs) (run s evs).
Proof.
  induction evs as [|[now e] evs IH]; intros X s Hs HX; simpl.
  - intros l p Hl. destruct (HX _ _ Hl). split; [done|set_solver].
  - intros l p Hl.
    destruct (IH _ _ (consistent_step now s e Hs) (keys_within_step X now s e Hs HX)
                _ _ Hl) as [H1 H2].
    split; [done|set_solver].
Qed.

(** C2, as amended.  Every entry that the process ever holds has the keys
    [gmail] and [calendar] in [results], whatever its [sources_needed]; any
    further key is a source string that some dom-results call submitted for
    that request; and a submission by the owner makes its source string a
    key, needed or not (["__proto__"] apart, which never becomes a key). *)
Theorem results_keys (evs : list (Z * Event)) :
  (∀ l p, heap (run init evs) !! l = Some p →
          seeded_keys ⊆ js_keys (results p)
          ∧ js_keys (results p) ⊆ seeded_keys ∪ submitted (request_id p) evs)
  ∧ (∀ caller requestId source snippets l p,
       pendingSearches (run init evs) !! requestId = Some l →
       heap (run init evs) !! l = Some p →
       user_id p = caller →
       source ≠ proto_key →
       ∃ p', find_search
               (dom_results (run init evs) caller requestId source snippets).1
               requestId = Some p'
             ∧ source ∈ js_keys (results p')).
Proof.
  split.
  - intros l p Hl.
    assert (keys_within (fun _ => ∅) init) as H0.
    { intros l0 p0 H. simpl in H. by rewrite lookup_nil in H. }
    destruct (keys_within_run evs _ _ consistent_init H0 _ _ Hl) as [H1 H2].
    split; [done|set_solver].
  - intros caller requestId source snippets l p Hr Hl Hu Hk.
    unfold find_search. rewrite dom_results_registry, Hr. simpl.
    rewrite (dom_results_owner _ _ _ _ _ _ _ Hr Hl Hu).
    assert (l < length (heap (run init evs)))%nat as Hlt by by eapply lookup_lt_Some.
    case_match; simpl; rewrite list_lookup_insert_eq by done;
      eexists; (split; [done|]); simpl; by apply js_keys_set_own.
Qed.

Lemma results_keys_witness :
  ∃ p', find_search
          (dom_results one_pending "alice" "req-1" "tiktok" ["clip"]).1 "req-1"
        = Some p'
        ∧ "tiktok" ∈ js_keys (results p').
Proof.
  destruct (results_keys [(0, PostAsk alice a_question linkedin_world)]) as [_ H].
  apply (H "alice" "req-1" "tiktok" ["clip"] 0%nat the_pending_entry).
  - vm_compute. reflexivity.
  - vm_compute. reflexivity.
  - reflexivity.
  - discriminate.
Defined.

(** C2, as stated, fails.  The entry of [one_pending] needs LinkedIn only,
    yet its [results] has the keys [gmail] and [calendar] from the start;
    and a submission for the source ["tiktok"] adds that key. *)
Lemma keys_outside_sources_needed :
  (∃ p, find_search one_pending "req-1" = Some p
        ∧ sources_needed p = [linkedin]
        ∧ "gmail" ∈ js_keys (results p)
        ∧ ("gmail" ∉ needed_names p))
  ∧ (∃ p, find_search
            (dom_results one_pending "alice" "req-1" "tiktok" ["clip"]).1 "req-1"
          = Some p
          ∧ sources_needed p = [linkedin]
          ∧ "tiktok" ∈ js_keys (results p)
          ∧ ("tiktok" ∉ needed_names p)).
Proof.
  split; (eexists; split; [vm_compute; reflexivity|]).
  all: split; [reflexivity|]; split; by_compute.
Qed.

(** ** How an entry leaves the registry *)

Lemma registry_task_settles now s i env :
  pendingSearches (task_settles now s i env) = pendingSearches s.
Proof. unfold task_settles. repeat case_match; done. Qed.

Lemma sweep_lookup now s requestId l :
  pendingSearches (sweep now s) !! requestId = Some l
  ↔ pendingSearches s !! requestId = Some l
    ∧ expired (heap s) (now - 5 * 60 * 1000) l = false.
Proof. unfold sweep; simpl. by rewrite map_lookup_filter_Some. Qed.

Lemma timers_post_ask env now s auth body :
  timers (post_ask env now s auth body).1.1 = timers s.
Proof.
  destruct (post_ask env now s auth body) as [[s' r] tr] eqn:H. simpl.
  by apply post_ask_state in H as [[-> _]|(p & -> & _)].
Qed.

Lemma timers_dom_results s caller requestId source snippets :
  timers (dom_results s caller requestId source snippets).1 = timers s.
Proof.
  unfold dom_results.
  destruct (pendingSearches s !! requestId) as [l|]; [|done].
  destruct (heap s !! l) as [p|]; [|done].
  destruct (decide (user_id p ≠ caller)); [done|].
  cbv zeta. by destruct (allSourcesComplete _).
Qed.

(** C7, as amended.  A request id stops leading to its entry in three ways
    only.  A [POST /ask] that registers a pending search at time [now], and
    so answers ['pending'], sweeps every registration whose entry was
    created before [now - 5 min], whatever its status, leaving the id
    unknown; should it draw a request id that is in use, it rebinds that id
    to its new entry.  And a timer for the request id fires when due,
    leaving the id unknown.  No other request removes anything, nor does a
    [POST /ask] that does not register: reads never look at the age.  Such
    a registration does remove every entry that old.  A synthesis that
    succeeds at time [now] sets a timer due at [now + 30 s], and nothing
    else sets a timer; a timer deletes its request id when it fires and
    cannot fire early. *)
Theorem entry_removal (now : Z) (s : State) (e : Event) (requestId : string)
    (l : nat) (p : PendingSearch) :
  pendingSearches s !! requestId = Some l →
  heap s !! l = Some p →
  (pendingSearches (step now s e).1 !! requestId ≠ Some l →
     (∃ auth body env needed instrs,
        e = PostAsk auth body env
        ∧ (step now s e).2 = Some (ReplyPending (randomUUID env) needed instrs)
        ∧ ((randomUUID env ≠ requestId
            ∧ created_at p < now - 5 * 60 * 1000
            ∧ pendingSearches (step now s e).1 !! requestId = None)
           ∨ (randomUUID env = requestId
              ∧ pendingSearches (step now s e).1 !! requestId
                = Some (length (heap s)))))
     ∨ (∃ i t, e = TimerFires i ∧ timers s !! i = Some t
               ∧ timer_request_id t = requestId ∧ timer_due t ≤ now
               ∧ pendingSearches (step now s e).1 !! requestId = None))
  ∧ (∀ auth body env id needed instrs,
       e = PostAsk auth body env →
       (step now s e).2 = Some (ReplyPending id needed instrs) →
       created_at p < now - 5 * 60 * 1000 →
       pendingSearches (step now s e).1 !! requestId ≠ Some l)
  ∧ (∀ i env t q a,
       tasks s !! i = Some t → heap s !! task_search t = Some q →
       task_outcome q env = Some a →
       pendingSearches (task_settles now s i env) = pendingSearches s
       ∧ timers (task_settles now s i env)
         = (timers s ++ [{| timer_due := now + 30000;
                            timer_request_id := task_request_id t |}])%list)
  ∧ (∀ i t, timers s !! i = Some t →
       (timer_due t ≤ now →
          pendingSearches (timer_fires now s i) !! timer_request_id t = None)
       ∧ (now < timer_due t → timer_fires now s i = s))
  ∧ (∀ t, t ∈ timers (step now s e).1 →
          t ∈ timers s
          ∨ ∃ i env tk q a,
              e = TaskSettles i env
              ∧ tasks s !! i = Some tk
              ∧ heap s !! task_search tk = Some q
              ∧ task_outcome q env = Some a
              ∧ t = {| timer_due := now + 30000;
                       timer_request_id := task_request_id tk |}).
Proof.
  intros Hr Hl. split; [|split; [|split; [|split]]].
  - intros Hgone. destruct e; simpl in Hgone |- *.
    + left.
      destruct (post_ask env now s auth body) as [[s' r] tr] eqn:H. simpl in *.
      apply post_ask_state in H as [[-> _]|(q & -> & Hq & ->)]; [done|].
      exists auth, body, env. do 2 eexists. split; [done|]. split; [done|].
      destruct (decide (randomUUID env = requestId)) as [Heq|Hne].
      * right. split; [done|]. subst requestId.
        destruct Hq as (_ & _ & _ & _ & Hnow & _).
        apply sweep_lookup. simpl. split; [apply lookup_insert_eq|].
        unfold expired. rewrite lookup_app_r, Nat.sub_diag by done. simpl.
        apply bool_decide_eq_false. lia.
      * left. split; [done|].
        destruct (decide (created_at p < now - 5 * 60 * 1000)) as [Hold|Hyoung].
        -- split; [done|].
           destruct (pendingSearches (sweep now (register (randomUUID env) q s))
                       !! requestId) as [l'|] eqn:E; [|done].
           apply sweep_lookup in E as [E Hexp]. simpl in E, Hexp.
           rewrite lookup_insert_ne in E by done. by simplify_eq.
        -- exfalso. apply Hgone. apply sweep_lookup. simpl. split.
           ++ by rewrite lookup_insert_ne.
           ++ unfold expired. rewrite (lookup_app_l_Some _ _ _ _ Hl).
              by apply bool_decide_eq_false.
    + done.
    + done.
    + exfalso. apply Hgone.
      pose proof (dom_results_registry s caller requestId0 source snippets) as H.
      destruct (dom_results s caller requestId0 source snippets). simpl in *.
      by rewrite H.
    + exfalso. apply Hgone. by rewrite registry_task_settles.
    + right. unfold timer_fires in Hgone |- *.
      destruct (timers s !! i) as [t|] eqn:Hti; [|done].
      case_bool_decide as Hdue; [|done]. simpl in Hgone |- *.
      destruct (decide (timer_request_id t = requestId)) as [Heq|Hne].
      * exists i, t. subst requestId. rewrite lookup_delete_eq. done.
      * exfalso. apply Hgone. by rewrite lookup_delete_ne.
  - intros auth body env id needed instrs -> Hreply Hold. simpl in *.
    destruct (post_ask env now s auth body) as [[s' r] tr] eqn:H. simpl in *.
    apply post_ask_state in H as [[-> Hno]|(q & -> & _ & Hq)].
    + by simplify_eq.
    + intros Hstill. apply sweep_lookup in Hstill as [_ Hexp]. simpl in Hexp.
      unfold expired in Hexp. rewrite (lookup_app_l_Some _ _ _ _ Hl) in Hexp.
      by apply bool_decide_eq_false in Hexp.
  - intros i env t q a Hti Hq Ha. unfold task_settles. by rewrite Hti, Hq, Ha.
  - intros i t Hti. unfold timer_fires. rewrite Hti. split; intros Hdue.
    + rewrite bool_decide_eq_true_2 by done. simpl. apply lookup_delete_eq.
    + rewrite bool_decide_eq_false_2 by lia. done.
  - intros t Ht. destruct e; simpl in Ht.
    + left. pose proof (timers_post_ask env now s auth body) as H.
      destruct (post_ask env now s auth body) as [[s' r] tr]. simpl in *.
      by rewrite <- H.
    + by left.
    + by left.
    + left.
      pose proof (timers_dom_results s caller requestId0 source snippets) as H.
      destruct (dom_results s caller requestId0 source snippets). simpl in *.
      by rewrite <- H.
    + unfold task_settles in Ht.
      destruct (tasks s !! i) as [tk|] eqn:Hti; [|by left].
      destruct (heap s !! task_search tk) as [q|] eqn:Hq; [|by left].
      destruct (task_outcome q env) as [a|] eqn:Ha; [|by left].
      simpl in Ht. apply elem_of_app in Ht as [Ht|Ht]; [by left|].
      apply list_elem_of_singleton in Ht. right. eauto 10.
    + left. unfold timer_fires in Ht.
      destruct (timers s !! i) as [t'|]; [|done].
      case_bool_decide; [|done]. simpl in Ht.
      by apply list_elem_of_delete_inv in Ht.
Qed.

Lemma entry_removal_witness :
  pendingSearches
    (step 400000 one_pending
       (PostAsk alice a_question
          (a_world "req-2" 500000 400000 true
             (an_analysis false false true false (Some ["bob"]) None)
             (Returns "token-2") (fun _ => Returns []) (fun _ => Returns [])))).1
    !! "req-1" ≠ Some 0%nat.
Proof.
  assert (pendingSearches one_pending !! "req-1" = Some 0%nat) as Hr
    by (vm_compute; reflexivity).
  assert (heap one_pending !! 0%nat = Some the_pending_entry) as Hl
    by (vm_compute; reflexivity).
  pose proof (entry_removal 400000 one_pending
                (PostAsk alice a_question
                   (a_world "req-2" 500000 400000 true
                      (an_analysis false false true false (Some ["bob"]) None)
                      (Returns "token-2") (fun _ => Returns [])
                      (fun _ => Returns [])))
                "req-1" 0%nat the_pending_entry Hr Hl) as (_ & H & _).
  eapply H.
  - reflexivity.
  - vm_compute. reflexivity.
  - vm_compute. reflexivity.
Defined.

(** C7, as stated, fails, in both halves.  The entry of [one_pending] was
    created at time 0 and never completes; with no registration in between,
    a read five minutes later, or an hour later, still finds it.  Let it
    complete at 300000 instead: its timer is due at 330000, yet the
    registration of another request at 310000 sweeps it, being more than
    five minutes old, and the poll answers 404 twenty seconds before the
    30 seconds are over.  And an entry whose synthesis failed has no timer
    at all: an hour later it is still read as ['failed']. *)
Lemma expiry_terms_are_not_kept :
  created_at <$> find_search one_pending "req-1" = Some 0
  ∧ (step (5 * 60 * 1000) one_pending (GetAsk "alice" "req-1")).2
    = Some (ReplyPoll pending "req-1" [linkedin] None)
  ∧ (step (60 * 60 * 1000) one_pending (GetAskStatus "alice" "req-1")).2
    = Some (ReplyPoll pending "req-1" [linkedin] None)
  ∧ (let completed :=
       run one_pending
         [(299000, PostDomResults "alice" "req-1" "linkedin" ["hello"]);
          (300000, TaskSettles 0 (synthesis_ok "done"))] in
     let swept := run completed [(310000, PostAsk alice a_question later_world)] in
     get_ask completed "alice" "req-1"
     = ReplyPoll complete "req-1" [linkedin] (Some {| answer_text := "done" |})
     ∧ timers completed = [{| timer_due := 330000; timer_request_id := "req-1" |}]
     ∧ get_ask swept "alice" "req-1" = not_found
     ∧ timers swept = timers completed)
  ∧ (step (60 * 60 * 1000) one_failed (GetAsk "alice" "req-1")).2
    = Some (ReplyPoll failed "req-1" [linkedin] None)
  ∧ timers one_failed = [].
Proof.
  cbv zeta. repeat match goal with |- _ ∧ _ => split end; vm_compute; reflexivity.
Qed.

(** ** Traces *)

Lemma calls_app f t1 t2 : calls f (t1 ++ t2) = (calls f t1 ++ calls f t2)%list.
Proof.
  induction t1 as [|c t1 IH]; simpl; [done|].
  destruct (f c); simpl; by rewrite IH.
Qed.

Lemma count_app f t1 t2 : count f (t1 ++ t2) = (count f t1 + count f t2)%nat.
Proof. unfold count. by rewrite calls_app, length_app. Qed.

(** ** The refresh, seen from outside *)

Lemma refreshAndUpdateToken_spec env uid rt l :
  ∃ o delta,
    refreshAndUpdateToken env uid rt l = (o, with_trace (trace l ++ delta) l)
    ∧ calls is_refresh delta = [RefreshAccessToken rt]
    ∧ calls is_search_gmail delta = []
    ∧ calls is_get_calendar delta = []
    ∧ calls is_synthesize delta = []
    ∧ match refreshed_token env (count is_refresh (trace l))
                            (count is_update_connection (trace l)) rt with
      | Some t => o = Returns t
      | None => ∃ e, o = Throws e
      end.
Proof.
  unfold refreshAndUpdateToken, call_refreshAccessToken, call_updateConnection,
    refreshed_token.
  unfold_m. simpl. rewrite !count_app. simpl. rewrite !Nat.add_0_r.
  destruct (refreshAccessToken env _ rt) as [t|e]; simpl.
  2: { eexists _, [_; _; _]. unfold with_trace; simpl.
       rewrite <- !(assoc_L (++)). simpl. repeat split; eauto. }
  destruct (decide (t = "")); simpl.
  { eexists _, [_; _; _]. unfold with_trace; simpl.
    rewrite <- !(assoc_L (++)). simpl. repeat split; eauto. }
  destruct (supabaseAdmin env); simpl.
  2: { eexists _, [_; _]. unfold with_trace; simpl.
       rewrite <- !(assoc_L (++)). simpl. repeat split; eauto. }
  rewrite !count_app. simpl. rewrite !Nat.add_0_r.
  destruct (updateConnection_throws env _) as [e|]; simpl.
  - eexists _, [_; _; _; _]. unfold with_trace; simpl.
    rewrite <- !(assoc_L (++)). simpl. repeat split; eauto.
  - eexists _, [_; _; _]. unfold with_trace; simpl.
    rewrite <- !(assoc_L (++)). simpl. repeat split; eauto.
Qed.

(** ** The retry policy *)

Ltac tidy_trace :=
  rewrite ?calls_app, ?length_app; simpl; rewrite ?Nat.add_0_r, ?app_nil_r.

Ltac tidy_trace_in H :=
  rewrite ?calls_app, ?length_app in H; simpl in H;
  rewrite ?Nat.add_0_r, ?app_nil_r in H.

Lemma fetch_gmail_spec env uid rt q l :
  ∃ l', fetch_gmail env uid rt q l = (Returns tt, l')
        ∧ sourcesNeeded l' = (sourcesNeeded l ++ [gmail])%list
        ∧ domInstructions l' = domInstructions l
        ∧ calls is_get_calendar (trace l') = calls is_get_calendar (trace l)
        ∧ calls is_synthesize (trace l') = calls is_synthesize (trace l)
        ∧ match planGmailQuery env with
          | Returns plan =>
              retry_once_policy env rt is_search_gmail
                (fun token => SearchGmail token (gmailQuery plan) (maxResults_for plan))
                (fun k token => searchGmail env k token (gmailQuery plan)
                                            (maxResults_for plan))
                (normalizeGmailResults env) l l'
          | Throws _ => no_fetch is_search_gmail l l'
          end.
Proof.
  unfold fetch_gmail, call_searchGmail, retry_once_policy, no_fetch.
  unfold_m. unfold count. simpl.
  destruct (planGmailQuery env) as [plan|e0]; simpl.
  2: { eexists. split; [reflexivity|]. simpl. tidy_trace. done. }
  tidy_trace.
  destruct (searchGmail env _ _ _ _) as [msgs|e] eqn:Hfirst; simpl.
  { eexists. split; [reflexivity|]. simpl. tidy_trace. done. }
  destruct (isUnauthorized e); simpl.
  2: { eexists. split; [reflexivity|]. simpl. tidy_trace. done. }
  match goal with
  | |- context [refreshAndUpdateToken env uid rt ?L] =>
      destruct (refreshAndUpdateToken_spec env uid rt L)
        as (o & delta & -> & Hr & Hg & Hc & Hs & Ho)
  end.
  unfold count in Ho. simpl in Ho. tidy_trace_in Ho.
  destruct (refreshed_token env _ _ rt) as [fresh|].
  - subst o. simpl. tidy_trace. rewrite Hg. simpl. rewrite Nat.add_0_r, Nat.add_1_r.
    destruct (searchGmail env (S _) fresh _ _) as [msgs|e2]; simpl.
    + eexists. split; [reflexivity|]. simpl. tidy_trace.
      rewrite Hr, Hg, Hc, Hs. simpl. tidy_trace. rewrite <- ?(assoc_L (++)). done.
    + eexists. split; [reflexivity|]. simpl. tidy_trace.
      rewrite Hr, Hg, Hc, Hs. simpl. tidy_trace. rewrite <- ?(assoc_L (++)). done.
  - destruct Ho as [e2 ->]. simpl.
    eexists. split; [reflexivity|]. simpl. tidy_trace.
    rewrite Hr, Hg, Hc, Hs. simpl. tidy_trace. done.
Qed.

Lemma fetch_calendar_spec env uid rt analysis l :
  ∃ l', fetch_calendar env uid rt analysis l = (Returns tt, l')
        ∧ sourcesNeeded l' = (sourcesNeeded l ++ [calendar])%list
        ∧ domInstructions l' = domInstructions l
        ∧ calls is_search_gmail (trace l') = calls is_search_gmail (trace l)
        ∧ calls is_synthesize (trace l') = calls is_synthesize (trace l)
        ∧ retry_once_policy env rt is_get_calendar
            (fun token => GetCalendarEvents token (calendar_start analysis)
                                            (calendar_end analysis))
            (fun k token => getCalendarEvents env k token (calendar_start analysis)
                                              (calendar_end analysis))
            (normalizeCalendarResults env) l l'.
Proof.
  unfold fetch_calendar, call_getCalendarEvents, retry_once_policy.
  unfold_m. unfold count. simpl. tidy_trace.
  destruct (getCalendarEvents env _ _ _ _) as [events|e] eqn:Hfirst; simpl.
  { eexists. split; [reflexivity|]. simpl. tidy_trace. done. }
  destruct (isUnauthorized e); simpl.
  2: { eexists. split; [reflexivity|]. simpl. tidy_trace. done. }
  match goal with
  | |- context [refreshAndUpdateToken env uid rt ?L] =>
      destruct (refreshAndUpdateToken_spec env uid rt L)
        as (o & delta & -> & Hr & Hg & Hc & Hs & Ho)
  end.
  unfold count in Ho. simpl in Ho. tidy_trace_in Ho.
  destruct (refreshed_token env _ _ rt) as [fresh|].
  - subst o. simpl. tidy_trace. rewrite Hc. simpl. rewrite Nat.add_0_r, Nat.add_1_r.
    destruct (getCalendarEvents env (S _) fresh _ _) as [events|e2]; simpl.
    + eexists. split; [reflexivity|]. simpl. tidy_trace.
      rewrite Hr, Hg, Hc, Hs. simpl. tidy_trace. rewrite <- ?(assoc_L (++)). done.
    + eexists. split; [reflexivity|]. simpl. tidy_trace.
      rewrite Hr, Hg, Hc, Hs. simpl. tidy_trace. rewrite <- ?(assoc_L (++)). done.
  - destruct Ho as [e2 ->]. simpl.
    eexists. split; [reflexivity|]. simpl. tidy_trace.
    rewrite Hr, Hg, Hc, Hs. simpl. tidy_trace. done.
Qed.

(** ** Before the outer [try] *)

Lemma quiet_refl l : quiet l l.
Proof. by repeat split. Qed.

Ltac leaf := eexists _, _; split; [reflexivity|]; unfold quiet; simpl;
             tidy_trace; done.

Lemma load_conversation_spec env auth cid l :
  ∃ x l', load_conversation env auth cid l = (Returns x, l') ∧ quiet l l'.
Proof.
  unfold load_conversation, truthy. unfold_m. simpl.
  destruct (nonempty cid) as [c|] eqn:Hc; simpl.
  - destruct (selectConversation env) as [conversation|]; simpl.
    + case_bool_decide; simpl.
      * destruct (insertConversation env); leaf.
      * rewrite Hc. simpl. leaf.
    + destruct (insertConversation env); leaf.
  - rewrite Hc. simpl. destruct (insertConversation env); leaf.
Qed.

Lemma proactive_refresh_spec env auth conn tokens l :
  ∃ usable l',
    proactive_refresh env auth conn tokens l = (Returns usable, l')
    ∧ calls is_search_gmail (trace l') = calls is_search_gmail (trace l)
    ∧ calls is_get_calendar (trace l') = calls is_get_calendar (trace l)
    ∧ calls is_synthesize (trace l') = calls is_synthesize (trace l)
    ∧ sync_results l' = sync_results l
    ∧ sourcesNeeded l' = sourcesNeeded l
    ∧ domInstructions l' = domInstructions l
    ∧ if needs_refresh (token_expires_at conn) (now_token_check env)
      then calls is_refresh (trace l')
           = (calls is_refresh (trace l)
              ++ [RefreshAccessToken (refresh_token tokens)])%list
           ∧ match refreshed_token env (count is_refresh (trace l))
                     (count is_update_connection (trace l))
                     (refresh_token tokens) with
             | Some fresh => usable = true ∧ accessToken l' = fresh
             | None => usable = false
             end
      else calls is_refresh (trace l') = calls is_refresh (trace l)
           ∧ usable = true ∧ accessToken l' = access_token tokens.
Proof.
  unfold proactive_refresh. unfold_m. simpl.
  destruct (needs_refresh _ _); simpl.
  2: { eexists _, _. split; [reflexivity|]. simpl. done. }
  match goal with
  | |- context [refreshAndUpdateToken env ?uid ?rt ?L] =>
      destruct (refreshAndUpdateToken_spec env uid rt L)
        as (o & delta & -> & Hr & Hg & Hc & Hs & Ho)
  end.
  simpl in Ho.
  destruct (refreshed_token env _ _ _) as [fresh|].
  - subst o. simpl. eexists _, _. split; [reflexivity|]. simpl. tidy_trace.
    rewrite Hr, Hg, Hc, Hs. tidy_trace. done.
  - destruct Ho as [e ->]. simpl. eexists _, _. split; [reflexivity|]. simpl.
    tidy_trace. rewrite Hr, Hg, Hc, Hs. tidy_trace. done.
Qed.

(** A request with a valid body, a connection and readable tokens gets to
    the token check, having called no provider for tokens, mail or events. *)
Lemma prelude_spec env auth body l conn tokens :
  valid_body env body = true →
  selectConnection env = Some conn →
  decryptTokens env (stored_tokens conn) = Some tokens →
  ∃ conv l0,
    quiet l l0
    ∧ prelude env auth body l
      = match proactive_refresh env auth conn tokens l0 with
        | (Returns true, l') =>
            (Returns (inr {| conversationHistory := conv.1;
                             currentConversationId := conv.2;
                             decryptedTokens := tokens |}), l')
        | (Returns false, l') => (Returns (inl token_refresh_failed), l')
        | (Throws e, l') => (Throws e, l')
        end.
Proof.
  intros Hv Hc Hd. unfold prelude. rewrite Hv. simpl.
  destruct (load_conversation_spec env auth (body_conversationId body) l)
    as (conv & l1 & Hload & Hq).
  unfold bind at 1. rewrite Hload. rewrite Hc.
  unfold stored_tokens in Hd.
  unfold_m. simpl. rewrite Hd.
  destruct Hq as (Q1 & Q2 & Q3 & Q4 & Q5 & Q6 & Q7 & Q8 & Q9).
  destruct (insertUsageEvent_error env); simpl;
    match goal with
    | |- context [proactive_refresh env auth conn tokens ?L] =>
        exists conv, L; split;
        [|destruct (proactive_refresh env auth conn tokens L) as [[[]|] ?];
          reflexivity]
    end;
    unfold quiet; simpl; tidy_trace; done.
Qed.

(** C9, as amended.  The token check refreshes exactly when the stored
    expiry is absent or strictly earlier than the current time; an expiry
    equal to the current time does not refresh.  It makes that one refresh
    call and no fetch.  When the refresh that was due yields no token, a
    request that got as far as the check is answered 400
    [TOKEN_REFRESH_FAILED], the store is untouched, and no mail search, no
    calendar fetch and no synthesis was called. *)
Theorem proactive_refresh_rule (env : AskEnv) (auth : AuthenticatedRequest)
    (conn : Connection) (tokens : Tokens) (l : Locals) :
  let expiry := token_expires_at conn in
  let checked_at := now_token_check env in
  (needs_refresh expiry checked_at = true
   ↔ expiry = None ∨ ∃ t, expiry = Some (Instant t) ∧ t < checked_at)
  ∧ (∃ usable l',
       proactive_refresh env auth conn tokens l = (Returns usable, l')
       ∧ calls is_refresh (trace l')
         = (calls is_refresh (trace l)
            ++ if needs_refresh expiry checked_at
               then [RefreshAccessToken (refresh_token tokens)] else [])%list
       ∧ calls is_search_gmail (trace l') = calls is_search_gmail (trace l)
       ∧ calls is_get_calendar (trace l') = calls is_get_calendar (trace l))
  ∧ (∀ now s body,
       valid_body env body = true →
       selectConnection env = Some conn →
       decryptTokens env (stored_tokens conn) = Some tokens →
       needs_refresh expiry checked_at = true →
       refreshed_token env 0 0 (refresh_token tokens) = None →
       ∃ tr, post_ask env now s auth body = (s, token_refresh_failed, tr)
             ∧ calls is_refresh tr = [RefreshAccessToken (refresh_token tokens)]
             ∧ calls is_search_gmail tr = []
             ∧ calls is_get_calendar tr = []
             ∧ calls is_synthesize tr = []).
Proof.
  cbv zeta. split; [|split].
  - unfold needs_refresh. destruct (token_expires_at conn) as [[|t]|].
    + split; [done|]. intros [?|(t & ? & _)]; done.
    + rewrite bool_decide_eq_true. split.
      * intros Ht. right. eauto.
      * intros [?|(t' & ? & Ht)]; [done|]. by simplify_eq.
    + split; [by left|done].
  - destruct (proactive_refresh_spec env auth conn tokens l)
      as (usable & l' & Heq & Hg & Hc & _ & _ & _ & _ & H).
    exists usable, l'. split; [done|]. split; [|done].
    destruct (needs_refresh _ _).
    + by destruct H as [-> _].
    + destruct H as [-> _]. by rewrite app_nil_r.
  - intros now s body Hv Hconn Hd Hneed Hnone.
    destruct (prelude_spec env auth body no_locals conn tokens Hv Hconn Hd)
      as (conv & l0 & Hq & Hpre).
    destruct Hq as (Q1 & Q2 & Q3 & Q4 & Q5 & _).
    destruct (proactive_refresh_spec env auth conn tokens l0)
      as (usable & l' & Heq & Hg & Hc & Hs & _ & _ & _ & H).
    rewrite Hneed in H. unfold count in H. rewrite Q1, Q2 in H. simpl in H.
    rewrite Hnone in H. destruct H as [Hr ->].
    rewrite Heq in Hpre.
    exists (trace l'). unfold post_ask, ask_handler. unfold bind at 1.
    rewrite Hpre. unfold ret. split; [done|].
    rewrite Hr, Hg, Hc, Hs, ?Q1, ?Q3, ?Q4, ?Q5. done.
Qed.

Lemma proactive_refresh_rule_witness :
  ∃ tr, post_ask expired_world 2000 init alice a_question
        = (init, token_refresh_failed, tr)
        ∧ calls is_refresh tr = [RefreshAccessToken "refresh-1"]
        ∧ calls is_search_gmail tr = []
        ∧ calls is_get_calendar tr = []
        ∧ calls is_synthesize tr = [].
Proof.
  pose proof (proactive_refresh_rule expired_world alice
                {| stored_access_token := "enc-access";
                   stored_refresh_token := "enc-refresh";
                   token_expires_at := Some (Instant 500) |}
                {| access_token := "token-1"; refresh_token := "refresh-1" |}
                no_locals) as H.
  cbv zeta in H. destruct H as (_ & _ & H).
  apply (H 2000 init a_question); vm_compute; reflexivity.
Defined.

(** C9, as stated, fails.  The stored expiry equals the current time, which
    the claim counts as a reason to refresh; the handler does not refresh
    and searches with the stored token. *)
Lemma token_expiring_now_is_used :
  token_expires_at <$> selectConnection expiring_now_world
  = Some (Some (Instant 1000))
  ∧ now_token_check expiring_now_world = 1000
  ∧ needs_refresh (Some (Instant 1000)) 1000 = false
  ∧ let '(_, reply, tr) :=
      post_ask expiring_now_world 2000 init alice a_question in
    calls is_refresh tr = []
    ∧ calls is_search_gmail tr = [SearchGmail "token-1" "from:bob" 10]
    ∧ is_pending_reply reply = false.
Proof. vm_compute. repeat split; reflexivity. Qed.

(** ** Gathering the sources *)

Lemma retry_once_policy_yield {A} env rt is_call the_call
    (fetch : nat → string → Outcome A) normalize l l' :
  retry_once_policy env rt is_call the_call fetch normalize l l' →
  ∃ y, sync_results l' = (sync_results l ++ y)%list
       ∧ (y = [] ∨ ∃ k token a, fetch k token = Returns a ∧ y = normalize a).
Proof.
  unfold retry_once_policy.
  destruct (fetch _ (accessToken l)) as [a|e] eqn:Hfirst.
  { intros (_ & _ & _ & H). eauto 10. }
  destruct (isUnauthorized e).
  2: { intros (_ & _ & _ & H). exists []. rewrite app_nil_r. eauto. }
  intros [_ H]. destruct (refreshed_token env _ _ rt) as [fresh|].
  - destruct H as (_ & _ & H).
    destruct (fetch (S _) fresh) as [a|e2] eqn:Hsecond; eauto 10.
  - destruct H as (_ & _ & H). exists []. rewrite app_nil_r. eauto.
Qed.

Lemma gather_spec env auth rt q requestId flags a l :
  ∃ vars g c,
    gather env auth rt q requestId flags a l = (Returns tt, vars)
    ∧ sourcesNeeded vars = (sourcesNeeded l ++ sources_for a)%list
    ∧ domInstructions vars = (domInstructions l ++ instructions_for requestId a)%list
    ∧ sync_results vars = (sync_results l ++ g ++ c)%list
    ∧ gmail_yield env g ∧ calendar_yield env c
    ∧ calls is_synthesize (trace vars) = calls is_synthesize (trace l).
Proof.
  assert (∃ l1 g, when (needsGmail a) (fetch_gmail env (userId auth) rt q) l
                  = (Returns tt, l1)
                  ∧ sourcesNeeded l1
                    = (sourcesNeeded l ++ if needsGmail a then [gmail] else [])%list
                  ∧ domInstructions l1 = domInstructions l
                  ∧ sync_results l1 = (sync_results l ++ g)%list
                  ∧ gmail_yield env g
                  ∧ calls is_synthesize (trace l1) = calls is_synthesize (trace l))
    as (l1 & g & E1 & S1 & D1 & R1 & G1 & Y1).
  { unfold when. destruct (needsGmail a).
    2: { exists l, []. rewrite !app_nil_r. unfold gmail_yield. eauto 10. }
    destruct (fetch_gmail_spec env (userId auth) rt q l)
      as (l1 & E & S & D & _ & Y & P).
    destruct (planGmailQuery env) as [plan|e].
    - apply retry_once_policy_yield in P as (g & R & [->|(k & token & msgs & Hk & ->)]).
      + exists l1, []. unfold gmail_yield. eauto 10.
      + exists l1, (normalizeGmailResults env msgs). unfold gmail_yield.
        repeat split; eauto 10.
    - destruct P as (_ & _ & _ & R). exists l1, []. rewrite app_nil_r.
      unfold gmail_yield. eauto 10. }
  assert (∃ l2 c, when (needsCalendar a) (fetch_calendar env (userId auth) rt a) l1
                  = (Returns tt, l2)
                  ∧ sourcesNeeded l2
                    = (sourcesNeeded l1 ++ if needsCalendar a then [calendar] else [])%list
                  ∧ domInstructions l2 = domInstructions l1
                  ∧ sync_results l2 = (sync_results l1 ++ c)%list
                  ∧ calendar_yield env c
                  ∧ calls is_synthesize (trace l2) = calls is_synthesize (trace l1))
    as (l2 & c & E2 & S2 & D2 & R2 & G2 & Y2).
  { unfold when. destruct (needsCalendar a).
    2: { exists l1, []. rewrite !app_nil_r. unfold calendar_yield. eauto 10. }
    destruct (fetch_calendar_spec env (userId auth) rt a l1)
      as (l2 & E & S & D & _ & Y & P).
    apply retry_once_policy_yield in P as (c & R & [->|(k & token & evs & Hk & ->)]).
    - exists l2, []. unfold calendar_yield. eauto 10.
    - exists l2, (normalizeCalendarResults env evs). unfold calendar_yield.
      repeat split; eauto 10. }
  unfold gather. unfold bind at 1. rewrite E1. unfold bind at 1. rewrite E2.
  unfold sources_for, instructions_for.
  exists (let '(_, v) :=
            (when (needsLinkedIn a && has_length (linkedInKeywords a))
               (push_sourcesNeeded linkedin;;
                push_domInstructions
                  {| instr_request_id := requestId; instr_source := linkedin;
                     instr_keywords := default [] (linkedInKeywords a) |});;
             when (needsWhatsApp a && has_length (whatsAppKeywords a))
               (push_sourcesNeeded whatsapp;;
                push_domInstructions
                  {| instr_request_id := requestId; instr_source := whatsapp;
                     instr_keywords := default [] (whatsAppKeywords a) |});;
             when (negb (enableAsyncMode flags)
                   && (needsLinkedIn a || needsWhatsApp a))
               (emit (LogInfo "Async mode disabled - returning sync response with Gmail/Calendar only")))
              l2 in v), g, c.
  unfold_m.
  destruct (needsLinkedIn a && has_length (linkedInKeywords a));
    destruct (needsWhatsApp a && has_length (whatsAppKeywords a));
    destruct (negb (enableAsyncMode flags) && (needsLinkedIn a || needsWhatsApp a));
    simpl; rewrite ?S2, ?S1, ?D2, ?D1, ?R2, ?R1; tidy_trace;
    rewrite ?Y2, ?Y1, <- ?(assoc_L (++)); done.
Qed.

(** C4, as amended.  Each of the two synchronous fetches of [POST /ask]
    always returns to the handler, whatever its calls do, and follows
    [retry_once_policy]: a first answer is used; an error that is no 401
    ends the fetch without a refresh; a 401 is followed by exactly one
    refresh and, if that refresh yields a token, by exactly one more call,
    made with the new token, whose answer or error is final; if the refresh
    yields no token the call is not repeated.  A fetch that ends in an error
    adds no hits.  So the steps that gather the sources never throw. *)
Theorem fetch_retries_once (env : AskEnv) (auth : AuthenticatedRequest)
    (rt q requestId : string) (flags : FeatureFlags) (analysis : QueryAnalysis)
    (l : Locals) :
  (∃ l', fetch_gmail env (userId auth) rt q l = (Returns tt, l')
         ∧ sourcesNeeded l' = (sourcesNeeded l ++ [gmail])%list
         ∧ match planGmailQuery env with
           | Returns plan =>
               retry_once_policy env rt is_search_gmail
                 (fun token => SearchGmail token (gmailQuery plan) (maxResults_for plan))
                 (fun k token => searchGmail env k token (gmailQuery plan)
                                             (maxResults_for plan))
                 (normalizeGmailResults env) l l'
           | Throws _ => no_fetch is_search_gmail l l'
           end)
  ∧ (∃ l', fetch_calendar env (userId auth) rt analysis l = (Returns tt, l')
           ∧ sourcesNeeded l' = (sourcesNeeded l ++ [calendar])%list
           ∧ retry_once_policy env rt is_get_calendar
               (fun token => GetCalendarEvents token (calendar_start analysis)
                                               (calendar_end analysis))
               (fun k token => getCalendarEvents env k token
                                 (calendar_start analysis) (calendar_end analysis))
               (normalizeCalendarResults env) l l')
  ∧ (∃ vars, gather env auth rt q requestId flags analysis l = (Returns tt, vars)).
Proof.
  split; [|split].
  - destruct (fetch_gmail_spec env (userId auth) rt q l)
      as (l' & H1 & H2 & _ & _ & _ & H3).
    eauto.
  - destruct (fetch_calendar_spec env (userId auth) rt analysis l)
      as (l' & H1 & H2 & _ & _ & _ & H3).
    eauto.
  - destruct (gather_spec env auth rt q requestId flags analysis l)
      as (vars & _ & _ & H & _).
    eauto.
Qed.

(** C4, as stated, fails.  In [refresh_fails_world] the search is answered
    401 and the one refresh throws: the search is not made a second time,
    so there is one refresh and no retry.  The request is answered all the
    same, from no hits. *)
Lemma unauthorized_without_retry :
  let '(_, reply, tr) := post_ask refresh_fails_world 2000 init alice a_question in
  calls is_refresh tr = [RefreshAccessToken "refresh-1"]
  ∧ calls is_search_gmail tr = [SearchGmail "token-1" "from:bob" 10]
  ∧ calls is_synthesize tr = [SynthesizeAnswer "what did bob say" []]
  ∧ reply = ReplyComplete "req-9" {| answer_text := "an answer" |} [gmail] None.
Proof. vm_compute. repeat split; reflexivity. Qed.

Lemma process_query_run env now s auth rt q requestId hist cid l flags raw :
  getFeatureFlags env = Returns flags →
  analyzeQuery env = Returns raw →
  let a := spread raw (filterAnalysisByFlags env raw flags) in
  ∃ vars g c,
    sourcesNeeded vars = (sourcesNeeded l ++ sources_for a)%list
    ∧ domInstructions vars = (domInstructions l ++ instructions_for requestId a)%list
    ∧ sync_results vars = (sync_results l ++ g ++ c)%list
    ∧ gmail_yield env g ∧ calendar_yield env c
    ∧ calls is_synthesize (trace vars) = calls is_synthesize (trace l)
    ∧ process_query env now s auth rt q requestId hist cid l
      = if enableAsyncMode flags && (needsLinkedIn a || needsWhatsApp a)
        then register_pending now s auth q requestId cid a vars
        else synthesize_reply env s q requestId hist cid vars.
Proof.
  intros Hff Haq a. unfold process_query. unfold_m. rewrite Hff, Haq. simpl.
  fold a.
  match goal with
  | |- context [gather env auth rt q requestId flags a ?L] =>
      destruct (gather_spec env auth rt q requestId flags a L)
        as (vars & g & c & -> & S & D & R & G & C & Y)
  end.
  simpl in *. tidy_trace_in Y.
  exists vars, g, c. repeat split; try done.
  by case_match.
Qed.

(** A run of the body that returns did get its flags and its analysis. *)
Lemma process_query_returned env now s auth rt q requestId hist cid l x l' :
  process_query env now s auth rt q requestId hist cid l = (Returns x, l') →
  ∃ flags raw, getFeatureFlags env = Returns flags ∧ analyzeQuery env = Returns raw.
Proof.
  unfold process_query. intros H.
  apply bind_Returns in H as (flags & l1 & Hff & H).
  apply bind_Returns in H as (? & ? & _ & H).
  apply bind_Returns in H as (? & ? & _ & H).
  apply bind_Returns in H as (raw & l2 & Haq & _).
  exists flags, raw. unfold_m. simpl in *.
  destruct (getFeatureFlags env); destruct (analyzeQuery env); by simplify_eq.
Qed.

Lemma prelude_frame env auth body l x l' :
  prelude env auth body l = (Returns x, l') →
  calls is_synthesize (trace l') = calls is_synthesize (trace l)
  ∧ sync_results l' = sync_results l
  ∧ sourcesNeeded l' = sourcesNeeded l
  ∧ domInstructions l' = domInstructions l.
Proof.
  unfold prelude. destruct (valid_body env body); simpl.
  2: { unfold ret. intros H. by simplify_eq. }
  destruct (load_conversation_spec env auth (body_conversationId body) l)
    as (conv & l1 & Hload & Hq).
  destruct Hq as (_ & _ & _ & _ & Q5 & _ & Q7 & Q8 & Q9).
  unfold bind at 1. rewrite Hload. cbv zeta.
  destruct (selectConnection env) as [conn|].
  2: { unfold_m. destruct (insertUsageEvent_error env); simpl; intros H;
       simplify_eq; simpl; tidy_trace; done. }
  destruct (decryptTokens env _) as [tokens|].
  2: { unfold_m.
       destruct (insertUsageEvent_error env); simpl; intros H;
       simplify_eq; simpl; tidy_trace; done. }
  unfold_m.
  destruct (insertUsageEvent_error env); simpl;
    match goal with
    | |- context [proactive_refresh env auth conn tokens ?L] =>
        destruct (proactive_refresh_spec env auth conn tokens L)
          as (usable & l2 & -> & _ & _ & Hs & P7 & P8 & P9 & _)
    end;
    simpl in *; tidy_trace_in Hs;
    destruct usable; intros H; simplify_eq; rewrite ?Hs; repeat split; congruence.
Qed.

Lemma filter_sync_sources_for a :
  filter (fun src => is_sync_source src) (sources_for a)
  = ((if needsGmail a then [gmail] else [])
     ++ (if needsCalendar a then [calendar] else []))%list.
Proof.
  unfold sources_for.
  destruct (needsGmail a), (needsCalendar a),
    (needsLinkedIn a && has_length (linkedInKeywords a)),
    (needsWhatsApp a && has_length (whatsAppKeywords a)); reflexivity.
Qed.


(** ** An entry that nobody submits to *)

Lemma tasks_post_ask env now s auth body :
  tasks (post_ask env now s auth body).1.1 = tasks s.
Proof.
  destruct (post_ask env now s auth body) as [[s' r] tr] eqn:H.
  by apply post_ask_state in H as [[-> _]|(q & -> & _)].
Qed.

Lemma tasks_dom_results s caller requestId source snippets t :
  t ∈ tasks (dom_results s caller requestId source snippets).1 →
  t ∈ tasks s ∨ pendingSearches s !! requestId = Some (task_search t).
Proof.
  unfold dom_results.
  destruct (pendingSearches s !! requestId) as [l|]; [|by left].
  destruct (heap s !! l); [|by left].
  destruct (decide _); [by left|].
  destruct (allSourcesComplete _); simpl; [|by left].
  intros [H|H]%elem_of_app; [by left|].
  apply list_elem_of_singleton in H as ->. by right.
Qed.

Lemma tasks_task_settles now s i env t :
  t ∈ tasks (task_settles now s i env) → t ∈ tasks s.
Proof.
  unfold task_settles. repeat case_match; simpl; try done.
  all: apply list_elem_of_delete_inv.
Qed.

Lemma tasks_timer_fires now s i : tasks (timer_fires now s i) = tasks s.
Proof. unfold timer_fires. repeat case_match; done. Qed.

(** An event that is no submission for the entry at [L], in a state where
    no task holds that entry, leaves the entry as it is and starts no task
    for it. *)
Lemma untouched_step now s e L p :
  consistent s →
  heap s !! L = Some p →
  (∀ t, t ∈ tasks s → task_search t ≠ L) →
  targets (request_id p) e = false →
  heap (step now s e).1 !! L = Some p
  ∧ (∀ t, t ∈ tasks (step now s e).1 → task_search t ≠ L).
Proof.
  intros Hs Hl Hno He. destruct e; simpl in *.
  - pose proof (heap_post_ask env now s auth body L p Hl) as H1.
    pose proof (tasks_post_ask env now s auth body) as H2.
    destruct (post_ask env now s auth body) as [[s' r] tr]. simpl in *.
    by rewrite H2.
  - done.
  - done.
  - apply bool_decide_eq_false in He.
    pose proof (heap_dom_results s caller requestId source snippets L p Hl) as H1.
    pose proof (tasks_dom_results s caller requestId source snippets) as H2.
    cbv zeta in H1.
    destruct (dom_results s caller requestId source snippets) as [s' r].
    simpl in *. split.
    + destruct H1 as [H1|[Hreg _]]; [done|].
      destruct (registry_sound _ Hs _ _ Hreg) as (p0 & Hp0 & Hid).
      by simplify_eq.
    + intros t Ht HL. destruct (H2 t Ht) as [Hin|Hreg]; [by eapply Hno|].
      destruct (registry_sound _ Hs _ _ Hreg) as (p0 & Hp0 & Hid).
      by simplify_eq.
  - split.
    + pose proof (heap_task_settles now s i env L p Hl) as H1. cbv zeta in H1.
      destruct H1 as [H1|(t & Ht & HL & _)]; [done|].
      exfalso. eapply Hno; [|done]. by eapply list_elem_of_lookup_2.
    + intros t Ht. apply tasks_task_settles in Ht. by apply Hno.
  - rewrite heap_timer_fires, tasks_timer_fires. done.
Qed.

Lemma untouched_run evs : ∀ s L p,
  consistent s →
  heap s !! L = Some p →
  (∀ t, t ∈ tasks s → task_search t ≠ L) →
  Forall (fun te => targets (request_id p) te.2 = false) evs →
  heap (run s evs) !! L = Some p.
Proof.
  induction evs as [|[now e] evs IH]; intros s L p Hs Hl Hno Hevs; simpl; [done|].
  apply Forall_cons in Hevs as [He Hevs]. simpl in He.
  destruct (untouched_step now s e L p Hs Hl Hno He) as [Hl' Hno'].
  apply IH; [by apply consistent_step|done|done|done].
Qed.

Lemma not_wanted_not_pushed src a requestId :
  needs_extension_source src a = true →
  has_length (keywords_for src a) = false →
  (src ∉ sources_for a)
  ∧ ∀ i, i ∈ instructions_for requestId a → instr_source i ≠ src.
Proof.
  unfold sources_for, instructions_for.
  destruct src; simpl; try done; intros -> ->; simpl.
  all: destruct (needsGmail a), (needsCalendar a); simpl.
  all: try destruct (needsWhatsApp a && has_length (whatsAppKeywords a)); simpl.
  all: try destruct (needsLinkedIn a && has_length (linkedInKeywords a)); simpl.
  all: split; [set_solver|].
  all: intros i Hi; repeat (apply elem_of_cons in Hi as [->|Hi]; [done|]).
  all: by apply elem_of_nil in Hi.
Qed.

(** C10, as amended.  Take a request that passes the checks before the outer
    [try], with async mode enabled, for which the analysis marks the
    extension source [src] as needed but has no keyword for it.  Then
    [POST /ask] stores a pending search [p], sweeps, and answers ['pending']
    without calling the synthesizer; [src] is not in the entry's
    [sources_needed] and no instruction names it.  The entry can be read
    under its request id, and as long as no dom-results submission arrives
    for that request id it stays exactly as registered, status ['pending']
    and no answer, whatever else happens to the process. *)
Theorem pending_without_instruction (env : AskEnv) (now : Z) (s : State)
    (auth : AuthenticatedRequest) (body : AskBody) (ctx : Checked)
    (l0 : Locals) (flags : FeatureFlags) (raw : QueryAnalysis) (src : Source) :
  prelude env auth body no_locals = (Returns (inr ctx), l0) →
  getFeatureFlags env = Returns flags →
  analyzeQuery env = Returns raw →
  enableAsyncMode flags = true →
  needs_extension_source src (spread raw (filterAnalysisByFlags env raw flags))
  = true →
  has_length (keywords_for src (spread raw (filterAnalysisByFlags env raw flags)))
  = false →
  ∃ p tr,
    post_ask env now s auth body
    = (sweep now (register (randomUUID env) p s),
       ReplyPending (randomUUID env)
         (filter (fun x => is_extension_source x) (sources_needed p))
         (instructions p),
       tr)
    ∧ status p = pending
    ∧ answer p = None
    ∧ (src ∉ sources_needed p)
    ∧ (∀ i, i ∈ instructions p → instr_source i ≠ src)
    ∧ calls is_synthesize tr = []
    ∧ find_search (sweep now (register (randomUUID env) p s)) (randomUUID env)
      = Some p
    ∧ (reachable s →
       ∀ evs, Forall (fun te => targets (randomUUID env) te.2 = false) evs →
              heap (run (sweep now (register (randomUUID env) p s)) evs)
                !! length (heap s)
              = Some p).
Proof.
  intros Hpre Hff Haq Hasync Hneeds Hnokw.
  set (a := spread raw (filterAnalysisByFlags env raw flags)) in *.
  destruct (prelude_frame _ _ _ _ _ _ Hpre) as (F1 & F2 & F3 & F4). simpl in *.
  destruct (process_query_run env now s auth
              (refresh_token (decryptedTokens ctx)) (body_query body)
              (randomUUID env) (conversationHistory ctx)
              (currentConversationId ctx) l0 flags raw Hff Haq)
    as (vars & g & c & S & D & R & _ & _ & Y & Hrun).
  fold a in S, D, Hrun.
  assert (enableAsyncMode flags && (needsLinkedIn a || needsWhatsApp a) = true)
    as Hext.
  { rewrite Hasync. simpl. destruct src; simpl in Hneeds; try done;
      rewrite Hneeds; by rewrite ?orb_true_r. }
  rewrite Hext in Hrun. unfold register_pending in Hrun. unfold_m.
  set (p := new_pending auth (body_query body) (randomUUID env) now
              (currentConversationId ctx) a vars) in *.
  destruct (not_wanted_not_pushed src a (randomUUID env) Hneeds Hnokw)
    as [Hsrc Hinstr].
  exists p, (trace vars). split; [|split; [|split; [|split; [|split; [|split; [|split]]]]]].
  - unfold post_ask, ask_handler. unfold bind at 1. rewrite Hpre.
    unfold try_catch. rewrite Hrun. done.
  - done.
  - done.
  - subst p. simpl. rewrite S, F3. done.
  - subst p. simpl. rewrite D, F4. done.
  - by rewrite Y, F1.
  - unfold find_search.
    assert (pendingSearches (sweep now (register (randomUUID env) p s))
              !! randomUUID env = Some (length (heap s))) as ->.
    { apply sweep_lookup. simpl. split; [apply lookup_insert_eq|].
      unfold expired. rewrite lookup_app_r, Nat.sub_diag by done. simpl.
      apply bool_decide_eq_false. lia. }
    simpl. by rewrite lookup_app_r, Nat.sub_diag.
  - intros Hs evs Hevs. apply reachable_consistent in Hs.
    apply untouched_run.
    + eapply consistent_register; [done|]. unfold fresh_entry. subst p; simpl.
      eauto 10.
    + simpl. by rewrite lookup_app_r, Nat.sub_diag.
    + simpl. intros t Ht HL. destruct (tasks_sound _ Hs _ Ht) as (q & Hq & _).
      apply lookup_lt_Some in Hq. lia.
    + done.
Qed.

Lemma pending_without_instruction_witness :
  ∃ p, status p = pending
       ∧ find_search (post_ask no_keywords_world 0 init alice a_question).1.1
                     "req-6" = Some p
       ∧ heap (run (post_ask no_keywords_world 0 init alice a_question).1.1
                 [(1000, GetAsk "alice" "req-6");
                  (2000, PostDomResults "alice" "req-7" "linkedin" ["x"])])
           !! 0%nat
         = Some p.
Proof.
  destruct (pending_without_instruction no_keywords_world 0 init alice
              a_question
              {| conversationHistory := []; currentConversationId := None;
                 decryptedTokens := {| access_token := "token-1";
                                       refresh_token := "refresh-1" |} |}
              (prelude no_keywords_world alice a_question no_locals).2
              {| enableAsyncMode := true |}
              (an_analysis false false true false None None) linkedin)
    as (p & tr & H1 & H2 & _ & _ & _ & _ & H3 & H4).
  - vm_compute. reflexivity.
  - reflexivity.
  - reflexivity.
  - reflexivity.
  - reflexivity.
  - reflexivity.
  - exists p. rewrite H1. cbn [fst]. split; [exact H2|]. split; [exact H3|].
    apply (H4 (ex_intro _ [] eq_refl)). repeat constructor.
Defined.

(** C10, as stated, fails.  In [two_sources_world] LinkedIn is needed but
    has no keywords: the entry is registered, the only instruction is the
    one for WhatsApp.  Nothing is ever submitted for LinkedIn, yet the
    WhatsApp submission completes the entry, and twenty milliseconds after
    its creation it is ['complete'] without any sweep having run. *)
Lemma skipped_source_does_not_block :
  (step 0 init (PostAsk alice a_question two_sources_world)).2
  = Some (ReplyPending "req-5" [whatsapp]
            [{| instr_request_id := "req-5"; instr_source := whatsapp;
                instr_keywords := ["carol"] |}])
  ∧ let final :=
      run init [(0, PostAsk alice a_question two_sources_world);
                (10, PostDomResults "alice" "req-5" "whatsapp" ["see you"]);
                (20, TaskSettles 0 (synthesis_ok "done"))] in
    status <$> find_search final "req-5" = Some complete
    ∧ answer <$> find_search final "req-5"
      = Some (Some {| answer_text := "done" |}).
Proof. cbv zeta. repeat split; vm_compute; reflexivity. Qed.

(** * Further properties of [POST /ask] *)

(** ** Requests that are turned away *)

(** X1.  A body whose query is empty or has a [length] above 1000 (in
    UTF-16 code units, as JavaScript counts), or whose conversation id is
    not a UUID, is answered 400 [Invalid request body] before anything else
    happens: the store is as it was and no collaborator was called, not
    even the conversation clean-up. *)
Theorem invalid_body_rejected (env : AskEnv) (now : Z) (s : State)
    (auth : AuthenticatedRequest) (body : AskBody) :
  body_query body = ""
  ∨ (1000 < utf16_length (body_query body))%nat
  ∨ (∃ c, body_conversationId body = Some c ∧ zod_uuid env c = false) →
  post_ask env now s auth body = (s, invalid_body, []).
Proof.
  intros H.
  assert (valid_body env body = false) as Hv.
  { unfold valid_body. destruct H as [H|[H|(c & Hc & Hz)]].
    - rewrite H. done.
    - rewrite bool_decide_eq_false_2; [done|lia].
    - rewrite Hc, Hz. apply andb_false_r. }
  unfold post_ask, ask_handler, prelude. rewrite Hv. reflexivity.
Qed.

Lemma invalid_body_rejected_witness :
  post_ask mail_world 2000 one_pending alice
    {| body_query := times 1001 "é"; body_conversationId := None |}
  = (one_pending, invalid_body, []).
Proof.
  apply (invalid_body_rejected mail_world 2000 one_pending alice
           {| body_query := times 1001 "é"; body_conversationId := None |}).
  right. left. vm_compute. lia.
Defined.

(** The limit is in code units, not in bytes: a query of 501 letters [é]
    takes 1002 bytes and passes; one of 1001 does not. *)
Lemma query_length_is_in_code_units :
  String.length (times 501 "é") = 1002%nat
  ∧ utf16_length (times 501 "é") = 501%nat
  ∧ valid_body mail_world
      {| body_query := times 501 "é"; body_conversationId := None |} = true
  ∧ valid_body mail_world
      {| body_query := times 1001 "é"; body_conversationId := None |} = false
  ∧ utf16_length "a€😀" = 4%nat.
Proof.
  repeat match goal with |- _ ∧ _ => split end; vm_compute; reflexivity.
Qed.

(** The part of [prelude] before the tokens are looked at: the conversation
    is loaded, the usage event recorded, the connection looked up. *)
Lemma prelude_connection env auth body l :
  valid_body env body = true →
  ∃ conv l1,
    quiet l l1
    ∧ (∃ before,
         trace l1
         = (before
            ++ InsertUsageEvent (userId auth)
               :: (if insertUsageEvent_error env
                   then [LogError "Failed to insert usage event"] else [])
               ++ [SelectConnection (userId auth)])%list)
    ∧ prelude env auth body l
      = match selectConnection env with
        | None => (Returns (inl not_connected), l1)
        | Some conn =>
            match decryptTokens env (stored_tokens conn) with
            | None =>
                (Returns (inl decryption_failed),
                 with_trace (trace l1 ++ [DecryptTokens (stored_tokens conn);
                                          LogError "Failed to decrypt tokens"]) l1)
            | Some tokens =>
                match proactive_refresh env auth conn tokens
                        (with_trace (trace l1 ++ [DecryptTokens (stored_tokens conn)])
                                    l1) with
                | (Returns true, l') =>
                    (Returns (inr {| conversationHistory := conv.1;
                                     currentConversationId := conv.2;
                                     decryptedTokens := tokens |}), l')
                | (Returns false, l') => (Returns (inl token_refresh_failed), l')
                | (Throws e, l') => (Throws e, l')
                end
            end
        end.
Proof.
  intros Hv. unfold prelude. rewrite Hv. simpl.
  destruct (load_conversation_spec env auth (body_conversationId body) l)
    as (conv & l0 & Hload & Hq).
  unfold bind at 1. rewrite Hload. cbv zeta.
  destruct Hq as (Q1 & Q2 & Q3 & Q4 & Q5 & Q6 & Q7 & Q8 & Q9).
  unfold stored_tokens.
  destruct (insertUsageEvent_error env).
  - exists conv,
      (with_trace (trace l0 ++ [InsertUsageEvent (userId auth);
                                LogError "Failed to insert usage event";
                                SelectConnection (userId auth)]) l0).
    split; [unfold quiet; simpl; tidy_trace; done|].
    split; [by exists (trace l0)|].
    destruct (selectConnection env) as [conn|].
    2: { unfold_m. simpl. rewrite <- !app_assoc. reflexivity. }
    destruct (decryptTokens env _) as [tokens|].
    2: { unfold_m. unfold with_trace. simpl.
         rewrite <- !app_assoc. reflexivity. }
    unfold_m. unfold with_trace. simpl. rewrite <- !app_assoc. simpl.
    match goal with
    | |- context [proactive_refresh env auth conn tokens ?L] =>
        destruct (proactive_refresh env auth conn tokens L) as [[[]|] ?]
    end; reflexivity.
  - exists conv,
      (with_trace (trace l0 ++ [InsertUsageEvent (userId auth);
                                SelectConnection (userId auth)]) l0).
    split; [unfold quiet; simpl; tidy_trace; done|].
    split; [by exists (trace l0)|].
    destruct (selectConnection env) as [conn|].
    2: { unfold_m. simpl. rewrite <- !app_assoc. reflexivity. }
    destruct (decryptTokens env _) as [tokens|].
    2: { unfold_m. unfold with_trace. simpl.
         rewrite <- !app_assoc. reflexivity. }
    unfold_m. unfold with_trace. simpl. rewrite <- !app_assoc. simpl.
    match goal with
    | |- context [proactive_refresh env auth conn tokens ?L] =>
        destruct (proactive_refresh env auth conn tokens L) as [[[]|] ?]
    end; reflexivity.
Qed.

(** X2.  A request with a valid body from a user without a Google connection
    is answered 400 [GOOGLE_NOT_CONNECTED].  The store is as it was and no
    token, mail, calendar or synthesis call was made.  The insert of the
    usage event was issued all the same, before the connection was looked
    up: the trace ends with that insert, the log entry for its failure if
    it failed, and the connection lookup. *)
Theorem unconnected_account_rejected (env : AskEnv) (now : Z) (s : State)
    (auth : AuthenticatedRequest) (body : AskBody) :
  valid_body env body = true →
  selectConnection env = None →
  ∃ before,
    post_ask env now s auth body
    = (s, not_connected,
       (before
        ++ InsertUsageEvent (userId auth)
           :: (if insertUsageEvent_error env
               then [LogError "Failed to insert usage event"] else [])
           ++ [SelectConnection (userId auth)])%list)
    ∧ calls is_refresh before = []
    ∧ calls is_search_gmail before = []
    ∧ calls is_get_calendar before = []
    ∧ calls is_synthesize before = [].
Proof.
  intros Hv Hc.
  destruct (prelude_connection env auth body no_locals Hv)
    as (conv & l1 & Hq & (before & Hu) & Hpre).
  rewrite Hc in Hpre.
  destruct Hq as (Q1 & _ & Q3 & Q4 & Q5 & _).
  exists before. unfold post_ask, ask_handler. unfold bind at 1.
  rewrite Hpre. unfold ret. rewrite Hu in *. split; [done|].
  simpl in Q1, Q3, Q4, Q5. rewrite !calls_app in Q1, Q3, Q4, Q5.
  destruct (insertUsageEvent_error env); simpl in *;
    rewrite ?app_nil_r in *; done.
Qed.

Lemma unconnected_account_rejected_witness :
  ∃ before,
    post_ask (with_connection None mail_world) 2000 one_pending alice a_question
    = (one_pending, not_connected,
       (before ++ [InsertUsageEvent "alice"; SelectConnection "alice"])%list).
Proof.
  destruct (unconnected_account_rejected (with_connection None mail_world) 2000
              one_pending alice a_question) as (before & H & _).
  - reflexivity.
  - reflexivity.
  - exists before. exact H.
Defined.

(** X3.  When the stored tokens cannot be decrypted the request is answered
    500 [DECRYPTION_FAILED]: the store is as it was, the failure is logged
    last, and nothing was refreshed, fetched or synthesized. *)
Theorem unreadable_tokens_rejected (env : AskEnv) (now : Z) (s : State)
    (auth : AuthenticatedRequest) (body : AskBody) (conn : Connection) :
  valid_body env body = true →
  selectConnection env = Some conn →
  decryptTokens env (stored_tokens conn) = None →
  ∃ tr, post_ask env now s auth body = (s, decryption_failed, tr)
        ∧ last tr = Some (LogError "Failed to decrypt tokens")
        ∧ calls is_refresh tr = []
        ∧ calls is_search_gmail tr = []
        ∧ calls is_get_calendar tr = []
        ∧ calls is_synthesize tr = [].
Proof.
  intros Hv Hc Hd.
  destruct (prelude_connection env auth body no_locals Hv)
    as (conv & l1 & Hq & Hu & Hpre).
  rewrite Hc, Hd in Hpre.
  destruct Hq as (Q1 & _ & Q3 & Q4 & Q5 & _).
  eexists. unfold post_ask, ask_handler. unfold bind at 1.
  rewrite Hpre. unfold ret. split; [reflexivity|]. simpl.
  split.
  { by rewrite last_app. }
  tidy_trace. rewrite Q1, Q3, Q4, Q5. done.
Qed.

Lemma unreadable_tokens_rejected_witness :
  ∃ tr, post_ask (with_decryptTokens (fun _ => None) mail_world) 2000 one_pending
          alice a_question
        = (one_pending, decryption_failed, tr)
        ∧ calls is_refresh tr = [].
Proof.
  destruct (unreadable_tokens_rejected (with_decryptTokens (fun _ => None) mail_world)
              2000 one_pending alice a_question
              {| stored_access_token := "enc-access";
                 stored_refresh_token := "enc-refresh";
                 token_expires_at := Some (Instant 5000) |})
    as (tr & H & _ & Hr & _).
  - reflexivity.
  - reflexivity.
  - reflexivity.
  - exists tr. split; [exact H|exact Hr].
Defined.

(** ** Inside the outer [try] *)

(** Once the checks before the outer [try] have passed, the reply is the
    one of the body, or the 500 of the [catch]. *)
Lemma post_ask_checked env now s auth body ctx l0 :
  prelude env auth body no_locals = (Returns (inr ctx), l0) →
  post_ask env now s auth body
  = match process_query env now s auth (refresh_token (decryptedTokens ctx))
            (body_query body) (randomUUID env) (conversationHistory ctx)
            (currentConversationId ctx) l0 with
    | (Returns (s', r), l) => (s', r, trace l)
    | (Throws e, l) =>
        (s, processing_failed (randomUUID env),
         (trace l ++ [LogError "Ask processing failed"])%list)
    end.
Proof.
  intros Hpre. unfold post_ask, ask_handler. unfold bind at 1. rewrite Hpre.
  unfold try_catch.
  destruct (process_query _ _ _ _ _ _ _ _ _ l0) as [[[s2 r2]|e] l2]; reflexivity.
Qed.

(** A request turned away by the checks leaves the store alone. *)
Lemma post_ask_early env now s auth body reply l0 :
  prelude env auth body no_locals = (Returns (inl reply), l0) →
  post_ask env now s auth body = (s, reply, trace l0).
Proof.
  intros Hpre. unfold post_ask, ask_handler. unfold bind at 1. by rewrite Hpre.
Qed.

(** The checks before the outer [try] always come to an end, fetch nothing
    and refresh at most once. *)
Lemma prelude_calls env auth body l :
  ∃ x l', prelude env auth body l = (Returns x, l')
          ∧ calls is_search_gmail (trace l') = calls is_search_gmail (trace l)
          ∧ calls is_get_calendar (trace l') = calls is_get_calendar (trace l)
          ∧ calls is_synthesize (trace l') = calls is_synthesize (trace l)
          ∧ (count is_refresh (trace l') ≤ count is_refresh (trace l) + 1)%nat.
Proof.
  destruct (valid_body env body) eqn:Hv.
  2: { unfold prelude. rewrite Hv. simpl. unfold ret. eexists _, _.
       split; [reflexivity|]. repeat split; lia. }
  destruct (prelude_connection env auth body l Hv) as (conv & l1 & Hq & _ & ->).
  destruct Hq as (Q1 & _ & Q3 & Q4 & Q5 & _).
  destruct (selectConnection env) as [conn|].
  2: { eexists _, _. split; [reflexivity|]. unfold count.
       rewrite Q1, Q3, Q4, Q5. repeat split; lia. }
  destruct (decryptTokens env _) as [tokens|].
  2: { eexists _, _. split; [reflexivity|]. unfold count. simpl. tidy_trace.
       rewrite Q1, Q3, Q4, Q5. repeat split; lia. }
  match goal with
  | |- context [proactive_refresh env auth conn tokens ?L] =>
      destruct (proactive_refresh_spec env auth conn tokens L)
        as (usable & l2 & -> & Hg & Hc & Hs & _ & _ & _ & H)
  end.
  simpl in Hg, Hc, Hs, H. tidy_trace_in Hg. tidy_trace_in Hc. tidy_trace_in Hs.
  tidy_trace_in H.
  assert (count is_refresh (trace l2) ≤ count is_refresh (trace l) + 1)%nat.
  { unfold count. destruct (needs_refresh _ _).
    - destruct H as [-> _]. rewrite length_app, Q1. simpl. lia.
    - destruct H as [-> _]. rewrite Q1. lia. }
  destruct usable; eexists _, _; (split; [reflexivity|]);
    rewrite Hg, Hc, Hs, Q3, Q4, Q5; done.
Qed.

(** X4.  When the feature flags or the classifier cannot be had, a request
    that passed the checks is answered 500 [Failed to process query] with
    its request id.  The store is as it was, and neither a mail search, nor
    a calendar fetch, nor a synthesis was attempted. *)
Theorem analysis_failure_is_reported (env : AskEnv) (now : Z) (s : State)
    (auth : AuthenticatedRequest) (body : AskBody) (ctx : Checked) (l0 : Locals) :
  prelude env auth body no_locals = (Returns (inr ctx), l0) →
  (∃ e, getFeatureFlags env = Throws e) ∨ (∃ e, analyzeQuery env = Throws e) →
  ∃ tr, post_ask env now s auth body = (s, processing_failed (randomUUID env), tr)
        ∧ last tr = Some (LogError "Ask processing failed")
        ∧ calls is_search_gmail tr = []
        ∧ calls is_get_calendar tr = []
        ∧ calls is_synthesize tr = [].
Proof.
  intros Hpre Hfail. rewrite (post_ask_checked _ _ _ _ _ _ _ Hpre).
  destruct (prelude_calls env auth body no_locals)
    as (x & l' & Hpre' & Hg & Hc & Hs & _).
  rewrite Hpre in Hpre'. simplify_eq. simpl in *.
  unfold process_query. unfold_m.
  destruct (getFeatureFlags env) as [flags|e1] eqn:Hff; simpl.
  - destruct Hfail as [[e ?]|[e Haq]]; [done|]. rewrite Haq. simpl.
    eexists. split; [reflexivity|]. split; [apply last_snoc|].
    tidy_trace. rewrite Hg, Hc, Hs. done.
  - eexists. split; [reflexivity|]. split; [apply last_snoc|].
    tidy_trace. rewrite Hg, Hc, Hs. done.
Qed.

Lemma analysis_failure_is_reported_witness :
  ∃ tr, post_ask (with_analyzeQuery (Throws plain_js_error) mail_world) 2000
          one_pending alice a_question
        = (one_pending, processing_failed "req-10", tr)
        ∧ calls is_search_gmail tr = [].
Proof.
  destruct (analysis_failure_is_reported
              (with_analyzeQuery (Throws plain_js_error) mail_world) 2000
              one_pending alice a_question a_context
              (prelude (with_analyzeQuery (Throws plain_js_error) mail_world)
                       alice a_question no_locals).2)
    as (tr & H & _ & Hg & _).
  - vm_compute. reflexivity.
  - right. exists plain_js_error. reflexivity.
  - exists tr. split; [exact H|exact Hg].
Defined.

(** ** Registration *)

(** What a ['pending'] reply tells about the run that produced it. *)
Lemma pending_reply_inv env now s auth body s' rid needed instrs tr :
  post_ask env now s auth body = (s', ReplyPending rid needed instrs, tr) →
  ∃ ctx l0 flags raw vars,
    prelude env auth body no_locals = (Returns (inr ctx), l0)
    ∧ getFeatureFlags env = Returns flags
    ∧ analyzeQuery env = Returns raw
    ∧ enableAsyncMode flags = true
    ∧ needsLinkedIn (spread raw (filterAnalysisByFlags env raw flags))
      || needsWhatsApp (spread raw (filterAnalysisByFlags env raw flags)) = true
    ∧ sourcesNeeded vars
      = sources_for (spread raw (filterAnalysisByFlags env raw flags))
    ∧ domInstructions vars
      = instructions_for (randomUUID env)
          (spread raw (filterAnalysisByFlags env raw flags))
    ∧ calls is_synthesize (trace vars) = []
    ∧ rid = randomUUID env
    ∧ needed = filter (fun src => is_extension_source src) (sourcesNeeded vars)
    ∧ instrs = domInstructions vars
    ∧ tr = trace vars
    ∧ s' = sweep now
             (register (randomUUID env)
                (new_pending auth (body_query body) (randomUUID env) now
                   (currentConversationId ctx)
                   (spread raw (filterAnalysisByFlags env raw flags)) vars) s).
Proof.
  intros H.
  destruct (prelude env auth body no_locals) as [[[reply|ctx]|e] l0] eqn:Hpre.
  { unfold post_ask, ask_handler in H. unfold bind at 1 in H. rewrite Hpre in H.
    apply prelude_early in Hpre as (http & b & ->). unfold ret in H.
    by simplify_eq. }
  2: { unfold post_ask, ask_handler in H. unfold bind at 1 in H.
       rewrite Hpre in H. by simplify_eq. }
  rewrite (post_ask_checked _ _ _ _ _ _ _ Hpre) in H.
  apply prelude_frame in Hpre as Hframe. destruct Hframe as (F1 & F2 & F3 & F4).
  simpl in *.
  destruct (process_query _ _ _ _ _ _ _ _ _ l0) as [[[s2 r2]|e] l2] eqn:Hp.
  2: { by simplify_eq. }
  simplify_eq.
  destruct (process_query_returned _ _ _ _ _ _ _ _ _ _ _ _ Hp)
    as (flags & raw & Hff & Haq).
  destruct (process_query_run env now s auth
              (refresh_token (decryptedTokens ctx)) (body_query body)
              (randomUUID env) (conversationHistory ctx)
              (currentConversationId ctx) l0 flags raw Hff Haq)
    as (vars & g & c & S & D & R & G & C & Y & Hrun).
  rewrite Hrun in Hp. clear Hrun.
  set (a := spread raw (filterAnalysisByFlags env raw flags)) in *.
  destruct (enableAsyncMode flags && (needsLinkedIn a || needsWhatsApp a))
    eqn:Hcond.
  2: { unfold synthesize_reply in Hp. skip_steps Hp. cbv zeta in Hp.
       skip_steps Hp. unfold ret in Hp. congruence. }
  apply andb_true_iff in Hcond as [Hasync Hext].
  unfold register_pending in Hp. unfold_m. simplify_eq.
  exists ctx, l0, flags, raw, l2.
  rewrite S, D, Y, F1, F3, F4. simpl. done.
Qed.

(** The converse: a run that passes the checks, gets its flags and its
    analysis, and needs an extension source in async mode, registers. *)
Lemma pending_reply_intro env now s auth body ctx l0 flags raw :
  prelude env auth body no_locals = (Returns (inr ctx), l0) →
  getFeatureFlags env = Returns flags →
  analyzeQuery env = Returns raw →
  enableAsyncMode flags = true →
  needsLinkedIn (spread raw (filterAnalysisByFlags env raw flags))
  || needsWhatsApp (spread raw (filterAnalysisByFlags env raw flags)) = true →
  ∃ s' needed instrs tr,
    post_ask env now s auth body = (s', ReplyPending (randomUUID env) needed instrs, tr).
Proof.
  intros Hpre Hff Haq Hasync Hext.
  rewrite (post_ask_checked _ _ _ _ _ _ _ Hpre).
  destruct (process_query_run env now s auth
              (refresh_token (decryptedTokens ctx)) (body_query body)
              (randomUUID env) (conversationHistory ctx)
              (currentConversationId ctx) l0 flags raw Hff Haq)
    as (vars & g & c & _ & _ & _ & _ & _ & _ & ->).
  rewrite Hasync, Hext. simpl. unfold register_pending. unfold_m. eauto.
Qed.

(** X5.  [POST /ask] registers a pending search, and answers ['pending'],
    exactly when the request passed the checks, flags and analysis were
    obtained, async mode is on and the analysis, once filtered by the flags,
    needs LinkedIn or WhatsApp; keywords play no part in it.  In every other
    case the store is left as it was. *)
Theorem registers_iff_extension_needed (env : AskEnv) (now : Z) (s : State)
    (auth : AuthenticatedRequest) (body : AskBody) :
  (is_pending_reply (post_ask env now s auth body).1.2 = true
   ↔ ∃ ctx l0 flags raw,
       prelude env auth body no_locals = (Returns (inr ctx), l0)
       ∧ getFeatureFlags env = Returns flags
       ∧ analyzeQuery env = Returns raw
       ∧ enableAsyncMode flags = true
       ∧ needsLinkedIn (spread raw (filterAnalysisByFlags env raw flags))
         || needsWhatsApp (spread raw (filterAnalysisByFlags env raw flags))
         = true)
  ∧ (is_pending_reply (post_ask env now s auth body).1.2 = false →
     (post_ask env now s auth body).1.1 = s).
Proof.
  split.
  - split.
    + destruct (post_ask env now s auth body) as [[s' r] tr] eqn:H. simpl.
      destruct r; try done. intros _.
      apply pending_reply_inv in H
        as (ctx & l0 & flags & raw & vars & H1 & H2 & H3 & H4 & H5 & _).
      eauto 10.
    + intros (ctx & l0 & flags & raw & H1 & H2 & H3 & H4 & H5).
      destruct (pending_reply_intro env now s auth body ctx l0 flags raw
                  H1 H2 H3 H4 H5) as (s' & needed & instrs & tr & ->).
      done.
  - destruct (post_ask env now s auth body) as [[s' r] tr] eqn:H. simpl.
    intros Hr. apply post_ask_state in H as [[-> _]|(p & _ & _ & ->)]; done.
Qed.

Lemma instructions_for_sources requestId a :
  instr_source <$> instructions_for requestId a
  = filter (fun src => is_extension_source src) (sources_for a).
Proof.
  unfold sources_for, instructions_for.
  destruct (needsGmail a), (needsCalendar a),
    (needsLinkedIn a && has_length (linkedInKeywords a)),
    (needsWhatsApp a && has_length (whatsAppKeywords a)); reflexivity.
Qed.

Lemma has_length_default k : has_length k = true → default [] k ≠ [].
Proof. by destruct k as [[|]|]. Qed.

Lemma instructions_for_wellformed requestId a :
  Forall (fun i => instr_request_id i = requestId ∧ instr_keywords i ≠ [])
         (instructions_for requestId a).
Proof.
  unfold instructions_for. apply Forall_app. split.
  - destruct (needsLinkedIn a && has_length (linkedInKeywords a)) eqn:H;
      [|constructor].
    apply andb_true_iff in H as [_ H]. repeat constructor; simpl.
    by apply has_length_default.
  - destruct (needsWhatsApp a && has_length (whatsAppKeywords a)) eqn:H;
      [|constructor].
    apply andb_true_iff in H as [_ H]. repeat constructor; simpl.
    by apply has_length_default.
Qed.

Lemma NoDup_sources_for a : NoDup (sources_for a).
Proof.
  unfold sources_for.
  destruct (needsGmail a), (needsCalendar a),
    (needsLinkedIn a && has_length (linkedInKeywords a)),
    (needsWhatsApp a && has_length (whatsAppKeywords a)); simpl;
    repeat (apply NoDup_cons; split; [set_solver|]); apply NoDup_nil_2.
Qed.

(** X6.  In a ['pending'] reply the instructions and [sources_needed] go
    together: there is one instruction per listed source, in the same order,
    each carries the request id of the reply and at least one keyword, and
    the listed sources are LinkedIn, WhatsApp, both in that order, or none.
    No synthesis was attempted for such a request. *)
Theorem pending_reply_shape (env : AskEnv) (now : Z) (s s' : State)
    (auth : AuthenticatedRequest) (body : AskBody) (requestId : string)
    (needed : list Source) (instrs : list DOMInstruction) (tr : list Call) :
  post_ask env now s auth body = (s', ReplyPending requestId needed instrs, tr) →
  requestId = randomUUID env
  ∧ instr_source <$> instrs = needed
  ∧ Forall (fun i => instr_request_id i = requestId ∧ instr_keywords i ≠ []) instrs
  ∧ sublist needed [linkedin; whatsapp]
  ∧ calls is_synthesize tr = [].
Proof.
  intros H.
  apply pending_reply_inv in H
    as (ctx & l0 & flags & raw & vars & _ & _ & _ & _ & _ & S & D & Y
        & -> & -> & -> & -> & _).
  set (a := spread raw (filterAnalysisByFlags env raw flags)) in *.
  rewrite S, D. split; [done|]. split; [apply instructions_for_sources|].
  split; [apply instructions_for_wellformed|]. split; [|done].
  unfold sources_for.
  destruct (needsGmail a), (needsCalendar a),
    (needsLinkedIn a && has_length (linkedInKeywords a)),
    (needsWhatsApp a && has_length (whatsAppKeywords a)); simpl;
    repeat first [apply sublist_nil | apply sublist_skip, sublist_nil
                 | apply sublist_skip | apply sublist_cons ].
Qed.

Lemma pending_reply_shape_witness :
  instr_source <$> [{| instr_request_id := "req-5"; instr_source := whatsapp;
                       instr_keywords := ["carol"] |}] = [whatsapp]
  ∧ sublist [whatsapp] [linkedin; whatsapp].
Proof.
  destruct (pending_reply_shape two_sources_world 0 init
              (post_ask two_sources_world 0 init alice a_question).1.1
              alice a_question "req-5" [whatsapp]
              [{| instr_request_id := "req-5"; instr_source := whatsapp;
                  instr_keywords := ["carol"] |}]
              (post_ask two_sources_world 0 init alice a_question).2)
    as (_ & H1 & _ & H2 & _).
  - vm_compute. reflexivity.
  - split; [exact H1|exact H2].
Defined.

(** X7.  After a ['pending'] reply the request id leads to the new entry,
    even if the id was registered before: it belongs to the caller, holds
    the query and the instructions of the reply, was created at the time of
    the registration and lists each needed source once, the reply's
    [sources_needed] being its extension sources.  The owner's first poll
    answers ['pending'] with the whole list and no answer; anyone else is
    refused. *)
Theorem registered_entry_is_pollable (env : AskEnv) (now : Z) (s s' : State)
    (auth : AuthenticatedRequest) (body : AskBody) (requestId : string)
    (needed : list Source) (instrs : list DOMInstruction) (tr : list Call) :
  post_ask env now s auth body = (s', ReplyPending requestId needed instrs, tr) →
  ∃ p, find_search s' requestId = Some p
       ∧ user_id p = userId auth
       ∧ query p = body_query body
       ∧ created_at p = now
       ∧ instructions p = instrs
       ∧ filter (fun src => is_extension_source src) (sources_needed p) = needed
       ∧ NoDup (sources_needed p)
       ∧ get_ask s' (userId auth) requestId
         = ReplyPoll pending requestId (sources_needed p) None
       ∧ ∀ other, other ≠ userId auth →
                  get_ask s' other requestId = not_authorized.
Proof.
  intros H.
  apply pending_reply_inv in H
    as (ctx & l0 & flags & raw & vars & _ & _ & _ & _ & _ & S & D & Y
        & -> & -> & -> & -> & ->).
  set (a := spread raw (filterAnalysisByFlags env raw flags)) in *.
  set (p := new_pending auth (body_query body) (randomUUID env) now
              (currentConversationId ctx) a vars) in *.
  assert (find_search (sweep now (register (randomUUID env) p s)) (randomUUID env)
          = Some p) as Hfind.
  { unfold find_search.
    assert (pendingSearches (sweep now (register (randomUUID env) p s))
              !! randomUUID env = Some (length (heap s))) as ->.
    { apply sweep_lookup. simpl. split; [apply lookup_insert_eq|].
      unfold expired. rewrite lookup_app_r, Nat.sub_diag by done. simpl.
      apply bool_decide_eq_false. lia. }
    simpl. by rewrite lookup_app_r, Nat.sub_diag. }
  exists p. split; [done|]. repeat (split; [done|]).
  split. { subst p. simpl. rewrite S. apply NoDup_sources_for. }
  unfold get_ask. rewrite Hfind. split.
  - rewrite decide_False by (subst p; simpl; auto). reflexivity.
  - intros other Ho. rewrite decide_True by (subst p; simpl; auto). done.
Qed.

Lemma registered_entry_is_pollable_witness :
  ∃ p, find_search one_pending "req-1" = Some p
       ∧ get_ask one_pending "alice" "req-1"
         = ReplyPoll pending "req-1" (sources_needed p) None.
Proof.
  destruct (registered_entry_is_pollable linkedin_world 0 init one_pending
              alice a_question "req-1" [linkedin]
              [{| instr_request_id := "req-1"; instr_source := linkedin;
                  instr_keywords := ["bob"] |}]
              (post_ask linkedin_world 0 init alice a_question).2)
    as (p & H1 & _ & _ & _ & _ & _ & _ & H2 & _).
  - vm_compute. reflexivity.
  - exists p. split; [exact H1|exact H2].
Defined.

(** ** The sweep *)

(** X8.  The sweep only ever removes registrations, and it removes exactly
    those whose entry was created more than five minutes before: an entry
    that is five minutes old to the millisecond stays.  A later sweep
    subsumes an earlier one. *)
Theorem sweep_removes_the_old (now now' : Z) (s : State) :
  now ≤ now' →
  (∀ r l p, pendingSearches s !! r = Some l → heap s !! l = Some p →
            (pendingSearches (sweep now s) !! r = Some l
             ↔ now - 5 * 60 * 1000 ≤ created_at p)
            ∧ (pendingSearches (sweep now s) !! r = None
               ↔ created_at p < now - 5 * 60 * 1000))
  ∧ (∀ r l, pendingSearches (sweep now s) !! r = Some l →
            pendingSearches s !! r = Some l)
  ∧ sweep now' (sweep now s) = sweep now' s.
Proof.
  intros Hle. split; [|split].
  - intros r l p Hr Hl.
    assert (pendingSearches (sweep now s) !! r = Some l
            ↔ now - 5 * 60 * 1000 ≤ created_at p) as Hkeep.
    { rewrite sweep_lookup. unfold expired. rewrite Hl.
      rewrite bool_decide_eq_false. split; [intros [_ ?]; lia|].
      intros ?. split; [done|lia]. }
    split; [done|]. split.
    + intros Hnone. destruct (decide (created_at p < now - 5 * 60 * 1000));
        [done|].
      assert (pendingSearches (sweep now s) !! r = Some l) as Hsome
        by (apply Hkeep; lia).
      congruence.
    + intros Hold. destruct (pendingSearches (sweep now s) !! r) as [l'|] eqn:E;
        [|done].
      apply sweep_lookup in E as [E Hexp]. simplify_eq.
      unfold expired in Hexp. rewrite Hl in Hexp.
      apply bool_decide_eq_false in Hexp. lia.
  - intros r l H. by apply sweep_lookup in H as [H _].
  - unfold sweep. simpl. f_equal.
    rewrite map_filter_filter. apply map_filter_ext.
    intros r l Hr. simpl. split; [intros [? _]; done|].
    intros H. split; [done|].
    unfold expired in *. destruct (heap s !! l) as [p|]; [|done].
    apply bool_decide_eq_false. apply bool_decide_eq_false in H. lia.
Qed.

Lemma sweep_removes_the_old_witness :
  sweep 400000 (sweep 300000 one_pending) = sweep 400000 one_pending.
Proof.
  apply (sweep_removes_the_old 300000 400000 one_pending). lia.
Defined.

(** ** Submissions, the background task and its timer *)

(** X9.  The hits made from one submission have pairwise distinct ids, all
    carry the submitted source name, relevance 0.9 and no metadata, and
    their contents are the snippets, in order. *)
Theorem normalized_hits_are_distinct (source : string) (snippets : list string) :
  NoDup (hit_id <$> normalizeSnippets source snippets)
  ∧ Forall (fun h => hit_source h = source
                     ∧ hit_relevance h = QArith_base.Qmake 9 10
                     ∧ hit_metadata h = [])
           (normalizeSnippets source snippets)
  ∧ hit_content <$> normalizeSnippets source snippets = snippets.
Proof.
  split; [|split].
  - unfold normalizeSnippets. rewrite fmap_imap.
    rewrite (imap_ext _ (fun j _ => source +:+ "-" +:+ pretty j)) by done.
    rewrite (imap_seq_0 snippets (fun j => source +:+ "-" +:+ pretty j)).
    apply NoDup_fmap_2; [|apply NoDup_seq].
    intros i j Hij. apply (inj (String.app source)) in Hij.
    apply (inj (String.app "-")) in Hij. by apply (inj pretty) in Hij.
  - apply Forall_forall. intros h Hh. unfold normalizeSnippets in Hh.
    apply elem_of_lookup_imap in Hh as (i & x & -> & _). done.
  - apply normalizeSnippets_content.
Qed.

(** X10.  From the completing submission to the answer and on to the
    clean-up, when nothing comes in between.  When a submission by the owner
    is answered ['processing'], a task was started.  Let that task settle
    next, at time [now].  If its synthesis succeeds, the owner's poll then
    answers ['complete'] with that answer, and a timer due at [now + 30000]
    has been set: run before that time it changes nothing, and once it
    fires the owner's poll answers 404.  If the synthesis fails, the poll
    answers ['failed'] without an answer and no timer has been set. *)
Theorem submission_to_answer (s : State) (caller requestId source : string)
    (snippets : list string) (l : nat) (p : PendingSearch) (now : Z)
    (env : TaskEnv) :
  pendingSearches s !! requestId = Some l →
  heap s !! l = Some p →
  user_id p = caller →
  (dom_results s caller requestId source snippets).2
  = ReplySubmit processing requestId →
  let s1 := (dom_results s caller requestId source snippets).1 in
  let s2 := task_settles now s1 (length (tasks s)) env in
  match task_outcome p env with
  | Some a =>
      get_ask s2 caller requestId
      = ReplyPoll complete requestId (sources_needed p) (Some a)
      ∧ timers s2
        = (timers s ++ [{| timer_due := now + 30000;
                           timer_request_id := requestId |}])%list
      ∧ (∀ t, t < now + 30000 → timer_fires t s2 (length (timers s)) = s2)
      ∧ (∀ t, now + 30000 ≤ t →
              get_ask (timer_fires t s2 (length (timers s))) caller requestId
              = not_found)
  | None =>
      get_ask s2 caller requestId
      = ReplyPoll failed requestId (sources_needed p) None
      ∧ timers s2 = timers s
  end.
Proof.
  intros Hr Hl Hu Hreply. cbv zeta.
  rewrite (dom_results_owner s caller requestId source snippets l p Hr Hl Hu)
    in *.
  set (written := with_results
                    (js_set source (normalizeSnippets source snippets) (results p))
                    p) in *.
  cbv zeta in Hreply. fold written in Hreply.
  destruct (allSourcesComplete written) eqn:Hall; [|simpl in Hreply; congruence].
  cbn [fst]. clear Hreply.
  unfold task_settles. simpl.
  rewrite lookup_app_r, Nat.sub_diag by done. simpl.
  rewrite list_lookup_insert_eq by (by eapply lookup_lt_Some).
  change (task_outcome written env) with (task_outcome p env).
  destruct (task_outcome p env) as [a|] eqn:Hout.
  - split; [|split; [|split]].
    + unfold get_ask, find_search. simpl. rewrite Hr. simpl.
      rewrite list_insert_insert_eq.
      rewrite list_lookup_insert_eq by (by eapply lookup_lt_Some). simpl.
      rewrite decide_False by auto. reflexivity.
    + reflexivity.
    + intros t Ht. unfold timer_fires. simpl.
      rewrite lookup_app_r, Nat.sub_diag by done. simpl.
      rewrite bool_decide_eq_false_2 by lia. reflexivity.
    + intros t Ht. unfold timer_fires. simpl.
      rewrite lookup_app_r, Nat.sub_diag by done. simpl.
      rewrite bool_decide_eq_true_2 by lia.
      unfold get_ask, find_search. simpl. by rewrite lookup_delete_eq.
  - split; [|reflexivity].
    unfold get_ask, find_search. simpl. rewrite Hr. simpl.
    rewrite list_insert_insert_eq.
    rewrite list_lookup_insert_eq by (by eapply lookup_lt_Some). simpl.
    rewrite decide_False by auto. reflexivity.
Qed.

Lemma submission_to_answer_witness :
  get_ask (task_settles 20
             (dom_results one_pending "alice" "req-1" "linkedin" ["hello"]).1
             0 (synthesis_ok "done")) "alice" "req-1"
  = ReplyPoll complete "req-1" [linkedin] (Some {| answer_text := "done" |}).
Proof.
  pose proof (submission_to_answer one_pending "alice" "req-1" "linkedin"
                ["hello"] 0%nat the_pending_entry 20 (synthesis_ok "done")) as H.
  cbv zeta in H.
  destruct H as [H _].
  - vm_compute. reflexivity.
  - vm_compute. reflexivity.
  - reflexivity.
  - vm_compute. reflexivity.
  - exact H.
Defined.

(** X22.  An entry that is ['complete'] or ['failed'] is not closed: any
    further submission by its owner, for whatever source, is answered
    ['processing'] and starts another synthesis for the same entry.  In the
    state that the submission leaves, the entry holds the submitted hits
    and its stored status and answer are what they were before. *)
Theorem finished_entry_restarts (s : State) (caller requestId source : string)
    (snippets : list string) (l : nat) (p : PendingSearch) :
  reachable s →
  pendingSearches s !! requestId = Some l →
  heap s !! l = Some p →
  user_id p = caller →
  status p = complete ∨ status p = failed →
  let after := dom_results s caller requestId source snippets in
  after.2 = ReplySubmit processing requestId
  ∧ tasks after.1
    = (tasks s ++ [{| task_search := l; task_request_id := requestId |}])%list
  ∧ ∃ p', heap after.1 !! l = Some p'
          ∧ status p' = status p ∧ answer p' = answer p
          ∧ js_get source (results p') = Some (normalizeSnippets source snippets).
Proof.
  intros Hs Hr Hl Hu Hst. cbv zeta.
  apply reachable_consistent in Hs.
  destruct (entries_sound _ Hs _ _ Hl) as (_ & _ & Hall).
  assert (allSourcesComplete p = true) as Hp.
  { apply Hall. destruct Hst as [-> | ->]; simpl; lia. }
  rewrite (dom_results_owner s caller requestId source snippets l p Hr Hl Hu).
  cbv zeta.
  rewrite (allSourcesComplete_written source (normalizeSnippets source snippets) p Hp).
  simpl. split; [done|]. split; [done|].
  eexists. split; [apply list_lookup_insert_eq; by eapply lookup_lt_Some|].
  simpl. split; [done|]. split; [done|]. apply js_get_set_eq.
Qed.

Lemma finished_entry_restarts_witness :
  (dom_results one_failed "alice" "req-1" "whatsapp" []).2
  = ReplySubmit processing "req-1".
Proof.
  pose proof (finished_entry_restarts one_failed "alice" "req-1" "whatsapp" []
                0%nat
                (with_status failed
                   (with_results
                      (js_set "linkedin" (normalizeSnippets "linkedin" ["hello"])
                              (results the_pending_entry))
                      the_pending_entry))) as H.
  cbv zeta in H. destruct H as [H _].
  - exists [(0, PostAsk alice a_question linkedin_world);
            (1, PostDomResults "alice" "req-1" "linkedin" ["hello"]);
            (2, TaskSettles 0 synthesis_fails)]. vm_compute. reflexivity.
  - vm_compute. reflexivity.
  - vm_compute. reflexivity.
  - reflexivity.
  - right. reflexivity.
  - exact H.
Defined.

(** X11.  In every state the process can reach, a poll that is answered
    carries an answer exactly when it reports ['complete']; it never reports
    ['processing']; it echoes the request id asked for; and the legacy
    status route answers the same. *)
Theorem poll_answer_iff_complete (s : State) (caller requestId r : string)
    (st : Status) (needed : list Source) (ans : option Answer) :
  reachable s →
  get_ask s caller requestId = ReplyPoll st r needed ans →
  r = requestId
  ∧ (is_Some ans ↔ st = complete)
  ∧ st ≠ processing
  ∧ get_ask_status s caller requestId = ReplyPoll st r needed ans
  ∧ ∃ p, find_search s requestId = Some p
         ∧ user_id p = caller ∧ request_id p = requestId
         ∧ sources_needed p = needed.
Proof.
  intros Hs. apply reachable_consistent in Hs.
  unfold get_ask, get_ask_status, find_search.
  destruct (pendingSearches s !! requestId) as [l|] eqn:Hr; simpl; [|done].
  destruct (registry_sound _ Hs _ _ Hr) as (p & Hl & Hid).
  rewrite Hl. destruct (decide (user_id p ≠ caller)) as [|Hu]; [done|].
  apply dec_stable in Hu.
  unfold poll_response. intros H. simplify_eq.
  destruct (entries_sound _ Hs _ _ Hl) as (Hproc & Hans & _).
  split; [done|]. split; [|split; [done|split; [done|eauto]]].
  destruct (decide (status p = complete)) as [Hc|Hc].
  - split; [done|auto].
  - split; [by intros []|done].
Qed.

Lemma poll_answer_iff_complete_witness :
  get_ask_status one_pending "alice" "req-1"
  = ReplyPoll pending "req-1" [linkedin] None.
Proof.
  destruct (poll_answer_iff_complete one_pending "alice" "req-1" "req-1"
              pending [linkedin] None) as (_ & _ & _ & H & _).
  - exists [(0, PostAsk alice a_question linkedin_world)]. reflexivity.
  - vm_compute. reflexivity.
  - exact H.
Defined.

Lemma same_identity_refl p : same_identity p p.
Proof. by unfold same_identity. Qed.

Lemma same_identity_step now s e l p :
  heap s !! l = Some p →
  ∃ p', heap (step now s e).1 !! l = Some p'
        ∧ same_identity p p'
        ∧ js_keys (results p) ⊆ js_keys (results p').
Proof.
  intros Hl. destruct e as [auth body env|c r|c r|c r src sn|i env|i]; simpl.
  - pose proof (heap_post_ask env now s auth body l p Hl) as H.
    destruct (post_ask env now s auth body) as [[s' r] tr]. simpl in *.
    exists p. split; [done|]. split; [apply same_identity_refl|done].
  - exists p. split; [done|]. split; [apply same_identity_refl|done].
  - exists p. split; [done|]. split; [apply same_identity_refl|done].
  - pose proof (heap_dom_results s c r src sn l p Hl) as H. cbv zeta in H.
    destruct (dom_results s c r src sn) as [s' reply]. simpl in *.
    destruct H as [H|(_ & [[H _]|[H _]])].
    + exists p. split; [done|]. split; [apply same_identity_refl|done].
    + eexists. split; [exact H|]. split; [by unfold same_identity|].
      simpl. apply js_keys_set.
    + eexists. split; [exact H|]. split; [by unfold same_identity|].
      simpl. apply js_keys_set.
  - pose proof (heap_task_settles now s i env l p Hl) as H. cbv zeta in H.
    destruct H as [H|(t & _ & _ & [(a & _ & H)|(_ & H)])].
    + exists p. split; [done|]. split; [apply same_identity_refl|done].
    + eexists. split; [exact H|]. split; [by unfold same_identity|done].
    + eexists. split; [exact H|]. split; [by unfold same_identity|done].
  - rewrite heap_timer_fires. exists p. split; [done|].
    split; [apply same_identity_refl|done].
Qed.

(** X12.  Whatever happens afterwards, an entry stays at its place in the
    heap and keeps its request id, its owner, its query, its needed sources,
    its instructions, its creation time, its conversation and its metadata;
    the keys of its [results] are never taken away. *)
Theorem entries_keep_identity (evs : list (Z * Event)) (s : State) (l : nat)
    (p : PendingSearch) :
  heap s !! l = Some p →
  ∃ p', heap (run s evs) !! l = Some p'
        ∧ same_identity p p'
        ∧ js_keys (results p) ⊆ js_keys (results p').
Proof.
  revert s p. induction evs as [|[now e] evs IH]; intros s p Hl; simpl.
  - exists p. split; [done|]. split; [apply same_identity_refl|done].
  - destruct (same_identity_step now s e l p Hl) as (p1 & H1 & I1 & K1).
    destruct (IH _ _ H1) as (p2 & H2 & I2 & K2).
    exists p2. split; [done|]. split; [|set_solver].
    unfold same_identity in *. clear -I1 I2. intuition congruence.
Qed.

Lemma entries_keep_identity_witness :
  ∃ p', heap (run one_pending
                [(10, PostDomResults "alice" "req-1" "linkedin" ["hello"]);
                 (20, TaskSettles 0 (synthesis_ok "done"));
                 (50020, TimerFires 0)]) !! 0%nat = Some p'
        ∧ same_identity the_pending_entry p'.
Proof.
  destruct (entries_keep_identity
              [(10, PostDomResults "alice" "req-1" "linkedin" ["hello"]);
               (20, TaskSettles 0 (synthesis_ok "done"));
               (50020, TimerFires 0)] one_pending 0%nat the_pending_entry)
    as (p' & H & I & _).
  - vm_compute. reflexivity.
  - exists p'. split; [exact H|exact I].
Defined.

(** ** How many calls a request makes *)

(** The calls of one fetch, counted. *)
Lemma retry_once_policy_calls {A} env rt is_call the_call
    (fetch : nat → string → Outcome A) normalize l l' :
  retry_once_policy env rt is_call the_call fetch normalize l l' →
  (count is_refresh (trace l') ≤ count is_refresh (trace l) + 1)%nat
  ∧ ∃ rest, calls is_call (trace l')
            = (calls is_call (trace l) ++ the_call (accessToken l) :: rest)%list
            ∧ (length rest ≤ 1)%nat.
Proof.
  unfold retry_once_policy, count. cbv zeta.
  destruct (fetch _ _) as [a|e].
  { intros (-> & -> & _). split; [lia|]. exists []. split; [done|simpl; lia]. }
  destruct (isUnauthorized e).
  2: { intros (-> & -> & _). split; [lia|]. exists []. split; [done|simpl; lia]. }
  intros [-> H]. rewrite length_app. simpl. split; [lia|].
  destruct (refreshed_token env _ _ rt) as [fresh|].
  - destruct H as (-> & _). exists [the_call fresh]. split; [done|simpl; lia].
  - destruct H as (-> & _). exists []. split; [done|simpl; lia].
Qed.

(** Steps 2 to 4 make at most one refresh and two calls per synchronous
    source that is needed, the first of them with the token in hand. *)
Lemma gather_calls env auth rt q requestId flags a l :
  ∃ vars,
    gather env auth rt q requestId flags a l = (Returns tt, vars)
    ∧ (count is_refresh (trace vars)
       ≤ count is_refresh (trace l)
         + (if needsGmail a then 1 else 0) + (if needsCalendar a then 1 else 0))%nat
    ∧ (count is_search_gmail (trace vars)
       ≤ count is_search_gmail (trace l) + (if needsGmail a then 2 else 0))%nat
    ∧ (count is_get_calendar (trace vars)
       ≤ count is_get_calendar (trace l) + (if needsCalendar a then 2 else 0))%nat
    ∧ (needsGmail a = true →
       ∀ plan, planGmailQuery env = Returns plan →
               ∃ rest, calls is_search_gmail (trace vars)
                       = (calls is_search_gmail (trace l)
                          ++ SearchGmail (accessToken l) (gmailQuery plan)
                                         (maxResults_for plan) :: rest)%list)
    ∧ (needsCalendar a = true →
       ∃ l1 rest,
         when (needsGmail a) (fetch_gmail env (userId auth) rt q) l
         = (Returns tt, l1)
         ∧ calls is_get_calendar (trace vars)
           = (calls is_get_calendar (trace l)
              ++ GetCalendarEvents (accessToken l1) (calendar_start a)
                                   (calendar_end a) :: rest)%list).
Proof.
  assert (∃ l1, when (needsGmail a) (fetch_gmail env (userId auth) rt q) l
                = (Returns tt, l1)
                ∧ (count is_refresh (trace l1)
                   ≤ count is_refresh (trace l)
                     + (if needsGmail a then 1 else 0))%nat
                ∧ (count is_search_gmail (trace l1)
                   ≤ count is_search_gmail (trace l)
                     + (if needsGmail a then 2 else 0))%nat
                ∧ calls is_get_calendar (trace l1) = calls is_get_calendar (trace l)
                ∧ (needsGmail a = true →
                   ∀ plan, planGmailQuery env = Returns plan →
                           ∃ rest, calls is_search_gmail (trace l1)
                                   = (calls is_search_gmail (trace l)
                                      ++ SearchGmail (accessToken l) (gmailQuery plan)
                                           (maxResults_for plan) :: rest)%list))
    as (l1 & E1 & R1 & G1 & C1 & F1).
  { unfold when. destruct (needsGmail a).
    2: { exists l. repeat split; first [lia|done]. }
    destruct (fetch_gmail_spec env (userId auth) rt q l)
      as (l1 & E & _ & _ & C & _ & P).
    exists l1. split; [done|].
    destruct (planGmailQuery env) as [plan|e].
    - apply retry_once_policy_calls in P as (R & rest & G & Hrest).
      split; [done|]. split; [unfold count; rewrite G, length_app; simpl; lia|].
      split; [done|]. intros _ plan' ?. simplify_eq. eauto.
    - destruct P as (R & G & _). unfold count. rewrite R, G.
      split; [lia|]. split; [lia|]. split; [done|]. intros _ plan' ?. done. }
  assert (∃ l2, when (needsCalendar a) (fetch_calendar env (userId auth) rt a) l1
                = (Returns tt, l2)
                ∧ (count is_refresh (trace l2)
                   ≤ count is_refresh (trace l1)
                     + (if needsCalendar a then 1 else 0))%nat
                ∧ (count is_get_calendar (trace l2)
                   ≤ count is_get_calendar (trace l1)
                     + (if needsCalendar a then 2 else 0))%nat
                ∧ calls is_search_gmail (trace l2) = calls is_search_gmail (trace l1)
                ∧ (needsCalendar a = true →
                   ∃ rest, calls is_get_calendar (trace l2)
                           = (calls is_get_calendar (trace l1)
                              ++ GetCalendarEvents (accessToken l1)
                                   (calendar_start a) (calendar_end a)
                                 :: rest)%list))
    as (l2 & E2 & R2 & C2 & G2 & F2).
  { unfold when. destruct (needsCalendar a).
    2: { exists l1. repeat split; first [lia|done]. }
    destruct (fetch_calendar_spec env (userId auth) rt a l1)
      as (l2 & E & _ & _ & G & _ & P).
    exists l2. split; [done|].
    apply retry_once_policy_calls in P as (R & rest & C & Hrest).
    split; [done|]. split; [unfold count; rewrite C, length_app; simpl; lia|].
    split; [done|]. intros _. eauto. }
  unfold gather. unfold bind at 1. rewrite E1. unfold bind at 1. rewrite E2.
  exists (let '(_, v) :=
            (when (needsLinkedIn a && has_length (linkedInKeywords a))
               (push_sourcesNeeded linkedin;;
                push_domInstructions
                  {| instr_request_id := requestId; instr_source := linkedin;
                     instr_keywords := default [] (linkedInKeywords a) |});;
             when (needsWhatsApp a && has_length (whatsAppKeywords a))
               (push_sourcesNeeded whatsapp;;
                push_domInstructions
                  {| instr_request_id := requestId; instr_source := whatsapp;
                     instr_keywords := default [] (whatsAppKeywords a) |});;
             when (negb (enableAsyncMode flags)
                   && (needsLinkedIn a || needsWhatsApp a))
               (emit (LogInfo "Async mode disabled - returning sync response with Gmail/Calendar only")))
              l2 in v).
  unfold count in *. unfold_m.
  destruct (needsLinkedIn a && has_length (linkedInKeywords a));
    destruct (needsWhatsApp a && has_length (whatsAppKeywords a));
    destruct (negb (enableAsyncMode flags) && (needsLinkedIn a || needsWhatsApp a));
    simpl; tidy_trace; rewrite ?G2, ?C1 in *;
    (split; [done|]); (split; [lia|]); (split; [lia|]); (split; [lia|]);
    (split; [exact F1|]);
    intros Hcal; destruct (F2 Hcal) as (rest & Hrest);
    exists l1, rest; (split; [done|]); by rewrite Hrest, ?C1.
Qed.

(** The body of the outer [try], once flags and analysis are there. *)
Lemma process_query_unfold env now s auth rt q requestId hist cid l flags raw :
  getFeatureFlags env = Returns flags →
  analyzeQuery env = Returns raw →
  process_query env now s auth rt q requestId hist cid l
  = (gather env auth rt q requestId flags
       (spread raw (filterAnalysisByFlags env raw flags));;
     if enableAsyncMode flags
        && (needsLinkedIn (spread raw (filterAnalysisByFlags env raw flags))
            || needsWhatsApp (spread raw (filterAnalysisByFlags env raw flags)))
     then register_pending now s auth q requestId cid
            (spread raw (filterAnalysisByFlags env raw flags))
     else synthesize_reply env s q requestId hist cid)
      (with_trace (trace l ++ [GetFeatureFlags (userId auth);
                               LogInfo "Feature flags loaded";
                               LogInfo "Analyzing query";
                               AnalyzeQuery q;
                               LogInfo "Query analysis complete"]) l).
Proof.
  intros Hff Haq. unfold process_query. unfold_m. rewrite Hff, Haq. simpl.
  unfold with_trace. rewrite <- !app_assoc. reflexivity.
Qed.

(** What comes after the gathering calls no provider but the synthesizer,
    and that one once. *)
Lemma reply_calls env now s auth q requestId hist cid a (b : bool) vars :
  ∃ o l',
    (if b then register_pending now s auth q requestId cid a
     else synthesize_reply env s q requestId hist cid) vars = (o, l')
    ∧ calls is_refresh (trace l') = calls is_refresh (trace vars)
    ∧ calls is_search_gmail (trace l') = calls is_search_gmail (trace vars)
    ∧ calls is_get_calendar (trace l') = calls is_get_calendar (trace vars)
    ∧ (count is_synthesize (trace l')
       ≤ count is_synthesize (trace vars) + 1)%nat.
Proof.
  unfold count. destruct b.
  - unfold register_pending. unfold_m. eexists _, _. split; [reflexivity|].
    repeat split; lia.
  - unfold synthesize_reply. unfold_m. simpl.
    destruct (synthesizeAnswer env _ _ _) as [ans|e]; simpl.
    2: { eexists _, _. split; [reflexivity|]. simpl. tidy_trace.
         repeat split; lia. }
    destruct (nonempty cid); simpl.
    + destruct (updateConversation_throws env); eexists _, _;
        (split; [reflexivity|]); simpl; tidy_trace; repeat split; lia.
    + eexists _, _. split; [reflexivity|]. simpl. tidy_trace.
      repeat split; lia.
Qed.

Lemma process_query_calls env now s auth rt q requestId hist cid l :
  ∃ o l',
    process_query env now s auth rt q requestId hist cid l = (o, l')
    ∧ (count is_refresh (trace l') ≤ count is_refresh (trace l) + 2)%nat
    ∧ (count is_search_gmail (trace l') ≤ count is_search_gmail (trace l) + 2)%nat
    ∧ (count is_get_calendar (trace l') ≤ count is_get_calendar (trace l) + 2)%nat
    ∧ (count is_synthesize (trace l') ≤ count is_synthesize (trace l) + 1)%nat.
Proof.
  destruct (getFeatureFlags env) as [flags|e] eqn:Hff.
  2: { unfold process_query. unfold_m. rewrite Hff. simpl. eexists _, _.
       split; [reflexivity|]. unfold count. simpl. tidy_trace. repeat split; lia. }
  destruct (analyzeQuery env) as [raw|e] eqn:Haq.
  2: { unfold process_query. unfold_m. rewrite Hff, Haq. simpl. eexists _, _.
       split; [reflexivity|]. unfold count. simpl. tidy_trace. repeat split; lia. }
  rewrite (process_query_unfold _ _ _ _ _ _ _ _ _ _ _ _ Hff Haq).
  set (a := spread raw (filterAnalysisByFlags env raw flags)). clearbody a.
  match goal with
  | |- context [bind _ _ ?L] =>
      destruct (gather_calls env auth rt q requestId flags a L)
        as (vars & E & R & G & C & _ & _);
      destruct (gather_spec env auth rt q requestId flags a L)
        as (vars' & ? & ? & E' & _ & _ & _ & _ & _ & Y)
  end.
  rewrite E in E'. simplify_eq.
  unfold bind at 1. rewrite E.
  destruct (reply_calls env now s auth q requestId hist cid a
              (enableAsyncMode flags && (needsLinkedIn a || needsWhatsApp a)) vars')
    as (o & l' & -> & R' & G' & C' & Y').
  exists o, l'. split; [done|]. unfold count in *.
  rewrite R', G', C'. simpl in R, G, C, Y. tidy_trace_in R. tidy_trace_in G.
  tidy_trace_in C. tidy_trace_in Y. rewrite Y in Y'.
  destruct (needsGmail a), (needsCalendar a); repeat split; lia.
Qed.

(** X13.  No request loops: whatever the collaborators answer, one run of
    [POST /ask] asks the provider for a new token at most three times (once
    before the fetches, once in each fetch), searches the mail at most
    twice, fetches the calendar at most twice and calls the synthesizer at
    most once. *)
Theorem calls_are_bounded (env : AskEnv) (now : Z) (s : State)
    (auth : AuthenticatedRequest) (body : AskBody) :
  (count is_refresh (post_ask env now s auth body).2 ≤ 3)%nat
  ∧ (count is_search_gmail (post_ask env now s auth body).2 ≤ 2)%nat
  ∧ (count is_get_calendar (post_ask env now s auth body).2 ≤ 2)%nat
  ∧ (count is_synthesize (post_ask env now s auth body).2 ≤ 1)%nat.
Proof.
  destruct (prelude_calls env auth body no_locals)
    as (x & l0 & Hpre & G0 & C0 & Y0 & R0).
  unfold count in *. simpl in *.
  destruct x as [reply|ctx].
  { rewrite (post_ask_early _ now s _ _ _ _ Hpre). simpl.
    rewrite G0, C0, Y0. simpl. lia. }
  rewrite (post_ask_checked _ _ _ _ _ _ _ Hpre).
  destruct (process_query_calls env now s auth
              (refresh_token (decryptedTokens ctx)) (body_query body)
              (randomUUID env) (conversationHistory ctx)
              (currentConversationId ctx) l0)
    as (o & l' & -> & R & G & C & Y).
  unfold count in *. rewrite G0 in G. rewrite C0 in C. rewrite Y0 in Y.
  simpl in *.
  destruct o as [[s' r]|e]; simpl; tidy_trace; lia.
Qed.

(** The bounds are reached when every call to Google is answered 401. *)
Lemma calls_bounds_are_reached :
  let tr := (post_ask all_unauthorized_world 2000 init alice a_question).2 in
  count is_refresh tr = 3%nat
  ∧ count is_search_gmail tr = 2%nat
  ∧ count is_get_calendar tr = 2%nat
  ∧ count is_synthesize tr = 1%nat.
Proof. cbv zeta. repeat split; vm_compute; reflexivity. Qed.

(** ** Which token the fetches use *)

(** What is known once the checks before the outer [try] have passed. *)
Lemma prelude_passed env auth body ctx l0 :
  prelude env auth body no_locals = (Returns (inr ctx), l0) →
  ∃ conn,
    valid_body env body = true
    ∧ selectConnection env = Some conn
    ∧ decryptTokens env (stored_tokens conn) = Some (decryptedTokens ctx)
    ∧ calls is_search_gmail (trace l0) = []
    ∧ calls is_get_calendar (trace l0) = []
    ∧ if needs_refresh (token_expires_at conn) (now_token_check env)
      then refreshed_token env 0 0 (refresh_token (decryptedTokens ctx))
           = Some (accessToken l0)
           ∧ calls is_refresh (trace l0)
             = [RefreshAccessToken (refresh_token (decryptedTokens ctx))]
      else accessToken l0 = access_token (decryptedTokens ctx)
           ∧ calls is_refresh (trace l0) = [].
Proof.
  intros Hpre.
  destruct (valid_body env body) eqn:Hv.
  2: { unfold prelude in Hpre. rewrite Hv in Hpre. simpl in Hpre.
       unfold ret in Hpre. by simplify_eq. }
  destruct (prelude_connection env auth body no_locals Hv)
    as (conv & l1 & Hq & _ & Heq).
  rewrite Heq in Hpre. clear Heq.
  destruct Hq as (Q1 & Q2 & Q3 & Q4 & _).
  destruct (selectConnection env) as [conn|]; [|by simplify_eq].
  destruct (decryptTokens env (stored_tokens conn)) as [tokens|] eqn:Hd;
    [|by simplify_eq].
  exists conn.
  match type of Hpre with
  | context [proactive_refresh env auth conn tokens ?L] =>
      destruct (proactive_refresh_spec env auth conn tokens L)
        as (usable & l2 & Heq & Hg & Hc & _ & _ & _ & _ & H)
  end.
  rewrite Heq in Hpre. destruct usable; simplify_eq. simpl in *.
  tidy_trace_in Hg. tidy_trace_in Hc. unfold count in H. tidy_trace_in H.
  rewrite Q1, Q2 in H. simpl in H. rewrite Hg, Hc, Q3, Q4.
  repeat (split; [done|]).
  destruct (needs_refresh _ _).
  - destruct H as [-> H].
    destruct (refreshed_token env 0 0 (refresh_token tokens)) as [fresh|];
      [|done].
    destruct H as [_ ->]. done.
  - destruct H as (-> & _ & ->). done.
Qed.

(** X14.  The first mail search of a request is made with the token that
    the check before the fetches left in hand: the one a successful refresh
    returned if the stored expiry was absent or past, the decrypted stored
    one otherwise.  A token found expired is never sent to Gmail. *)
Theorem first_search_uses_checked_token (env : AskEnv) (now : Z) (s : State)
    (auth : AuthenticatedRequest) (body : AskBody) (ctx : Checked) (l0 : Locals)
    (flags : FeatureFlags) (raw : QueryAnalysis) (plan : GmailQueryPlan) :
  prelude env auth body no_locals = (Returns (inr ctx), l0) →
  getFeatureFlags env = Returns flags →
  analyzeQuery env = Returns raw →
  needsGmail (spread raw (filterAnalysisByFlags env raw flags)) = true →
  planGmailQuery env = Returns plan →
  ∃ conn token rest,
    selectConnection env = Some conn
    ∧ calls is_search_gmail (post_ask env now s auth body).2
      = SearchGmail token (gmailQuery plan) (maxResults_for plan) :: rest
    ∧ if needs_refresh (token_expires_at conn) (now_token_check env)
      then refreshed_token env 0 0 (refresh_token (decryptedTokens ctx))
           = Some token
      else token = access_token (decryptedTokens ctx).
Proof.
  intros Hpre Hff Haq Hmail Hplan.
  destruct (prelude_passed _ _ _ _ _ Hpre) as (conn & _ & Hc & _ & G0 & _ & Htok).
  rewrite (post_ask_checked _ _ _ _ _ _ _ Hpre).
  rewrite (process_query_unfold _ _ _ _ _ _ _ _ _ _ _ _ Hff Haq).
  set (a := spread raw (filterAnalysisByFlags env raw flags)) in *. clearbody a.
  match goal with
  | |- context [bind _ _ ?L] =>
      destruct (gather_calls env auth (refresh_token (decryptedTokens ctx))
                  (body_query body) (randomUUID env) flags a L)
        as (vars & E & _ & _ & _ & F & _)
  end.
  destruct (F Hmail plan Hplan) as (rest & G). clear F.
  simpl in G. tidy_trace_in G. rewrite G0 in G. simpl in G.
  unfold bind at 1. rewrite E.
  destruct (reply_calls env now s auth (body_query body) (randomUUID env)
              (conversationHistory ctx) (currentConversationId ctx) a
              (enableAsyncMode flags && (needsLinkedIn a || needsWhatsApp a)) vars)
    as (o & l' & -> & _ & G' & _).
  exists conn, (accessToken l0), rest. split; [done|]. split.
  - destruct o as [[s' r]|e]; simpl; tidy_trace; by rewrite G', G.
  - destruct (needs_refresh _ _); by destruct Htok.
Qed.

Lemma first_search_uses_checked_token_witness :
  ∃ rest, calls is_search_gmail
            (post_ask refreshed_mail_world 2000 init alice a_question).2
          = SearchGmail "token-2" "from:bob" 10 :: rest.
Proof.
  destruct (first_search_uses_checked_token refreshed_mail_world 2000 init alice
              a_question a_context
              (prelude refreshed_mail_world alice a_question no_locals).2
              {| enableAsyncMode := false |}
              (an_analysis true false false false None None)
              {| gmailQuery := "from:bob"; intent := intent_other |})
    as (conn & token & rest & Hc & H & Htok).
  - vm_compute. reflexivity.
  - reflexivity.
  - reflexivity.
  - reflexivity.
  - reflexivity.
  - exists rest.
    assert (token = "token-2") as <-; [|exact H].
    injection Hc as <-. vm_compute in Htok. congruence.
Defined.

(** X21.  A token obtained during the mail fetch is the one the calendar
    fetch starts with.  When mail and calendar are both needed, the first
    mail search is answered 401 and the refresh that follows yields a token,
    the first calendar call carries that new token, not the one the request
    started with. *)
Theorem calendar_fetch_uses_refreshed_token (env : AskEnv)
    (auth : AuthenticatedRequest) (rt q requestId : string)
    (flags : FeatureFlags) (a : QueryAnalysis) (l : Locals)
    (plan : GmailQueryPlan) (e : JsError) (fresh : string) :
  needsGmail a = true →
  needsCalendar a = true →
  planGmailQuery env = Returns plan →
  searchGmail env (count is_search_gmail (trace l)) (accessToken l)
    (gmailQuery plan) (maxResults_for plan) = Throws e →
  isUnauthorized e = true →
  refreshed_token env (count is_refresh (trace l))
    (count is_update_connection (trace l)) rt = Some fresh →
  ∃ vars rest,
    gather env auth rt q requestId flags a l = (Returns tt, vars)
    ∧ calls is_get_calendar (trace vars)
      = (calls is_get_calendar (trace l)
         ++ GetCalendarEvents fresh (calendar_start a) (calendar_end a) :: rest)%list.
Proof.
  intros Hmail Hcal Hplan Hsearch H401 Hfresh.
  destruct (gather_calls env auth rt q requestId flags a l)
    as (vars & E & _ & _ & _ & _ & F).
  destruct (F Hcal) as (l1 & rest & Hwhen & Hcalls). clear F.
  rewrite Hmail in Hwhen. simpl in Hwhen.
  destruct (fetch_gmail_spec env (userId auth) rt q l)
    as (l1' & E' & _ & _ & _ & _ & P).
  rewrite Hwhen in E'. simplify_eq.
  rewrite Hplan in P. unfold retry_once_policy in P. cbv zeta in P.
  rewrite Hsearch, H401, Hfresh in P. destruct P as (_ & _ & Htok & _).
  exists vars, rest. split; [done|]. by rewrite Hcalls, Htok.
Qed.

Lemma calendar_fetch_uses_refreshed_token_witness :
  ∃ vars rest,
    gather mail_refresh_world alice "refresh-1" "what did bob say" "req-15"
      {| enableAsyncMode := false |}
      (an_analysis true true false false None None)
      (prelude mail_refresh_world alice a_question no_locals).2
    = (Returns tt, vars)
    ∧ calls is_get_calendar (trace vars)
      = GetCalendarEvents "token-2" None None :: rest.
Proof.
  destruct (calendar_fetch_uses_refreshed_token mail_refresh_world alice
              "refresh-1" "what did bob say" "req-15"
              {| enableAsyncMode := false |}
              (an_analysis true true false false None None)
              (prelude mail_refresh_world alice a_question no_locals).2
              {| gmailQuery := "from:bob"; intent := intent_other |}
              unauthorized "token-2")
    as (vars & rest & H & Hc).
  - reflexivity.
  - reflexivity.
  - reflexivity.
  - vm_compute. reflexivity.
  - reflexivity.
  - vm_compute. reflexivity.
  - exists vars, rest. split; [exact H|exact Hc].
Defined.

(** X15.  [refreshAndUpdateToken] hands back a token only if the provider
    returned a non-empty one and, where an admin client is configured, only
    after the update of the user's connection with that very token was
    issued and did not throw.  Without an admin client no update is issued.
    When the function throws instead, the failure is logged last and the
    token in hand is the one from before. *)
Theorem refresh_returns_after_update (env : AskEnv)
    (userId refreshToken : string) (l : Locals) :
  match refreshAndUpdateToken env userId refreshToken l with
  | (Returns t, l') =>
      t ≠ ""
      ∧ refreshAccessToken env (count is_refresh (trace l)) refreshToken = Returns t
      ∧ calls is_update_connection (trace l')
        = (calls is_update_connection (trace l)
           ++ if supabaseAdmin env then [UpdateConnection userId t] else [])%list
      ∧ (supabaseAdmin env = true →
         updateConnection_throws env (count is_update_connection (trace l)) = None)
      ∧ accessToken l' = accessToken l
  | (Throws e, l') =>
      last (trace l') = Some (LogError "Failed to refresh Google token")
      ∧ accessToken l' = accessToken l
  end.
Proof.
  unfold refreshAndUpdateToken, call_refreshAccessToken, call_updateConnection.
  unfold_m. simpl. rewrite !count_app. simpl. rewrite !Nat.add_0_r.
  destruct (refreshAccessToken env _ refreshToken) as [t|e]; simpl.
  2: { split; [by rewrite last_snoc|done]. }
  destruct (decide (t = "")); simpl.
  { split; [by rewrite last_snoc|done]. }
  destruct (supabaseAdmin env); simpl.
  2: { tidy_trace. done. }
  rewrite !count_app. simpl. rewrite !Nat.add_0_r.
  destruct (updateConnection_throws env _) as [e|]; simpl.
  - split; [by rewrite last_snoc|done].
  - tidy_trace. done.
Qed.

(** ** Conversations *)

(** X16.  A conversation is continued exactly while it is fresh.  If the
    request names a conversation that is found and was updated no more than
    ten minutes before the check (ten minutes to the millisecond still
    counts), its messages are the history, its id is kept and no
    conversation is created.  In every other case (no id, not found, older)
    the history is empty and one new conversation is inserted, whose id, if
    the insert gives one, becomes the current one. *)
Theorem conversation_continues_while_fresh (env : AskEnv)
    (auth : AuthenticatedRequest) (cid : option string) (l : Locals) :
  ∃ hist id l',
    load_conversation env auth cid l = (Returns (hist, id), l')
    ∧ (∀ c conv,
         cid = Some c → c ≠ "" → selectConversation env = Some conv →
         now_conversation_check env - 10 * 60 * 1000 ≤ updated_at conv →
         hist = messages conv ∧ id = Some c
         ∧ calls is_insert_conversation (trace l')
           = calls is_insert_conversation (trace l))
    ∧ (nonempty cid = None
       ∨ selectConversation env = None
       ∨ (∃ conv, selectConversation env = Some conv
                  ∧ updated_at conv < now_conversation_check env - 10 * 60 * 1000) →
       hist = []
       ∧ calls is_insert_conversation (trace l')
         = (calls is_insert_conversation (trace l)
            ++ [InsertConversation (userId auth)])%list
       ∧ (∀ n, insertConversation env = Some n → id = Some n)
       ∧ (insertConversation env = None → truthy id = false)).
Proof.
  unfold load_conversation. unfold_m. simpl.
  destruct (nonempty cid) as [c|] eqn:Hc; simpl.
  - assert (cid = Some c ∧ c ≠ "") as [-> Hne].
    { unfold nonempty in Hc. destruct cid as [c'|]; [|done].
      destruct (decide (c' = "")); by simplify_eq. }
    destruct (selectConversation env) as [conv|]; simpl.
    + case_bool_decide as Hold; simpl.
      * destruct (insertConversation env) as [n|]; eexists _, _, _;
          (split; [reflexivity|]); simpl; tidy_trace;
          (split; [intros ? ? ? ? ? ?; simplify_eq; lia|]);
          intros _; repeat split; intros; by simplify_eq.
      * unfold truthy. rewrite Hc. simpl. eexists _, _, _.
        split; [reflexivity|]. simpl. tidy_trace. split.
        -- intros ? ? ? ? ? ?. by simplify_eq.
        -- intros [?|[?|(conv' & ? & ?)]]; simplify_eq; try done; lia.
    + destruct (insertConversation env) as [n|]; eexists _, _, _;
        (split; [reflexivity|]); simpl; tidy_trace;
        (split; [intros ? ? ? ? ? ?; simplify_eq|]);
        intros _; repeat split; intros; by simplify_eq.
  - unfold truthy. rewrite Hc. simpl.
    destruct (insertConversation env) as [n|]; eexists _, _, _;
      (split; [reflexivity|]); simpl; tidy_trace;
      (split; [intros c conv -> Hne; unfold nonempty in Hc;
                 rewrite decide_False in Hc by done; done|]);
      intros _; repeat split; intros; try by simplify_eq.
    unfold truthy. by rewrite Hc.
Qed.

Lemma conversation_continues_while_fresh_witness :
  ∃ l', load_conversation (conversation_world 100000) alice (Some "conv-1") no_locals
        = (Returns (messages {| conversation_key := "conv-1"; updated_at := 100000;
                                messages := [{| role := "user"; content := "hello";
                                                message_metadata := None |}] |},
                    Some "conv-1"), l').
Proof.
  destruct (conversation_continues_while_fresh (conversation_world 100000) alice
              (Some "conv-1") no_locals) as (hist & id & l' & H & Hfresh & _).
  destruct (Hfresh "conv-1"
              {| conversation_key := "conv-1"; updated_at := 100000;
                 messages := [{| role := "user"; content := "hello";
                                 message_metadata := None |}] |})
    as (-> & -> & _).
  - reflexivity.
  - done.
  - reflexivity.
  - simpl. lia.
  - exists l'. exact H.
Defined.

(** ** The synchronous answer *)

(** X17.  On the synchronous path the synthesizer is called once, after the
    fetches, and what it does ends the request.  If it answers and there is
    no conversation, the reply is ['complete'] with that answer.  If it
    answers and there is a conversation, the conversation update is the
    last call of the body: the reply is ['complete'] with that answer and
    the conversation id, unless the update throws, in which case the reply
    is 500 [Failed to process query] although an answer was synthesized.
    If the synthesizer throws, the reply is that 500 and no conversation
    update is attempted.  In every case the store is as it was, and a
    ['complete'] reply lists the synchronous sources that were needed. *)
Theorem synthesis_ends_the_request (env : AskEnv) (now : Z) (s : State)
    (auth : AuthenticatedRequest) (body : AskBody) (ctx : Checked) (l0 : Locals)
    (flags : FeatureFlags) (raw : QueryAnalysis) :
  prelude env auth body no_locals = (Returns (inr ctx), l0) →
  getFeatureFlags env = Returns flags →
  analyzeQuery env = Returns raw →
  enableAsyncMode flags
  && (needsLinkedIn (spread raw (filterAnalysisByFlags env raw flags))
      || needsWhatsApp (spread raw (filterAnalysisByFlags env raw flags)))
  = false →
  ∃ before hits,
    calls is_synthesize before = []
    ∧ post_ask env now s auth body
      = let call := SynthesizeAnswer (body_query body) hits in
        let searched :=
          ((if needsGmail (spread raw (filterAnalysisByFlags env raw flags))
            then [gmail] else [])
           ++ (if needsCalendar (spread raw (filterAnalysisByFlags env raw flags))
               then [calendar] else []))%list in
        let failure := LogError "Ask processing failed" in
        match synthesizeAnswer env (body_query body) hits
                (conversationHistory ctx) with
        | Returns ans =>
            let complete_reply :=
              ReplyComplete (randomUUID env) ans searched
                            (currentConversationId ctx) in
            match nonempty (currentConversationId ctx) with
            | Some c =>
                match updateConversation_throws env with
                | None =>
                    (s, complete_reply,
                     (before ++ [call; UpdateConversation c])%list)
                | Some _ =>
                    (s, processing_failed (randomUUID env),
                     (before ++ [call; UpdateConversation c; failure])%list)
                end
            | None => (s, complete_reply, (before ++ [call])%list)
            end
        | Throws _ =>
            (s, processing_failed (randomUUID env),
             (before ++ [call; failure])%list)
        end.
Proof.
  intros Hpre Hff Haq Hsync.
  rewrite (post_ask_checked _ _ _ _ _ _ _ Hpre).
  destruct (prelude_frame _ _ _ _ _ _ Hpre) as (F1 & _ & F3 & _).
  simpl in F1, F3.
  rewrite (process_query_unfold _ _ _ _ _ _ _ _ _ _ _ _ Hff Haq).
  rewrite Hsync.
  set (a := spread raw (filterAnalysisByFlags env raw flags)) in *. clearbody a.
  match goal with
  | |- context [bind _ _ ?L] =>
      destruct (gather_spec env auth (refresh_token (decryptedTokens ctx))
                  (body_query body) (randomUUID env) flags a L)
        as (vars & g & c & E & S & _ & _ & _ & _ & Y)
  end.
  simpl in Y, S. tidy_trace_in Y. rewrite F1 in Y. rewrite F3 in S. simpl in S.
  unfold bind at 1. rewrite E.
  exists (trace vars ++ [LogInfo "Synthesizing answer"])%list,
    (mergeResults env (sync_results vars)).
  split; [tidy_trace; by rewrite Y|].
  cbv zeta. rewrite <- filter_sync_sources_for, <- S.
  unfold synthesize_reply. unfold_m. simpl.
  destruct (synthesizeAnswer env _ _ _) as [ans|e]; simpl.
  2: { rewrite <- !app_assoc. reflexivity. }
  destruct (nonempty (currentConversationId ctx)); simpl.
  - destruct (updateConversation_throws env); simpl;
      rewrite <- !app_assoc; reflexivity.
  - rewrite <- !app_assoc. reflexivity.
Qed.

Lemma synthesis_ends_the_request_witness :
  ∃ before hits,
    post_ask (with_synthesizeAnswer (fun _ _ _ => Throws plain_js_error) mail_world)
      2000 one_pending alice a_question
    = (one_pending, processing_failed "req-10",
       (before ++ [SynthesizeAnswer "what did bob say" hits;
                   LogError "Ask processing failed"])%list).
Proof.
  destruct (synthesis_ends_the_request
              (with_synthesizeAnswer (fun _ _ _ => Throws plain_js_error) mail_world)
              2000 one_pending alice a_question a_context
              (prelude (with_synthesizeAnswer (fun _ _ _ => Throws plain_js_error)
                          mail_world) alice a_question no_locals).2
              {| enableAsyncMode := false |}
              (an_analysis true false false false None None))
    as (before & hits & _ & H).
  - vm_compute. reflexivity.
  - reflexivity.
  - reflexivity.
  - reflexivity.
  - exists before, hits. exact H.
Defined.

(** ** A fetch that fails for good *)

(** The steps of [gather], one by one: the mail step, the calendar step,
    and the pushes for the extension sources, which call nobody. *)
Lemma gather_steps env auth rt q requestId flags a l :
  ∃ l1 l2 vars,
    when (needsGmail a) (fetch_gmail env (userId auth) rt q) l = (Returns tt, l1)
    ∧ when (needsCalendar a) (fetch_calendar env (userId auth) rt a) l1
      = (Returns tt, l2)
    ∧ gather env auth rt q requestId flags a l = (Returns tt, vars)
    ∧ sync_results vars = sync_results l2
    ∧ sourcesNeeded vars = (sourcesNeeded l ++ sources_for a)%list
    ∧ calls is_refresh (trace vars) = calls is_refresh (trace l2)
    ∧ calls is_search_gmail (trace vars) = calls is_search_gmail (trace l2)
    ∧ calls is_get_calendar (trace vars) = calls is_get_calendar (trace l2)
    ∧ calls is_synthesize (trace vars) = calls is_synthesize (trace l2).
Proof.
  assert (∃ l1, when (needsGmail a) (fetch_gmail env (userId auth) rt q) l
                = (Returns tt, l1)) as (l1 & E1).
  { unfold when. destruct (needsGmail a); [|by exists l].
    destruct (fetch_gmail_spec env (userId auth) rt q l) as (l1 & E & _).
    by exists l1. }
  assert (∃ l2, when (needsCalendar a) (fetch_calendar env (userId auth) rt a) l1
                = (Returns tt, l2)) as (l2 & E2).
  { unfold when. destruct (needsCalendar a); [|by exists l1].
    destruct (fetch_calendar_spec env (userId auth) rt a l1) as (l2 & E & _).
    by exists l2. }
  destruct (gather_spec env auth rt q requestId flags a l)
    as (vars & g & c & E & S & _).
  exists l1, l2, vars. split; [done|]. split; [done|]. split; [done|].
  split; [|split; [done|]]; revert E;
    unfold gather; unfold bind at 1; rewrite E1; unfold bind at 1; rewrite E2;
    unfold_m;
    destruct (needsLinkedIn a && has_length (linkedInKeywords a));
    destruct (needsWhatsApp a && has_length (whatsAppKeywords a));
    destruct (negb (enableAsyncMode flags) && (needsLinkedIn a || needsWhatsApp a));
    simpl; intros E; unfold ret in E; simplify_eq; simpl; tidy_trace; done.
Qed.




(** ** Following the instructions *)

Lemma js_keys_set_exact k v r :
  k ≠ proto_key → js_keys (js_set k v r) = js_keys r ∪ {[ k ]}.
Proof.
  intros Hk. unfold js_keys, js_set. rewrite decide_False by done. simpl.
  rewrite dom_insert_L. set_solver.
Qed.

(** One submission by the owner, in terms of the keys present. *)
Lemma submit_step st caller requestId L q src snippets :
  pendingSearches st !! requestId = Some L →
  heap st !! L = Some q →
  user_id q = caller →
  let written :=
    with_results (js_set (source_name src)
                    (normalizeSnippets (source_name src) snippets) (results q)) q in
  js_keys (results written) = js_keys (results q) ∪ {[ source_name src ]}
  ∧ dom_results st caller requestId (source_name src) snippets
    = if bool_decide (needed_names q ⊆ js_keys (results q) ∪ {[ source_name src ]})
      then (spawn {| task_search := L; task_request_id := requestId |}
                  (store L written st), ReplySubmit processing requestId)
      else (store L (with_status partial written) st,
            ReplySubmit partial requestId).
Proof.
  intros Hr Hl Hu written.
  assert (js_keys (results written)
          = js_keys (results q) ∪ {[ source_name src ]}) as Hkeys.
  { subst written. simpl. apply js_keys_set_exact, source_name_not_proto. }
  split; [done|].
  rewrite (dom_results_owner st caller requestId (source_name src) snippets L q
             Hr Hl Hu).
  cbv zeta. fold written. rewrite <- Hkeys.
  change (needed_names q) with (needed_names written).
  destruct (allSourcesComplete written) eqn:Hall.
  - rewrite bool_decide_eq_true_2; [done|]. by apply allSourcesComplete_keys.
  - rewrite bool_decide_eq_false_2; [done|]. intros Hsub.
    apply allSourcesComplete_keys in Hsub. congruence.
Qed.

Lemma filter_extension_sources_for a :
  filter (fun src => is_extension_source src) (sources_for a)
  = ((if needsLinkedIn a && has_length (linkedInKeywords a) then [linkedin] else [])
     ++ (if needsWhatsApp a && has_length (whatsAppKeywords a)
         then [whatsapp] else []))%list.
Proof.
  unfold sources_for.
  destruct (needsGmail a), (needsCalendar a),
    (needsLinkedIn a && has_length (linkedInKeywords a)),
    (needsWhatsApp a && has_length (whatsAppKeywords a)); reflexivity.
Qed.

(** The synchronous sources never hold an entry back: with the seeded keys
    present, what is missing is missing among the extension sources. *)
Lemma needed_names_sources_for a (K : gset string) :
  seeded_keys ⊆ K →
  list_to_set (source_name <$> sources_for a) ⊆ K
  ↔ list_to_set (source_name
                   <$> filter (fun src => is_extension_source src) (sources_for a))
    ⊆ K.
Proof.
  intros HK. unfold sources_for, seeded_keys in *.
  destruct (needsGmail a), (needsCalendar a),
    (needsLinkedIn a && has_length (linkedInKeywords a)),
    (needsWhatsApp a && has_length (whatsAppKeywords a)); simpl;
    clear -HK; set_solver.
Qed.

Lemma registered_lookup now requestId p s :
  created_at p = now →
  pendingSearches (sweep now (register requestId p s)) !! requestId
  = Some (length (heap s))
  ∧ heap (sweep now (register requestId p s)) !! length (heap s) = Some p.
Proof.
  intros Hnow. split.
  - apply sweep_lookup. simpl. split; [apply lookup_insert_eq|].
    unfold expired. rewrite lookup_app_r, Nat.sub_diag by done. simpl.
    apply bool_decide_eq_false. lia.
  - simpl. by rewrite lookup_app_r, Nat.sub_diag.
Qed.

(** With the seeded keys and the keys [X] present, an entry made for the
    analysis [a] is complete exactly when [X] has every extension source
    that was pushed. *)
Lemma complete_iff_extension_submitted a (X : gset string) :
  list_to_set (source_name <$> sources_for a) ⊆ seeded_keys ∪ X
  ↔ ∀ src, src ∈ filter (fun src => is_extension_source src) (sources_for a) →
           source_name src ∈ X.
Proof.
  rewrite filter_extension_sources_for. unfold sources_for, seeded_keys.
  destruct (needsGmail a), (needsCalendar a),
    (needsLinkedIn a && has_length (linkedInKeywords a)),
    (needsWhatsApp a && has_length (whatsAppKeywords a)); simpl;
    (split; [intros H src Hsrc; set_unfold in Hsrc; destruct_or?; subst; simpl
            |intros H]).
  all: try done.
  all: try match goal with
           | Hsub : _ ⊆ _ ∪ ?Y |- ?n ∈ ?Y =>
               let Hin := fresh in
               assert (n ∈ {[ "gmail"; "calendar" ]} ∪ Y) as Hin
                 by (apply Hsub; set_solver);
               set_unfold in Hin; destruct Hin as [[?|?]|?];
               [discriminate|discriminate|assumption]
           end.
  all: match goal with
       | Hall : ∀ src, _ → _ ∈ ?Y |- _ =>
           try (assert (source_name linkedin ∈ Y) by (apply Hall; set_solver));
           try (assert (source_name whatsapp ∈ Y) by (apply Hall; set_solver))
       end.
  all: simpl in *; set_solver.
Qed.

(** X18.  Following the instructions completes the search.  After a
    ['pending'] reply that lists at least one source, let the owner submit
    snippets once for each listed source, in any order and whatever the
    snippets: every submission but the last is answered ['partial'], the
    last one is answered ['processing'], and exactly one background
    synthesis has been started, for the new entry. *)
Theorem following_instructions_completes (env : AskEnv) (now : Z) (s s' : State)
    (auth : AuthenticatedRequest) (body : AskBody) (requestId : string)
    (needed : list Source) (instrs : list DOMInstruction) (tr : list Call)
    (subs : list (Source * list string)) :
  post_ask env now s auth body = (s', ReplyPending requestId needed instrs, tr) →
  needed ≠ [] →
  subs.*1 ≡ₚ needed →
  ∃ final,
    submit_each s' (userId auth) requestId subs
    = (final,
       (replicate (length needed - 1) (ReplySubmit partial requestId)
        ++ [ReplySubmit processing requestId])%list)
    ∧ tasks final
      = (tasks s ++ [{| task_search := length (heap s);
                        task_request_id := requestId |}])%list.
Proof.
  intros H Hne Hperm.
  apply pending_reply_inv in H
    as (ctx & l0 & flags & raw & vars & _ & _ & _ & _ & _ & S & D & Y
        & -> & -> & -> & -> & ->).
  set (a := spread raw (filterAnalysisByFlags env raw flags)) in *. clearbody a.
  set (p := new_pending auth (body_query body) (randomUUID env) now
              (currentConversationId ctx) a vars) in *.
  set (s' := sweep now (register (randomUUID env) p s)) in *.
  destruct (registered_lookup now (randomUUID env) p s eq_refl) as [Hreg Hheap].
  fold s' in Hreg, Hheap.
  assert (tasks s' = tasks s) as Htasks by done.
  assert (∀ X, needed_names p ⊆ seeded_keys ∪ X
               ↔ ∀ src, src ∈ filter (fun src => is_extension_source src)
                                     (sources_for a) →
                        source_name src ∈ X) as Hcomplete.
  { intros X. unfold needed_names. subst p. simpl. rewrite S.
    apply complete_iff_extension_submitted. }
  assert (js_keys (results p) = seeded_keys) as Hkeys
    by apply js_keys_seeded.
  assert (user_id p = userId auth) as Hu by done.
  rewrite S in *. rewrite filter_extension_sources_for in *.
  clearbody s' p. clear S D Y.
  destruct (needsLinkedIn a && has_length (linkedInKeywords a));
    destruct (needsWhatsApp a && has_length (whatsAppKeywords a));
    simpl in *; [| | |done].
  - (* both *)
    apply Permutation_sym, Permutation_length_2_inv in Hperm as [Hs|Hs];
      destruct subs as [|[x sn1] [|[y sn2] [|]]]; simpl in Hs; simplify_eq;
        cbn [submit_each].
    + destruct (submit_step s' (userId auth) (randomUUID env) _ p linkedin sn1
                  Hreg Hheap Hu) as [K1 ->].
      rewrite Hkeys in *.
      rewrite bool_decide_eq_false_2.
      2: { rewrite Hcomplete. intros Hall.
           specialize (Hall whatsapp). simpl in Hall. set_solver. }
      match goal with
      | |- context [store ?L ?q s'] =>
          destruct (submit_step (store L q s') (userId auth) (randomUUID env)
                      L q whatsapp sn2 Hreg
                      (store_lookup L q s' p Hheap) Hu) as [K2 ->]
      end.
      simpl in K1 |- *. rewrite K1.
      rewrite bool_decide_eq_true_2.
      2: { change (needed_names _) with (needed_names p).
           rewrite <- (assoc_L (∪)). rewrite Hcomplete. set_solver. }
      eexists. split; [reflexivity|]. simpl. by rewrite Htasks.
    + destruct (submit_step s' (userId auth) (randomUUID env) _ p whatsapp sn1
                  Hreg Hheap Hu) as [K1 ->].
      rewrite Hkeys in *.
      rewrite bool_decide_eq_false_2.
      2: { rewrite Hcomplete. intros Hall.
           specialize (Hall linkedin). simpl in Hall. set_solver. }
      match goal with
      | |- context [store ?L ?q s'] =>
          destruct (submit_step (store L q s') (userId auth) (randomUUID env)
                      L q linkedin sn2 Hreg
                      (store_lookup L q s' p Hheap) Hu) as [K2 ->]
      end.
      simpl in K1 |- *. rewrite K1.
      rewrite bool_decide_eq_true_2.
      2: { change (needed_names _) with (needed_names p).
           rewrite <- (assoc_L (∪)). rewrite Hcomplete. set_solver. }
      eexists. split; [reflexivity|]. simpl. by rewrite Htasks.
  - (* LinkedIn only *)
    apply Permutation_sym, Permutation_length_1_inv in Hperm.
    destruct subs as [|[x sn1] [|]]; simpl in Hperm; simplify_eq;
      cbn [submit_each].
    destruct (submit_step s' (userId auth) (randomUUID env) _ p linkedin sn1
                Hreg Hheap Hu) as [K1 ->].
    rewrite Hkeys in *.
    rewrite bool_decide_eq_true_2.
    2: { rewrite Hcomplete. set_solver. }
    eexists. split; [reflexivity|]. simpl. by rewrite Htasks.
  - (* WhatsApp only *)
    apply Permutation_sym, Permutation_length_1_inv in Hperm.
    destruct subs as [|[x sn1] [|]]; simpl in Hperm; simplify_eq;
      cbn [submit_each].
    destruct (submit_step s' (userId auth) (randomUUID env) _ p whatsapp sn1
                Hreg Hheap Hu) as [K1 ->].
    rewrite Hkeys in *.
    rewrite bool_decide_eq_true_2.
    2: { rewrite Hcomplete. set_solver. }
    eexists. split; [reflexivity|]. simpl. by rewrite Htasks.
Qed.

Lemma following_instructions_completes_witness :
  ∃ final,
    submit_each (post_ask both_sources_world 0 init alice a_question).1.1
      "alice" "req-14" [(whatsapp, ["see you"]); (linkedin, ["hi bob"])]
    = (final, [ReplySubmit partial "req-14"; ReplySubmit processing "req-14"])
    ∧ tasks final = [{| task_search := 0%nat; task_request_id := "req-14" |}].
Proof.
  apply (following_instructions_completes both_sources_world 0 init
           (post_ask both_sources_world 0 init alice a_question).1.1
           alice a_question "req-14" [linkedin; whatsapp]
           (instructions_for "req-14"
              (an_analysis true false true true (Some ["bob"]) (Some ["carol"])))
           (post_ask both_sources_world 0 init alice a_question).2
           [(whatsapp, ["see you"]); (linkedin, ["hi bob"])]).
  - vm_compute. reflexivity.
  - discriminate.
  - simpl. apply perm_swap.
Defined.

(** The mail step when no search is answered 401: only the first try
    counts, and the token stays. *)
Lemma mail_step_first_try env uid rt q a l l1 :
  count is_search_gmail (trace l) = 0%nat →
  (needsGmail a = true →
   answered_401 (first_mail_search env (accessToken l)) = false) →
  when (needsGmail a) (fetch_gmail env uid rt q) l = (Returns tt, l1) →
  accessToken l1 = accessToken l
  ∧ calls is_get_calendar (trace l1) = calls is_get_calendar (trace l)
  ∧ sync_results l1
    = (sync_results l
       ++ if needsGmail a
          then first_try (first_mail_search env (accessToken l))
                         (normalizeGmailResults env)
          else [])%list.
Proof.
  intros Hk Hno E. unfold when in E. destruct (needsGmail a).
  2: { unfold ret in E. simplify_eq. by rewrite app_nil_r. }
  specialize (Hno eq_refl).
  destruct (fetch_gmail_spec env uid rt q l) as (l1' & E' & _ & _ & C & _ & P).
  rewrite E in E'. simplify_eq. unfold first_mail_search in *.
  destruct (planGmailQuery env) as [plan|e0].
  - unfold retry_once_policy in P. cbv zeta in P. rewrite Hk in P.
    destruct (searchGmail env 0 _ _ _) as [msgs|e]; simpl in *.
    + by destruct P as (_ & _ & -> & ->).
    + rewrite Hno in P. destruct P as (_ & _ & -> & ->). by rewrite app_nil_r.
  - destruct P as (_ & _ & -> & ->). simpl. by rewrite app_nil_r.
Qed.

Lemma calendar_step_first_try env uid rt a l l2 :
  count is_get_calendar (trace l) = 0%nat →
  (needsCalendar a = true →
   answered_401 (getCalendarEvents env 0 (accessToken l) (calendar_start a)
                                   (calendar_end a)) = false) →
  when (needsCalendar a) (fetch_calendar env uid rt a) l = (Returns tt, l2) →
  sync_results l2
  = (sync_results l
     ++ if needsCalendar a
        then first_try (getCalendarEvents env 0 (accessToken l) (calendar_start a)
                                          (calendar_end a))
                       (normalizeCalendarResults env)
        else [])%list.
Proof.
  intros Hk Hno E. unfold when in E. destruct (needsCalendar a).
  2: { unfold ret in E. simplify_eq. by rewrite app_nil_r. }
  specialize (Hno eq_refl).
  destruct (fetch_calendar_spec env uid rt a l) as (l2' & E' & _ & _ & _ & _ & P).
  rewrite E in E'. simplify_eq.
  unfold retry_once_policy in P. cbv zeta in P. rewrite Hk in P.
  destruct (getCalendarEvents env 0 _ _ _) as [events|e]; simpl in *.
  - by destruct P as (_ & _ & _ & ->).
  - rewrite Hno in P. destruct P as (_ & _ & _ & ->). by rewrite app_nil_r.
Qed.

(** X19.  The entry that a registration stores carries the synchronous hits
    gathered before it.  Take a request that registers and none of whose
    first calls to Google is answered 401 (the retry is the subject of C4).
    Its hits are the normalised answer of the first mail search, if mail is
    needed and plan and search succeed, followed by the normalised answer
    of the first calendar call, if the calendar is needed and the call
    succeeds.  The new entry holds under ["gmail"] those of these hits that
    are labelled gmail and under ["calendar"] those labelled calendar; both
    keys are there even for a source that was not needed or whose fetch
    failed, and no other key is. *)
Theorem registered_entry_keeps_sync_hits (env : AskEnv) (now : Z) (s : State)
    (auth : AuthenticatedRequest) (body : AskBody) (ctx : Checked) (l0 : Locals)
    (flags : FeatureFlags) (raw : QueryAnalysis) :
  prelude env auth body no_locals = (Returns (inr ctx), l0) →
  getFeatureFlags env = Returns flags →
  analyzeQuery env = Returns raw →
  let a := spread raw (filterAnalysisByFlags env raw flags) in
  let mail := first_mail_search env (accessToken l0) in
  let cal := getCalendarEvents env 0 (accessToken l0) (calendar_start a)
                               (calendar_end a) in
  let hits :=
    ((if needsGmail a then first_try mail (normalizeGmailResults env) else [])
     ++ (if needsCalendar a then first_try cal (normalizeCalendarResults env)
         else []))%list in
  enableAsyncMode flags = true →
  needsLinkedIn a || needsWhatsApp a = true →
  (needsGmail a = true → answered_401 mail = false) →
  (needsCalendar a = true → answered_401 cal = false) →
  ∃ p, find_search (post_ask env now s auth body).1.1 (randomUUID env) = Some p
       ∧ results p = seeded_results hits
       ∧ js_get "gmail" (results p)
         = Some (filter (fun r => from_source gmail r) hits)
       ∧ js_get "calendar" (results p)
         = Some (filter (fun r => from_source calendar r) hits)
       ∧ js_keys (results p) = seeded_keys.
Proof.
  intros Hpre Hff Haq a mail cal hits Hasync Hext Hmail Hcal.
  destruct (prelude_passed _ _ _ _ _ Hpre) as (conn & _ & _ & _ & G0 & C0 & _).
  destruct (prelude_frame _ _ _ _ _ _ Hpre) as (_ & R0 & _). simpl in R0.
  rewrite (post_ask_checked _ _ _ _ _ _ _ Hpre).
  rewrite (process_query_unfold _ _ _ _ _ _ _ _ _ _ _ _ Hff Haq).
  fold a. rewrite Hasync, Hext. simpl andb. cbv iota.
  subst hits mail cal. clearbody a.
  match goal with
  | |- context [bind _ _ ?L] => set (lq := L)
  end.
  destruct (gather_steps env auth (refresh_token (decryptedTokens ctx))
              (body_query body) (randomUUID env) flags a lq)
    as (l1 & l2 & vars & E1 & E2 & E & R & _).
  assert (count is_search_gmail (trace lq) = 0%nat) as Hkg.
  { unfold count. subst lq. simpl. tidy_trace. by rewrite G0. }
  assert (count is_get_calendar (trace lq) = 0%nat) as Hkc.
  { unfold count. subst lq. simpl. tidy_trace. by rewrite C0. }
  destruct (mail_step_first_try env (userId auth) _ _ a lq l1 Hkg Hmail E1)
    as (T1 & C1 & R1).
  assert (count is_get_calendar (trace l1) = 0%nat) as Hkc1
    by (unfold count in *; by rewrite C1).
  change (accessToken l0) with (accessToken lq) in Hcal. rewrite <- T1 in Hcal.
  pose proof (calendar_step_first_try env (userId auth) _ a l1 l2 Hkc1 Hcal E2)
    as R2.
  rewrite T1 in R2. rewrite R1 in R2. simpl in R2. rewrite R0 in R2.
  simpl in R2.
  unfold bind at 1. rewrite E. unfold register_pending. unfold_m. cbn [fst].
  set (p := new_pending auth (body_query body) (randomUUID env) now
              (currentConversationId ctx) a vars).
  destruct (registered_lookup now (randomUUID env) p s eq_refl) as [Hreg Hheap].
  exists p. split.
  { unfold find_search. rewrite Hreg. simpl. exact Hheap. }
  subst p. simpl. rewrite R, R2. split; [done|]. split; [done|].
  split; [done|]. apply js_keys_seeded.
Qed.

Lemma registered_entry_keeps_sync_hits_witness :
  ∃ p, find_search (post_ask both_sources_world 0 init alice a_question).1.1
         "req-14" = Some p
       ∧ js_get "gmail" (results p) = Some [mail_hit (a_mail "m1")].
Proof.
  pose proof (registered_entry_keeps_sync_hits both_sources_world 0 init alice
                a_question a_context
                (prelude both_sources_world alice a_question no_locals).2
                {| enableAsyncMode := true |}
                (an_analysis true false true true (Some ["bob"]) (Some ["carol"])))
    as H.
  cbv zeta in H. destruct H as (p & H & _ & Hg & _).
  - vm_compute. reflexivity.
  - reflexivity.
  - reflexivity.
  - reflexivity.
  - reflexivity.
  - reflexivity.
  - discriminate.
  - exists p. split; [exact H|]. rewrite Hg. vm_compute. reflexivity.
Defined.

(** ** How the registry grows *)

(** X20.  A request id comes to lead to an entry only through a [POST /ask]
    that answers ['pending'] with that id, and the entry is then a new one,
    at the end of the heap: no poll, submission, background task or timer
    ever registers anything, and no two registrations share an entry. *)
Theorem registry_grows_by_registration (now : Z) (s : State) (e : Event)
    (requestId : string) (l : nat) :
  pendingSearches s !! requestId ≠ Some l →
  pendingSearches (step now s e).1 !! requestId = Some l →
  l = length (heap s)
  ∧ length (heap (step now s e).1) = S (length (heap s))
  ∧ ∃ auth body env needed instrs,
      e = PostAsk auth body env
      ∧ requestId = randomUUID env
      ∧ (step now s e).2 = Some (ReplyPending requestId needed instrs).
Proof.
  intros Hold Hnew. destruct e as [auth body env|c r|c r|c r src sn|i env|i].
  - simpl in *. destruct (post_ask env now s auth body) as [[s' r] tr] eqn:H.
    simpl in *.
    apply post_ask_state in H as [[-> _]|(p & -> & _ & ->)]; [done|].
    apply sweep_lookup in Hnew as [Hnew _]. simpl in Hnew.
    destruct (decide (requestId = randomUUID env)) as [->|Hne].
    + rewrite lookup_insert_eq in Hnew. simplify_eq.
      split; [done|]. split; [simpl; rewrite length_app; simpl; lia|]. eauto 10.
    + rewrite lookup_insert_ne in Hnew by done. done.
  - done.
  - done.
  - simpl in Hnew.
    pose proof (dom_results_registry s c r src sn) as Hreg.
    destruct (dom_results s c r src sn) as [s' reply]. simpl in *.
    rewrite Hreg in Hnew. done.
  - simpl in Hnew. rewrite registry_task_settles in Hnew. done.
  - simpl in Hnew. unfold timer_fires in Hnew.
    destruct (timers s !! i) as [t|]; [|done].
    case_bool_decide; [|done]. simpl in Hnew.
    apply lookup_delete_Some in Hnew as [_ Hnew]. done.
Qed.

Lemma registry_grows_by_registration_witness :
  length (heap (step 0 init (PostAsk alice a_question linkedin_world)).1)
  = S (length (heap init)).
Proof.
  destruct (registry_grows_by_registration 0 init
              (PostAsk alice a_question linkedin_world) "req-1" 0%nat)
    as (_ & H & _).
  - vm_compute. discriminate.
  - vm_compute. reflexivity.
  - exact H.
Defined.
